(** * News-Portal: the live aggregation and ranking engine

    A shallow embedding of the RSS aggregation engine
    ([src/scrapers/sites/RSSNewsScraper.js]), of the second copy of that
    class kept in the repository (the class [RSSNewsScraper] that starts at
    line 27 of [src/routes/index.js]) and of the persistence adapter
    ([saveNews] in [src/services/ScraperService.js]).

    JavaScript strings are sequences of UTF-16 code units; the services of
    the host (case conversion, the network, the clock, the random source)
    are explicit parameters of the functions that use them. *)

From Stdlib Require Import ZArith NArith List String Ascii Bool Lia QArith.
From Stdlib Require Import Permutation Sorted Qround.
From stdpp Require Import gmap.

Local Open Scope nat_scope.
Local Open Scope N_scope.

(** ** JavaScript strings *)

(** A string value: its UTF-16 code units. *)
Abbreviation jsstring := (list N).

(** The code units of a UTF-8 byte sequence (the repository's files are
    UTF-8; a code point above U+FFFF becomes a surrogate pair). *)
Fixpoint utf8_units (bs : list N) : jsstring :=
  match bs with
  | [] => []
  | b0 :: r0 =>
      if b0 <? 128 then b0 :: utf8_units r0
      else if b0 <? 224 then
        match r0 with
        | b1 :: r1 => ((b0 mod 32) * 64 + b1 mod 64) :: utf8_units r1
        | [] => [65533]
        end
      else if b0 <? 240 then
        match r0 with
        | b1 :: b2 :: r2 =>
            ((b0 mod 16) * 4096 + (b1 mod 64) * 64 + b2 mod 64) :: utf8_units r2
        | _ => [65533]
        end
      else
        match r0 with
        | b1 :: b2 :: b3 :: r3 =>
            let cp := (b0 mod 8) * 262144 + (b1 mod 64) * 4096
                      + (b2 mod 64) * 64 + b3 mod 64 in
            (55296 + (cp - 65536) / 1024) :: (56320 + (cp - 65536) mod 1024)
              :: utf8_units r3
        | _ => [65533]
        end
  end.

(** A string literal of the source, as a JavaScript string. *)
Definition js (s : string) : jsstring :=
  utf8_units (map N_of_ascii (list_ascii_of_string s)).

(** [a === b] on strings. *)
Definition str_eqb (a b : jsstring) : bool := bool_decide (a = b).

(** Truthiness of a string: only the empty string is falsy. *)
Definition truthy (s : jsstring) : bool :=
  match s with [] => false | _ => true end.

(** [a || b] on values that are strings or [undefined]/[null] ([None]). *)
Definition or_else (a : option jsstring) (b : option jsstring) : option jsstring :=
  match a with
  | Some s => if truthy s then a else b
  | None => b
  end.

(** [a || ''], the usual way the source defaults a missing field. *)
Definition or_empty (a : option jsstring) : jsstring :=
  match a with
  | Some s => s
  | None => []
  end.

(** [\w] of a regular expression without the [u] flag: [[A-Za-z0-9_]]. *)
Definition isWordChar (c : N) : bool :=
  ((48 <=? c) && (c <=? 57)) || ((65 <=? c) && (c <=? 90))
  || (c =? 95) || ((97 <=? c) && (c <=? 122)).

(** [\d]. *)
Definition isDigit (c : N) : bool := (48 <=? c) && (c <=? 57).

(** [\s], and what [trim] strips: WhiteSpace and LineTerminator of
    ECMAScript. *)
Definition isWhiteSpace (c : N) : bool :=
  ((9 <=? c) && (c <=? 13)) || (c =? 32) || (c =? 160) || (c =? 5760)
  || ((8192 <=? c) && (c <=? 8202)) || (c =? 8232) || (c =? 8233)
  || (c =? 8239) || (c =? 8287) || (c =? 12288) || (c =? 65279).

Fixpoint trimStart (s : jsstring) : jsstring :=
  match s with
  | c :: r => if isWhiteSpace c then trimStart r else s
  | [] => []
  end.

Definition trimEnd (s : jsstring) : jsstring := rev (trimStart (rev s)).

(** [String.prototype.trim]. *)
Definition trim (s : jsstring) : jsstring := trimEnd (trimStart s).

(** [s.startsWith(p)]. *)
Fixpoint startsWith (s p : jsstring) : bool :=
  match p, s with
  | [], _ => true
  | c :: p', d :: s' => (c =? d) && startsWith s' p'
  | _ :: _, [] => false
  end.

(** [s.includes(p)]. *)
Fixpoint includes (s p : jsstring) : bool :=
  startsWith s p ||
  match s with
  | [] => false
  | _ :: s' => includes s' p
  end.

(** [s.substring(0, n)]. *)
Definition substring0 (n : nat) (s : jsstring) : jsstring := firstn n s.

(** [s.split(sep)] for a non-empty separator: the pieces between the
    successive occurrences of [sep], scanning from the left. *)
Fixpoint split_go (sep : jsstring) (cur : jsstring) (skip : nat) (s : jsstring)
  : list jsstring :=
  match s with
  | [] => [rev cur]
  | c :: r =>
      match skip with
      | S k => split_go sep cur k r
      | O =>
          if startsWith s sep
          then rev cur :: split_go sep [] (Nat.pred (length sep)) r
          else split_go sep (c :: cur) O r
      end
  end.

Definition splitBy (s sep : jsstring) : list jsstring := split_go sep [] O s.

(** [parts.join(sep)]. *)
Fixpoint join (sep : jsstring) (parts : list jsstring) : jsstring :=
  match parts with
  | [] => []
  | [p] => p
  | p :: rest => p ++ sep ++ join sep rest
  end.

(** [parts.slice(0, -1)]. *)
Definition dropLast {A : Type} (l : list A) : list A := removelast l.

(** ** Regular expressions

    The patterns of the source, as syntax trees, and the backtracking
    matcher of ECMAScript over them: a matcher takes a position and a
    continuation, and answers with the end of the first match found in
    priority order. Every pattern the source builds with [new RegExp] glues
    fixed pieces around a string that went through [escapeRegex], so that
    string stands for its own characters ([RChars]). *)

Inductive regex : Type :=
| RChars (s : jsstring)
| RClass (member : N -> bool)
| RWordBoundary
| RStart
| REnd
| RSeq (r1 r2 : regex)
| RAlt (r1 r2 : regex)
| RRepeat (lo : nat) (hi : option nat) (r : regex).

(** The quantifier [{lo,hi}], greedy (RepeatMatcher of ECMAScript): an
    iteration that is not required and matches the empty string is
    refused. *)
Fixpoint repeatMatcher (body : nat -> (nat -> option nat) -> option nat)
  (fuel lo : nat) (hi : option nat) (i : nat) (k : nat -> option nat)
  : option nat :=
  match fuel with
  | O => None
  | S fuel' =>
      match hi with
      | Some O => k i
      | _ =>
          let hi' := option_map Nat.pred hi in
          match lo with
          | S lo' => body i (fun j => repeatMatcher body fuel' lo' hi' j k)
          | O =>
              match body i (fun j => if Nat.eqb j i then None
                                     else repeatMatcher body fuel' O hi' j k) with
              | Some e => Some e
              | None => k i
              end
          end
      end
  end.

Section Matcher.

(** [canon] is Canonicalize of ECMAScript: the identity unless the
    expression has the [i] flag. *)
Variable canon : N -> N.
Variable input : jsstring.

Definition isWordAt (i : nat) : bool :=
  match nth_error input i with
  | Some c => isWordChar c
  | None => false
  end.

(** [\b] holds between a word character and a non-word character (or an
    end of the input). *)
Definition atWordBoundary (i : nat) : bool :=
  xorb (match i with O => false | S j => isWordAt j end) (isWordAt i).

Fixpoint matchChars (s : jsstring) (i : nat) : option nat :=
  match s with
  | [] => Some i
  | c :: s' =>
      match nth_error input i with
      | Some d => if canon c =? canon d then matchChars s' (S i) else None
      | None => None
      end
  end.

Fixpoint matcher (r : regex) (i : nat) (k : nat -> option nat) : option nat :=
  match r with
  | RChars s =>
      match matchChars s i with
      | Some j => k j
      | None => None
      end
  | RClass member =>
      match nth_error input i with
      | Some c => if member c then k (S i) else None
      | None => None
      end
  | RWordBoundary => if atWordBoundary i then k i else None
  | RStart => if Nat.eqb i O then k i else None
  | REnd => if Nat.eqb i (length input) then k i else None
  | RSeq a b => matcher a i (fun j => matcher b j k)
  | RAlt a b =>
      match matcher a i k with
      | Some e => Some e
      | None => matcher b i k
      end
  | RRepeat lo hi a =>
      repeatMatcher (matcher a) (lo + length input + 2) lo hi i k
  end.

(** RegExpBuiltinExec: the first position from [start] on at which the
    pattern matches, with the end of the match. *)
Fixpoint execFrom (r : regex) (fuel start : nat) : option (nat * nat) :=
  match fuel with
  | O => None
  | S fuel' =>
      match matcher r start Some with
      | Some e => Some (start, e)
      | None => execFrom r fuel' (S start)
      end
  end.

Definition exec (r : regex) (start : nat) : option (nat * nat) :=
  execFrom r (S (length input) - start) start.

(** [regex.test(input)] for an expression without the [g] flag. *)
Definition test (r : regex) : bool :=
  match exec r O with
  | Some _ => true
  | None => false
  end.

(** [input.match(regex)] for an expression with the [g] flag: the
    successive matches; after an empty match the search moves on by one
    code unit. *)
Fixpoint matchAllFrom (r : regex) (fuel start : nat) : list (nat * nat) :=
  match fuel with
  | O => []
  | S fuel' =>
      match exec r start with
      | None => []
      | Some (i, e) =>
          (i, e) :: matchAllFrom r fuel' (if Nat.eqb e i then S e else e)
      end
  end.

Definition matchAll (r : regex) : list (nat * nat) :=
  matchAllFrom r (length input + 2) O.

End Matcher.

(** ** The host

    [String.prototype.toLowerCase] and the case folding of regular
    expressions with the [i] flag are the engine's, driven by the Unicode
    tables: the model takes them as given. *)

Record JsHost : Type := {
  toLowerCase : jsstring -> jsstring;
  canonicalize : N -> N
}.

(** The two conversions on Basic Latin, Latin-1 Supplement and Latin
    Extended-A (U+0000 to U+017F), where every character of the
    repository's tables lies; other code units are left as they are. *)
Definition lowerUnit (c : N) : jsstring :=
  if (65 <=? c) && (c <=? 90) then [c + 32]
  else if (192 <=? c) && (c <=? 222) && negb (c =? 215) then [c + 32]
  else if c =? 304 then [105; 775]
  else if c =? 376 then [255]
  else if ((256 <=? c) && (c <=? 303)) || ((306 <=? c) && (c <=? 311))
          || ((330 <=? c) && (c <=? 375))
       then (if N.even c then [c + 1] else [c])
  else if ((313 <=? c) && (c <=? 328)) || ((377 <=? c) && (c <=? 382))
       then (if N.odd c then [c + 1] else [c])
  else [c].

Definition toLowerCase_latin (s : jsstring) : jsstring := flat_map lowerUnit s.

(** Canonicalize without the [u] flag: the upper-case form when it is one
    code unit, except that a non-ASCII unit never folds to an ASCII one. *)
Definition canonicalize_latin (c : N) : N :=
  if (97 <=? c) && (c <=? 122) then c - 32
  else if (224 <=? c) && (c <=? 254) && negb (c =? 247) then c - 32
  else if c =? 181 then 924
  else if c =? 255 then 376
  else if ((256 <=? c) && (c <=? 303)) || ((306 <=? c) && (c <=? 311))
          || ((330 <=? c) && (c <=? 375))
       then (if N.odd c then c - 1 else c)
  else if ((313 <=? c) && (c <=? 328)) || ((377 <=? c) && (c <=? 382))
       then (if N.even c then c - 1 else c)
  else c.

Definition latin : JsHost :=
  {| toLowerCase := toLowerCase_latin; canonicalize := canonicalize_latin |}.

(** ** The data model *)

(** An entry of a parsed feed, as rss-parser hands it over (the custom
    fields of the constructor included). A missing field is [None]. *)
Module FeedItem.
Record t : Type := mk {
  title : option jsstring;
  contentSnippet : option jsstring;
  content : option jsstring;
  summary : option jsstring;
  link : option jsstring;
  pubDate : option jsstring;
  mediaUrl : option jsstring;        (* item.media.$.url *)
  thumbnailUrl : option jsstring;    (* item.thumbnail.$.url *)
  enclosureUrl : option jsstring;    (* item.enclosure.url *)
  contentEncoded : option jsstring
}.
End FeedItem.

(** An entry of the registry [this.rssFeeds]. *)
Module FeedInfo.
Record t : Type := mk {
  url : jsstring;
  category : jsstring;
  source : jsstring
}.
End FeedInfo.

(** The object the scraper pushes for an accepted entry. [publishedAt] is
    the time value of the [Date] in milliseconds, [None] for an invalid
    date; [url] and [imageUrl] are [None] when [null] or [undefined]. *)
Module NewsItem.
Record t : Type := mk {
  title : jsstring;
  description : jsstring;
  url : option jsstring;
  imageUrl : option jsstring;
  publishedAt : option Z;
  source : jsstring;
  category : jsstring;
  feedKey : jsstring
}.
End NewsItem.

(** [{ ...item, relevanceScore: score }]. *)
Module ScoredItem.
Record t : Type := mk {
  item : NewsItem.t;
  relevanceScore : Z
}.
Definition url (s : t) : option jsstring := NewsItem.url (item s).
End ScoredItem.

(** What the engine reads from outside during one call: the network, the
    URL and date parsers, the clock and the random source. *)
Record World : Type := {
  (* [this.parser.parseURL(url)], then [feed.items || []]; [None] when the
     promise rejects *)
  parseURL : jsstring -> option (list FeedItem.t);
  (* [new URL(url, new URL(feedUrl).origin).href]; [None] when it throws *)
  hrefOf : jsstring -> jsstring -> option jsstring;
  encodeURIComponent : jsstring -> jsstring;
  (* [new Date(text).getTime()]; [None] for NaN *)
  dateTime : jsstring -> option Z;
  (* [new Date()] while entry number [i] of the feed fetched from the given
     URL is processed *)
  clockAtEntry : jsstring -> nat -> Z;
  (* [Date.now()] while result number [i] is scored *)
  clockAtScore : nat -> Z;
  (* the choices of [sort(() => Math.random() - 0.5)] *)
  shuffleSeed : list nat;
  (* the [src] that the [<img ...>] pattern of [extractImageUrl] captures
     in a content field *)
  imgSrcOf : jsstring -> option jsstring;
  (* the image found on the article's page, [None] when none or on failure *)
  articleImage : jsstring -> option jsstring
}.

(** [new Error(message)]. *)
Inductive JsError : Type :=
| Error (message : jsstring).

(** ** Helpers shared by the methods *)

(** [[...new Set(list)]]: the first occurrence of each string, in order. *)
Fixpoint uniqStrings (seen : list jsstring) (l : list jsstring) : list jsstring :=
  match l with
  | [] => []
  | s :: r =>
      if existsb (str_eqb s) seen then uniqStrings seen r
      else s :: uniqStrings (s :: seen) r
  end.

(** The filter
    [{ if (!item.url || seen.has(item.url)) return false; seen.add(item.url); return true; }]
    over a list, with the set [seen] threaded through. *)
Fixpoint uniqueByUrl {A : Type} (url : A -> option jsstring)
  (seen : gset jsstring) (l : list A) : list A :=
  match l with
  | [] => []
  | x :: r =>
      match url x with
      | Some u =>
          if truthy u && negb (bool_decide (u ∈ seen))
          then x :: uniqueByUrl url ({[u]} ∪ seen) r
          else uniqueByUrl url seen r
      | None => uniqueByUrl url seen r
      end
  end.

(** [Array.prototype.sort(compare)], which is stable: an element goes
    after those the comparator puts strictly before it, and before the
    rest. *)
Fixpoint sortInsert {A : Type} (compare : A -> A -> Z) (x : A) (l : list A)
  : list A :=
  match l with
  | [] => [x]
  | y :: r =>
      if (compare y x <? 0)%Z then y :: sortInsert compare x r
      else x :: l
  end.

Definition sortBy {A : Type} (compare : A -> A -> Z) (l : list A) : list A :=
  fold_right (sortInsert compare) [] l.

(** A permutation chosen by the random source: each element is put at
    the position the next number of the seed names. *)
Fixpoint insertAt {A : Type} (n : nat) (x : A) (l : list A) : list A :=
  match n, l with
  | O, _ => x :: l
  | S k, y :: r => y :: insertAt k x r
  | S _, [] => [x]
  end.

Fixpoint shuffleBy {A : Type} (seed : list nat) (l : list A) : list A :=
  match l with
  | [] => []
  | x :: r =>
      match seed with
      | n :: seed' => insertAt n x (shuffleBy seed' r)
      | [] => x :: shuffleBy [] r
      end
  end.

(** [x < y] on the rationals that stand for JavaScript numbers. *)
Definition Qltb (x y : Q) : bool := negb (Qle_bool y x).

(** [normalizeText]: [if (!text) return ''; return text.toLowerCase().trim();] *)
Definition normalizeText (h : JsHost) (text : jsstring) : jsstring :=
  if truthy text then trim (toLowerCase h text) else [].

(** [getSynonyms] over the table [this.synonyms]. *)
Definition getSynonymsOf (table : list (jsstring * list jsstring))
  (h : JsHost) (keyword : jsstring) : list jsstring :=
  let normalizedKeyword := normalizeText h keyword in
  let synonymList :=
    [normalizedKeyword] ++
    flat_map (fun '(key, values) =>
                if str_eqb key normalizedKeyword
                   || existsb (fun v => str_eqb v normalizedKeyword) values
                then key :: values
                else [])
             table in
  uniqStrings [] synonymList.

(** ['\\b' + escapeRegex(pattern) + '\\b']. *)
Definition wordPattern (pattern : jsstring) : regex :=
  RSeq RWordBoundary (RSeq (RChars pattern) RWordBoundary).

(** ['\\b' + escapeRegex(syn) + '\\w*\\b']. *)
Definition inflectedPattern (syn : jsstring) : regex :=
  RSeq RWordBoundary
       (RSeq (RChars syn)
             (RSeq (RRepeat O None (RClass isWordChar)) RWordBoundary)).

(** The order of [Array.prototype.sort()] without a comparator, on
    strings: by UTF-16 code units, a proper prefix first. The answer is
    negative, zero or positive as a comparator's. *)
Fixpoint compareUnits (a b : jsstring) : Z :=
  match a, b with
  | [], [] => 0%Z
  | [], _ :: _ => (-1)%Z
  | _ :: _, [] => 1%Z
  | c :: a', d :: b' =>
      if c <? d then (-1)%Z
      else if d <? c then 1%Z
      else compareUnits a' b'
  end.

(** ** [RSSNewsScraper] ([src/scrapers/sites/RSSNewsScraper.js]) *)

Module RSSNewsScraper.

Definition feed (key url category source : string) : jsstring * FeedInfo.t :=
  (js key, FeedInfo.mk (js url) (js category) (js source)).

(** [this.rssFeeds], in the order of its keys. *)
Definition rssFeeds : list (jsstring * FeedInfo.t) := [
  feed "ntv_ekonomi" "https://www.ntv.com.tr/ekonomi.rss" "Ekonomi" "NTV";
  feed "cnn_ekonomi" "https://www.cnnturk.com/feed/rss/ekonomi/news"
      "Ekonomi" "CNN Turk";
  feed "hurriyet_ekonomi" "https://www.hurriyet.com.tr/rss/ekonomi"
      "Ekonomi" "Hurriyet";
  feed "sozcu_ekonomi" "https://www.sozcu.com.tr/feeds-rss-category-ekonomi"
      "Ekonomi" "Sozcu";
  feed "haberturk_ekonomi" "https://www.haberturk.com/rss/ekonomi.xml"
      "Ekonomi" "Haberturk";
  feed "sabah_ekonomi" "https://www.sabah.com.tr/rss/ekonomi.xml"
      "Ekonomi" "Sabah";
  feed "yenisafak_ekonomi" "https://www.yenisafak.com/rss?xml=ekonomi"
      "Ekonomi" "Yeni Safak";
  feed "star_ekonomi" "https://www.star.com.tr/rss/ekonomi.xml"
      "Ekonomi" "Star";
  feed "dunya_ekonomi" "https://www.dunya.com/rss" "Ekonomi" "Dunya Gazetesi";
  feed "bloomberght" "https://www.bloomberght.com/rss"
      "Ekonomi" "BloombergHT";
  feed "paraanaliz" "https://www.paraanaliz.com/feed/"
      "Ekonomi" "Para Analiz";
  feed "bigpara" "https://bigpara.hurriyet.com.tr/rss/" "Ekonomi" "Bigpara";
  feed "investing_tr" "https://tr.investing.com/rss/news.rss"
      "Ekonomi" "Investing.com TR";
  (* GUNDEM *)
  feed "ntv_gundem" "https://www.ntv.com.tr/turkiye.rss" "Gundem" "NTV";
  feed "cnn_gundem" "https://www.cnnturk.com/feed/rss/turkiye/news"
      "Gundem" "CNN Turk";
  feed "hurriyet_gundem" "https://www.hurriyet.com.tr/rss/gundem"
      "Gundem" "Hurriyet";
  feed "sozcu_gundem" "https://www.sozcu.com.tr/feeds-rss-category-gundem"
      "Gundem" "Sozcu";
  feed "haberturk_gundem" "https://www.haberturk.com/rss/gundem.xml"
      "Gundem" "Haberturk";
  feed "cumhuriyet" "https://www.cumhuriyet.com.tr/rss/son_dakika.xml"
      "Gundem" "Cumhuriyet";
  feed "sabah_gundem" "https://www.sabah.com.tr/rss/gundem.xml"
      "Gundem" "Sabah";
  feed "yenisafak_gundem" "https://www.yenisafak.com/rss?xml=gundem"
      "Gundem" "Yeni Safak";
  feed "star_gundem" "https://www.star.com.tr/rss/guncel.xml" "Gundem" "Star";
  feed "t24" "https://t24.com.tr/rss" "Gundem" "T24";
  feed "bianet" "https://bianet.org/rss/bianet" "Gundem" "Bianet";
  (* DUNYA *)
  feed "ntv_dunya" "https://www.ntv.com.tr/dunya.rss" "Dunya" "NTV";
  feed "cnn_dunya" "https://www.cnnturk.com/feed/rss/dunya/news"
      "Dunya" "CNN Turk";
  feed "hurriyet_dunya" "https://www.hurriyet.com.tr/rss/dunya"
      "Dunya" "Hurriyet";
  feed "bbc_turkce" "https://feeds.bbci.co.uk/turkce/rss.xml"
      "Dunya" "BBC Turkce";
  feed "dw_turkce" "https://rss.dw.com/xml/rss-tur-all" "Dunya" "DW Turkce";
  feed "sabah_dunya" "https://www.sabah.com.tr/rss/dunya.xml" "Dunya" "Sabah";
  (* SPOR *)
  feed "cnn_spor" "https://www.cnnturk.com/feed/rss/spor/news"
      "Spor" "CNN Turk";
  feed "hurriyet_spor" "https://www.hurriyet.com.tr/rss/spor"
      "Spor" "Hurriyet";
  feed "sabah_spor" "https://www.sabah.com.tr/rss/spor.xml" "Spor" "Sabah";
  (* TEKNOLOJI *)
  feed "webtekno" "https://www.webtekno.com/rss.xml" "Teknoloji" "Webtekno";
  feed "shiftdelete" "https://shiftdelete.net/feed" "Teknoloji" "ShiftDelete";
  feed "chip" "https://www.chip.com.tr/rss" "Teknoloji" "Chip Online";
  feed "ntv_teknoloji" "https://www.ntv.com.tr/teknoloji.rss"
      "Teknoloji" "NTV";
  feed "technopat" "https://www.technopat.net/feed/" "Teknoloji" "Technopat";
  (* SAGLIK *)
  feed "ntv_saglik" "https://www.ntv.com.tr/saglik.rss" "Saglik" "NTV";
  feed "sabah_saglik" "https://www.sabah.com.tr/rss/saglik.xml"
      "Saglik" "Sabah";
  (* MAGAZIN *)
  feed "hurriyet_magazin" "https://www.hurriyet.com.tr/rss/magazin"
      "Magazin" "Hurriyet";
  feed "sozcu_magazin" "https://www.sozcu.com.tr/feeds-rss-category-magazin"
      "Magazin" "Sozcu";
  feed "ntv_yasam" "https://www.ntv.com.tr/yasam.rss" "Magazin" "NTV";
  feed "sabah_magazin" "https://www.sabah.com.tr/rss/magazin.xml"
      "Magazin" "Sabah";
  (* SON DAKIKA *)
  feed "cnn_sondakika" "https://www.cnnturk.com/feed/rss/all/news"
      "Son Dakika" "CNN Turk";
  feed "ntv_sondakika" "https://www.ntv.com.tr/son-dakika.rss"
      "Son Dakika" "NTV";
  feed "sabah_sondakika" "https://www.sabah.com.tr/rss/sondakika.xml"
      "Son Dakika" "Sabah"
].

Definition syn (key : string) (values : list string)
  : jsstring * list jsstring := (js key, map js values).

(** [this.synonyms], in the order of its keys. *)
Definition synonyms : list (jsstring * list jsstring) := [
  syn "dolar" ["usd"; "amerikan dolari"; "dolarin"; "dolarda"];
  syn "euro" ["eur"; "avro"; "euronun"];
  syn "enflasyon" ["tufe"; "tuik"];
  syn "faiz" ["politika faizi"; "tcmb faizi"];
  syn "borsa" ["bist"; "bist100"; "borsa istanbul"];
  syn "altin" ["ons"; "gram altin"; "ceyrek altin"];
  syn "merkez bankasi" ["tcmb"; "mb"];
  syn "kripto" ["bitcoin"; "btc"; "ethereum"; "eth"];
  syn "petrol" ["brent"; "varil"];
  syn "fenerbahce" ["fener"; "fb"; "sari lacivert"];
  syn "galatasaray" ["gs"; "cimbom"; "sari kirmizi"];
  syn "besiktas" ["bjk"; "kartal"];
  syn "trabzonspor" ["ts"; "bordo mavi"];
  syn "yapay zeka" ["ai"; "chatgpt"; "gpt"]
]%string.

(** [this.spamKeywords]. *)
Definition spamKeywords : list jsstring :=
  map js ["casino"; "bahis"; "kumar"; "sex"; "porno"; "xxx"]%string.

Definition getSynonyms : JsHost -> jsstring -> list jsstring :=
  getSynonymsOf synonyms.

(** The suffixes of [matchesKeyword]. *)
Definition suffixes : list jsstring :=
  map js [""; "in"; "un"; "a"; "e"; "i"; "da"; "de"; "dan"; "den"; "la"; "le";
          "lar"; "ler"]%string.

(** [matchesKeyword(text, keyword)] (lines 135-152). The two loops return
    [true] at the first suffixed form whose pattern is found. *)
Definition matchesKeyword (h : JsHost) (text keyword : jsstring) : bool :=
  if negb (truthy text) || negb (truthy keyword) then false
  else
    let normalizedText := normalizeText h text in
    let synonyms := getSynonyms h keyword in
    existsb (fun syn =>
      existsb (fun suffix =>
        let pattern := syn ++ suffix in
        test (canonicalize h) normalizedText (wordPattern pattern))
        suffixes)
      synonyms.

(** [countKeywordOccurrences(text, keyword)] (lines 154-168). *)
Definition countKeywordOccurrences (h : JsHost) (text keyword : jsstring) : nat :=
  if negb (truthy text) || negb (truthy keyword) then O
  else
    let normalizedText := normalizeText h text in
    let synonyms := getSynonyms h keyword in
    fold_left (fun count syn =>
                 (count + length (matchAll (canonicalize h) normalizedText
                                           (inflectedPattern syn)))%nat)
              synonyms O.

(** [isValidNews(item)] (lines 174-186). *)
Definition isValidNews (h : JsHost) (item : FeedItem.t) : bool :=
  let title := normalizeText h (or_empty (FeedItem.title item)) in
  let content :=
    normalizeText h
      (or_empty (or_else (FeedItem.contentSnippet item) (FeedItem.content item))) in
  let combined := title ++ js " " ++ content in
  if existsb (fun spam => includes combined spam) spamKeywords then false
  else if (length title <? 15)%nat then false
  else true.

(** [fixUrl(url, feedUrl)] (lines 188-198). *)
Definition fixUrl (w : World) (url : option jsstring) (feedUrl : jsstring)
  : option jsstring :=
  match url with
  | None => None
  | Some u =>
      if negb (truthy u) then None
      else if startsWith u (js "http://") || startsWith u (js "https://")
      then Some u
      else match hrefOf w u feedUrl with
           | Some href => Some href
           | None => Some u
           end
  end.

(** A value used as a condition: [null], [undefined] and [''] are falsy. *)
Definition present (v : option jsstring) : option jsstring :=
  match v with
  | Some s => if truthy s then Some s else None
  | None => None
  end.

(** [extractImageUrl(item)] (lines 200-215). *)
Definition extractImageUrl (w : World) (item : FeedItem.t) : option jsstring :=
  match present (FeedItem.mediaUrl item) with
  | Some u => Some u
  | None =>
  match present (FeedItem.thumbnailUrl item) with
  | Some u => Some u
  | None =>
  match present (FeedItem.enclosureUrl item) with
  | Some u => Some u
  | None =>
      let content :=
        or_empty (or_else (FeedItem.contentEncoded item) (FeedItem.content item)) in
      present (imgSrcOf w content)
  end end end.

(** [item.pubDate ? new Date(item.pubDate) : new Date()]. *)
Definition publishedAtOf (w : World) (feedUrl : jsstring) (i : nat)
  (item : FeedItem.t) : option Z :=
  match present (FeedItem.pubDate item) with
  | Some d => dateTime w d
  | None => Some (clockAtEntry w feedUrl i)
  end.

Definition googleNewsUrl (w : World) (term : jsstring) : jsstring :=
  js "https://news.google.com/rss/search?q=" ++ encodeURIComponent w term
  ++ js "&hl=tr&gl=TR&ceid=TR:tr".

(** The body of the inner loop of [searchGoogleNews] (lines 262-282) for
    entry number [i] of the feed of one search term. *)
Definition googleEntry (w : World) (h : JsHost) (feedUrl : jsstring) (i : nat)
  (item : FeedItem.t) : list NewsItem.t :=
  let title := or_empty (FeedItem.title item) in
  let description :=
    or_empty (or_else (FeedItem.contentSnippet item) (FeedItem.content item)) in
  if negb (isValidNews h
             (FeedItem.mk (Some title) (Some description) None None None None
                          None None None None))
  then []
  else
    let titleParts := splitBy title (js " - ") in
    let source :=
      if (1 <? length titleParts)%nat then trim (List.last titleParts [])
      else js "Google News" in
    let cleaned := trim (join (js " - ") (dropLast titleParts)) in
    [ {| NewsItem.title := if truthy cleaned then cleaned else title;
         NewsItem.description := trim (substring0 500 description);
         NewsItem.url := FeedItem.link item;
         NewsItem.imageUrl := extractImageUrl w item;
         NewsItem.publishedAt := publishedAtOf w feedUrl i item;
         NewsItem.source := source;
         NewsItem.category := js "Google News";
         NewsItem.feedKey := js "google_news" |} ].

Fixpoint googleEntries (w : World) (h : JsHost) (feedUrl : jsstring) (i : nat)
  (items : list FeedItem.t) : list NewsItem.t :=
  match items with
  | [] => []
  | item :: rest =>
      googleEntry w h feedUrl i item ++ googleEntries w h feedUrl (S i) rest
  end.

(** [searchGoogleNews(keyword)] (lines 250-296). *)
Definition searchGoogleNews (w : World) (h : JsHost) (keyword : jsstring)
  : list NewsItem.t :=
  let synonyms := getSynonyms h keyword in
  let searchTerms := firstn 3 synonyms in
  let results :=
    flat_map (fun term =>
                let url := googleNewsUrl w term in
                match parseURL w url with
                | Some items => googleEntries w h url O (firstn 15 items)
                | None => []
                end)
             searchTerms in
  uniqueByUrl NewsItem.url ∅ results.

(** The object [scrapeFromFeed] pushes for entry number [i] of the feed
    (lines 307-308 and 316-336). *)
Definition newsItemOf (w : World) (feedKey : jsstring) (feedInfo : FeedInfo.t)
  (i : nat) (item : FeedItem.t) : NewsItem.t :=
  let title := or_empty (FeedItem.title item) in
  let description :=
    or_empty (or_else (or_else (FeedItem.contentSnippet item)
                               (FeedItem.content item))
                      (FeedItem.summary item)) in
  let imageUrl := extractImageUrl w item in
  let itemUrl := fixUrl w (FeedItem.link item) (FeedInfo.url feedInfo) in
  let imageUrl :=
    match imageUrl, present itemUrl with
    | None, Some u => articleImage w u
    | _, _ => imageUrl
    end in
  {| NewsItem.title := trim title;
     NewsItem.description := trim (substring0 500 description);
     NewsItem.url := itemUrl;
     NewsItem.imageUrl := imageUrl;
     NewsItem.publishedAt := publishedAtOf w (FeedInfo.url feedInfo) i item;
     NewsItem.source := FeedInfo.source feedInfo;
     NewsItem.category := FeedInfo.category feedInfo;
     NewsItem.feedKey := feedKey |}.

(** The loop of [scrapeFromFeed] (lines 304-337) from entry number [i]
    on. [keyword] is [None] when the caller passes [null]. *)
Fixpoint scrapeItems (w : World) (h : JsHost) (feedKey : jsstring)
  (feedInfo : FeedInfo.t) (keyword : option jsstring) (i : nat)
  (items : list FeedItem.t) : list NewsItem.t :=
  match items with
  | [] => []
  | item :: rest =>
      let continue := scrapeItems w h feedKey feedInfo keyword (S i) rest in
      if negb (isValidNews h item) then continue
      else
        let title := or_empty (FeedItem.title item) in
        let description :=
          or_empty (or_else (or_else (FeedItem.contentSnippet item)
                                     (FeedItem.content item))
                            (FeedItem.summary item)) in
        let skipped :=
          match present keyword with
          | Some kw =>
              let titleMatch := matchesKeyword h title kw in
              let descCount := countKeywordOccurrences h description kw in
              negb titleMatch && (descCount <? 2)%nat
          | None => false
          end in
        if skipped then continue
        else newsItemOf w feedKey feedInfo i item :: continue
  end.

(** [scrapeFromFeed(feedKey, feedInfo, keyword)] (lines 298-341): a feed
    that cannot be fetched or parsed yields no item. *)
Definition scrapeFromFeed (w : World) (h : JsHost) (feedKey : jsstring)
  (feedInfo : FeedInfo.t) (keyword : option jsstring) : list NewsItem.t :=
  match parseURL w (FeedInfo.url feedInfo) with
  | Some items => scrapeItems w h feedKey feedInfo keyword O items
  | None => []
  end.

(** The options of [liveSearch] after destructuring. *)
Record Options : Type := {
  category : option jsstring;
  limit : nat;
  maxSources : nat;
  includeGoogleNews : bool
}.

Definition defaultOptions : Options :=
  {| category := None; limit := 100; maxSources := 25;
     includeGoogleNews := true |}.

(** The feeds [liveSearch] visits (lines 368-370). *)
Definition selectFeeds (w : World) (options : Options)
  : list (jsstring * FeedInfo.t) :=
  let feeds := rssFeeds in
  let feeds :=
    match present (category options) with
    | Some c => List.filter (fun '(_, info) => str_eqb (FeedInfo.category info) c) feeds
    | None => feeds
    end in
  firstn (maxSources options) (shuffleBy (shuffleSeed w) feeds).

(** The loop over chunks of five feeds (lines 372-378). *)
Fixpoint gatherChunks (w : World) (h : JsHost) (keyword : jsstring)
  (limit : nat) (fuel : nat) (feeds : list (jsstring * FeedInfo.t))
  (allResults : list NewsItem.t) : list NewsItem.t :=
  match fuel, feeds with
  | S fuel', _ :: _ =>
      let chunk := firstn 5 feeds in
      let results :=
        flat_map (fun '(key, info) => scrapeFromFeed w h key info (Some keyword))
                 chunk in
      let allResults := allResults ++ results in
      if (limit <=? length allResults)%nat then allResults
      else gatherChunks w h keyword limit fuel' (skipn 5 feeds) allResults
  | _, _ => allResults
  end.

(** What the registry contributes to [allResults]. *)
Definition feedResults (w : World) (h : JsHost) (keyword : jsstring)
  (options : Options) : list NewsItem.t :=
  let feeds := selectFeeds w options in
  gatherChunks w h keyword (limit options) (length feeds) feeds [].

(** What the Google News channel contributes (lines 366 and 380-385). *)
Definition googleResults (w : World) (h : JsHost) (keyword : jsstring)
  (options : Options) : list NewsItem.t :=
  if includeGoogleNews options then searchGoogleNews w h keyword else [].

Definition allResults (w : World) (h : JsHost) (keyword : jsstring)
  (options : Options) : list NewsItem.t :=
  feedResults w h keyword options ++ googleResults w h keyword options.

(** [(Date.now() - new Date(item.publishedAt).getTime()) / (1000 * 60 * 60)]. *)
Definition hoursDiff (now publishedAt : Z) : Q :=
  Qmake (now - publishedAt) (1000 * 60 * 60).

(** The callback of [allResults.map] (lines 387-399), with the clock
    reading [now]. A comparison with NaN (an invalid date) is false. *)
Definition scoreItem (h : JsHost) (keyword : jsstring) (now : Z)
  (item : NewsItem.t) : ScoredItem.t :=
  let score := 0%Z in
  let score :=
    (score + Z.of_nat (countKeywordOccurrences h (NewsItem.title item) keyword) * 10)%Z in
  let score :=
    (score + Z.of_nat (countKeywordOccurrences h (NewsItem.description item) keyword) * 2)%Z in
  let score :=
    if str_eqb (NewsItem.category item) (js "Google News") then (score + 5)%Z
    else score in
  let score :=
    match NewsItem.publishedAt item with
    | Some t =>
        let hoursDiff := hoursDiff now t in
        if Qltb hoursDiff 1 then (score + 20)%Z
        else if Qltb hoursDiff 6 then (score + 10)%Z
        else if Qltb hoursDiff 24 then (score + 5)%Z
        else score
    | None => score
    end in
  {| ScoredItem.item := item; ScoredItem.relevanceScore := score |}.

Fixpoint scoreFrom (w : World) (h : JsHost) (keyword : jsstring) (i : nat)
  (items : list NewsItem.t) : list ScoredItem.t :=
  match items with
  | [] => []
  | item :: rest =>
      scoreItem h keyword (clockAtScore w i) item
        :: scoreFrom w h keyword (S i) rest
  end.

(** [scored]: the results with their scores, in the order of [allResults]. *)
Definition scoreAll (w : World) (h : JsHost) (keyword : jsstring)
  (items : list NewsItem.t) : list ScoredItem.t :=
  scoreFrom w h keyword O items.

(** The comparator [(a, b) => b.relevanceScore - a.relevanceScore]. *)
Definition byScoreDesc (a b : ScoredItem.t) : Z :=
  (ScoredItem.relevanceScore b - ScoredItem.relevanceScore a)%Z.

(** Lines 401-411: sort, drop the repeated URLs, cut at [limit]. *)
Definition rankAndDedupe (limit : nat) (scored : list ScoredItem.t)
  : list ScoredItem.t :=
  let sorted := sortBy byScoreDesc scored in
  let unique := uniqueByUrl ScoredItem.url ∅ sorted in
  firstn limit unique.

Definition keywordTooShort : JsError :=
  Error (js "Arama kelimesi en az 2 karakter olmalidir").

(** [liveSearch(keyword, options)] (lines 357-412): the error thrown, or
    the list returned. *)
Definition liveSearch (w : World) (h : JsHost) (keyword : jsstring)
  (options : Options) : JsError + list ScoredItem.t :=
  if negb (truthy keyword) || (length keyword <? 2)%nat
  then inl keywordTooShort
  else
    let scored := scoreAll w h keyword (allResults w h keyword options) in
    inr (rankAndDedupe (limit options) scored).

(** The comparator [(a, b) => b.publishedAt - a.publishedAt] as the sort
    reads it: a difference that is NaN (an invalid date) counts as 0. *)
Definition byDateDesc (a b : NewsItem.t) : Z :=
  match NewsItem.publishedAt b, NewsItem.publishedAt a with
  | Some tb, Some ta => (tb - ta)%Z
  | _, _ => 0%Z
  end.

(** The loop of [scrapeByCategory] over chunks of five feeds
    (lines 347-352). *)
Fixpoint collectChunks (w : World) (h : JsHost) (keyword : option jsstring)
  (fuel : nat) (feeds : list (jsstring * FeedInfo.t))
  (allResults : list NewsItem.t) : list NewsItem.t :=
  match fuel, feeds with
  | S fuel', _ :: _ =>
      let chunk := firstn 5 feeds in
      let results :=
        flat_map (fun '(key, info) => scrapeFromFeed w h key info keyword)
                 chunk in
      collectChunks w h keyword fuel' (skipn 5 feeds) (allResults ++ results)
  | _, _ => allResults
  end.

(** [scrapeByCategory(category, keyword, limit)] (lines 343-355). *)
Definition scrapeByCategory (w : World) (h : JsHost) (category : jsstring)
  (keyword : option jsstring) (limit : nat) : list NewsItem.t :=
  let categoryFeeds :=
    List.filter (fun '(_, info) => str_eqb (FeedInfo.category info) category)
                rssFeeds in
  let allResults :=
    collectChunks w h keyword (length categoryFeeds) categoryFeeds [] in
  firstn limit (sortBy byDateDesc allResults).

(** The object handed to [progressCallback]. *)
Record Progress : Type := {
  current : nat;
  total : nat;
  progressFeedKey : jsstring;
  found : nat
}.

(** The loop of [scrapeAllStaggered] (lines 419-427). A callback answers
    [true] when it returns and [false] when it throws; the loop gives back
    [allResults] and the objects the callback was called with. *)
Fixpoint staggeredLoop (w : World) (h : JsHost)
  (progressCallback : option (Progress -> bool)) (total : nat)
  (feeds : list (jsstring * FeedInfo.t)) (allResults : list NewsItem.t)
  (processed : nat) : list NewsItem.t * list Progress :=
  match feeds with
  | [] => (allResults, [])
  | (feedKey, feedInfo) :: rest =>
      let results := scrapeFromFeed w h feedKey feedInfo None in
      let allResults := allResults ++ results in
      let processed := S processed in
      match progressCallback with
      | Some callback =>
          let progress :=
            {| current := processed; total := total;
               progressFeedKey := feedKey; found := length results |} in
          let processed := if callback progress then processed else S processed in
          let '(final, calls) :=
            staggeredLoop w h progressCallback total rest allResults processed in
          (final, progress :: calls)
      | None => staggeredLoop w h progressCallback total rest allResults processed
      end
  end.

(** [scrapeAllStaggered(progressCallback)] (lines 414-435): the list it
    returns, and the calls it makes to the callback. *)
Definition scrapeAllStaggered (w : World) (h : JsHost)
  (progressCallback : option (Progress -> bool)) : list NewsItem.t :=
  let allFeeds := rssFeeds in
  let allResults :=
    fst (staggeredLoop w h progressCallback (length allFeeds) allFeeds [] O) in
  uniqueByUrl NewsItem.url ∅ allResults.

Definition progressCalls (w : World) (h : JsHost)
  (progressCallback : option (Progress -> bool)) : list Progress :=
  snd (staggeredLoop w h progressCallback (length rssFeeds) rssFeeds [] O).

(** [getCategories()] (lines 437-441), over a registry. *)
Definition getCategoriesOf (feeds : list (jsstring * FeedInfo.t))
  : list jsstring :=
  let categories :=
    uniqStrings [] (map (fun '(_, info) => FeedInfo.category info) feeds) in
  sortBy compareUnits categories.

Definition getCategories : list jsstring := getCategoriesOf rssFeeds.

(** The object [getSourceStats] returns. *)
Record SourceStats : Type := {
  stats_total : nat;
  byCategory : gmap jsstring nat;
  bySource : gmap jsstring nat
}.

(** [stats[key] = (stats[key] || 0) + 1]. *)
Definition bump (key : jsstring) (counts : gmap jsstring nat)
  : gmap jsstring nat :=
  <[key := (default O (counts !! key) + 1)%nat]> counts.

(** [getSourceStats()] (lines 443-450), over a registry. *)
Definition getSourceStatsOf (feeds : list (jsstring * FeedInfo.t))
  : SourceStats :=
  fold_left (fun stats '(_, info) =>
               {| stats_total := stats_total stats;
                  byCategory := bump (FeedInfo.category info) (byCategory stats);
                  bySource := bump (FeedInfo.source info) (bySource stats) |})
            feeds
            {| stats_total := length feeds; byCategory := ∅; bySource := ∅ |}.

Definition getSourceStats : SourceStats := getSourceStatsOf rssFeeds.

End RSSNewsScraper.

(** ** The second copy of [RSSNewsScraper] ([src/routes/index.js], lines 27-587)

    The repository holds a second copy of the class. It has the same feed
    registry, a shorter synonym table, a classifier ([detectCategory]), a
    longer validator, and a Google News channel whose items get the
    category the classifier detects. The methods below are the ones that
    differ from the first copy. *)

Module RSSNewsScraper2.

(** [this.synonyms] (lines 112-117). *)
Definition synonyms : list (jsstring * list jsstring) := [
  RSSNewsScraper.syn "dolar" ["usd"; "amerikan dolari"; "dolarin"; "dolarda"];
  RSSNewsScraper.syn "euro" ["eur"; "avro"; "euronun"];
  RSSNewsScraper.syn "enflasyon" ["tufe"; "tuik"];
  RSSNewsScraper.syn "faiz" ["politika faizi"; "tcmb faizi"]
]%string.

Definition cat (category : string) (keywords : list string)
  : jsstring * list jsstring := (js category, map js keywords).

(** [this.categoryKeywords] (lines 120-129), in the order of its keys. *)
Definition categoryKeywords : list (jsstring * list jsstring) := [
  cat "Ekonomi"
    ["dolar"; "euro"; "borsa"; "hisse"; "faiz"; "enflasyon"; "tcmb";
     "merkez bankası"; "kur"; "altın"; "bitcoin"; "kripto"; "bist";
     "ekonomi"; "finans"; "yatırım"; "piyasa"; "ihracat"; "ithalat";
     "büyüme"; "gsyh"; "işsizlik"; "bütçe"; "vergi"; "fiyat"];
  cat "Spor"
    ["galatasaray"; "fenerbahçe"; "beşiktaş"; "trabzonspor"; "süper lig";
     "maç"; "gol"; "futbol"; "basketbol"; "voleybol"; "şampiyonlar ligi";
     "uefa"; "fifa"; "milli takım"; "transfer"; "teknik direktör"; "spor";
     "stadyum"; "derbi"];
  cat "Teknoloji"
    ["iphone"; "android"; "samsung"; "apple"; "google"; "yapay zeka"; "ai";
     "robot"; "yazılım"; "uygulama"; "sosyal medya"; "twitter"; "instagram";
     "facebook"; "teknoloji"; "bilgisayar"; "telefon"; "internet"; "5g";
     "siber"];
  cat "Sağlık"
    ["sağlık"; "hastane"; "doktor"; "ilaç"; "tedavi"; "hastalık"; "covid";
     "grip"; "aşı"; "kanser"; "ameliyat"; "tıp"; "hasta"];
  cat "Magazin"
    ["ünlü"; "oyuncu"; "şarkıcı"; "dizi"; "film"; "konser"; "düğün";
     "boşanma"; "magazin"; "yıldız"; "sanatçı"; "moda"; "güzellik"];
  cat "Dünya"
    ["abd"; "amerika"; "rusya"; "çin"; "avrupa"; "almanya"; "fransa";
     "ingiltere"; "savaş"; "nato"; "bm"; "birleşmiş milletler";
     "uluslararası"; "dünya"; "yurtdışı"];
  cat "Gündem"
    ["tbmm"; "meclis"; "bakan"; "cumhurbaşkanı"; "erdoğan"; "hükümet";
     "muhalefet"; "seçim"; "oy"; "parti"; "siyaset"; "yasa"; "kanun"];
  cat "Son Dakika"
    ["son dakika"; "flaş"; "acil"; "breaking"]
]%string.

(** [this.spamKeywords] (line 131). *)
Definition spamKeywords : list jsstring :=
  map js ["casino"; "bahis"; "kumar"; "sex"; "porno"; "xxx"]%string.

(** [this.invalidPatterns] (lines 134-181). *)
Definition invalidPatterns : list jsstring := map js [
  (* Footer/Copyright metinleri *)
  "tüm hakları saklıdır";
  "all rights reserved";
  "copyright";
  "© 20";
  "gizlilik politikası";
  "kullanım koşulları";
  "çerez politikası";
  "kvkk";
  "kişisel verilerin korunması";
  "iletişim formu";
  "bize ulaşın";
  "reklam ver";
  "künye";
  "hakkımızda";
  "site haritası";
  "abone ol";
  "bülten";
  "newsletter";
  "üye girişi";
  "kayıt ol";
  "şifremi unuttum";
  (* Menü/Navigasyon *)
  "ana sayfa";
  "anasayfa";
  "kategoriler";
  "etiketler";
  "arşiv";
  "son haberler";
  "popüler haberler";
  "en çok okunanlar";
  (* Reklam/Promosyon *)
  "reklam alanı";
  "sponsorlu içerik";
  "advertorial";
  (* Sosyal medya *)
  "bizi takip edin";
  "sosyal medya";
  "facebook'ta paylaş";
  "twitter'da paylaş";
  (* Boş/Anlamsız içerik *)
  "devamını oku";
  "daha fazla";
  "tıklayın";
  "click here";
  "read more"
]%string.

(** The points one keyword adds to its category (lines 204-211). *)
Definition keywordPoints (h : JsHost) (text title keyword : jsstring) : Z :=
  if includes text (toLowerCase h keyword) then
    if includes (normalizeText h title) (toLowerCase h keyword) then 3%Z
    else 1%Z
  else 0%Z.

(** [scores[category]] after the inner loop (lines 202-212). *)
Definition categoryScore (h : JsHost) (text title : jsstring)
  (keywords : list jsstring) : Z :=
  fold_left (fun score keyword => (score + keywordPoints h text title keyword)%Z)
            keywords 0%Z.

(** The object [scores] after the first loop, in the order of its keys. *)
Definition scoresOf (h : JsHost) (title description : jsstring)
  : list (jsstring * Z) :=
  let text := normalizeText h (title ++ js " " ++ description) in
  map (fun '(category, keywords) => (category, categoryScore h text title keywords))
      categoryKeywords.

(** The second loop (lines 216-224): [(maxScore, bestCategory)]. *)
Definition pickBest (scores : list (jsstring * Z)) : Z * jsstring :=
  fold_left (fun '(maxScore, bestCategory) '(category, score) =>
               if (maxScore <? score)%Z then (score, category)
               else (maxScore, bestCategory))
            scores (0%Z, js "Genel").

(** [detectCategory(title, description)] (lines 196-228). *)
Definition detectCategory (h : JsHost) (title description : jsstring) : jsstring :=
  let '(maxScore, bestCategory) := pickBest (scoresOf h title description) in
  if (2 <=? maxScore)%Z then bestCategory else js "Genel".

Definition getSynonyms : JsHost -> jsstring -> list jsstring :=
  getSynonymsOf synonyms.

Definition months : list jsstring :=
  map js ["ocak"; "şubat"; "mart"; "nisan"; "mayıs"; "haziran"; "temmuz";
          "ağustos"; "eylül"; "ekim"; "kasım"; "aralık"]%string.

(** The alternatives of a group, in order. *)
Fixpoint alternatives (l : list jsstring) : regex :=
  match l with
  | [] => RChars []
  | [s] => RChars s
  | s :: r => RAlt (RChars s) (alternatives r)
  end.

(** [dateOnlyRegex] (line 312): a day, a Turkish month name and a year,
    and nothing else. *)
Definition dateOnlyRegex : regex :=
  RSeq RStart
  (RSeq (RRepeat 1 (Some 2%nat) (RClass isDigit))
  (RSeq (RRepeat 1 None (RClass isWhiteSpace))
  (RSeq (alternatives months)
  (RSeq (RRepeat 1 None (RClass isWhiteSpace))
  (RSeq (RRepeat 4 (Some 4%nat) (RClass isDigit))
        REnd))))).

(** The characters the class of line 320 lets through besides [\w] and
    [\s]. *)
Definition allowedPunctuation : jsstring :=
  js "ğüşıöçĞÜŞİÖÇ.,!?:;'()-" ++ [34].

Definition isSpecialChar (c : N) : bool :=
  negb (isWordChar c || isWhiteSpace c || existsb (N.eqb c) allowedPunctuation).

Definition sourceOnlyPatterns : list jsstring :=
  map js ["ntv"; "cnn türk"; "hürriyet"; "sözcü"; "sabah"; "habertürk"]%string.

(** [isValidNews(item)] (lines 283-324). *)
Definition isValidNews (h : JsHost) (item : FeedItem.t) : bool :=
  let title := normalizeText h (or_empty (FeedItem.title item)) in
  let content :=
    normalizeText h
      (or_empty (or_else (FeedItem.contentSnippet item) (FeedItem.content item))) in
  let combined := title ++ js " " ++ content in
  if existsb (fun spam => includes combined spam) spamKeywords then false
  else if (length title <? 15)%nat then false
  else if (300 <? length title)%nat then false
  else if existsb (fun pattern => includes title pattern) invalidPatterns then false
  else if startsWith title (js "http") || startsWith title (js "www.") then false
  else if test (canonicalize h) title dateOnlyRegex then false
  else if existsb (fun s => str_eqb title s) sourceOnlyPatterns then false
  else
    let specialCharCount := length (matchAll (fun c => c) title (RClass isSpecialChar)) in
    if Qltb (inject_Z (Z.of_nat (length title)) * (3 # 10))
            (inject_Z (Z.of_nat specialCharCount))
    then false
    else true.

(** The body of the inner loop of [searchGoogleNews] (lines 382-412). *)
Definition googleEntry (w : World) (h : JsHost) (feedUrl : jsstring) (i : nat)
  (item : FeedItem.t) : list NewsItem.t :=
  let title := or_empty (FeedItem.title item) in
  let description :=
    or_empty (or_else (FeedItem.contentSnippet item) (FeedItem.content item)) in
  if negb (isValidNews h
             (FeedItem.mk (Some title) (Some description) None None None None
                          None None None None))
  then []
  else
    let titleParts := splitBy title (js " - ") in
    let source :=
      if (1 <? length titleParts)%nat then trim (List.last titleParts [])
      else js "Google News" in
    let articleUrl := FeedItem.link item in
    let imageUrl := RSSNewsScraper.extractImageUrl w item in
    let cleaned := trim (join (js " - ") (dropLast titleParts)) in
    let cleanTitle := if truthy cleaned then cleaned else title in
    let detectedCategory := detectCategory h cleanTitle description in
    [ {| NewsItem.title := cleanTitle;
         NewsItem.description := trim (substring0 500 description);
         NewsItem.url := articleUrl;
         NewsItem.imageUrl := imageUrl;
         NewsItem.publishedAt := RSSNewsScraper.publishedAtOf w feedUrl i item;
         NewsItem.source := source;
         NewsItem.category := detectedCategory;
         NewsItem.feedKey := js "google_news" |} ].

Fixpoint googleEntries (w : World) (h : JsHost) (feedUrl : jsstring) (i : nat)
  (items : list FeedItem.t) : list NewsItem.t :=
  match items with
  | [] => []
  | item :: rest =>
      googleEntry w h feedUrl i item ++ googleEntries w h feedUrl (S i) rest
  end.

(** [searchGoogleNews(keyword)] (lines 370-426). *)
Definition searchGoogleNews (w : World) (h : JsHost) (keyword : jsstring)
  : list NewsItem.t :=
  let synonyms := getSynonyms h keyword in
  let searchTerms := firstn 3 synonyms in
  let results :=
    flat_map (fun term =>
                let url := RSSNewsScraper.googleNewsUrl w term in
                match parseURL w url with
                | Some items => googleEntries w h url O (firstn 15 items)
                | None => []
                end)
             searchTerms in
  uniqueByUrl NewsItem.url ∅ results.

End RSSNewsScraper2.

(** ** [BloombergScraper.detectCategory] ([src/unnamed/part_000], lines 672-695)

    The classifier of the browser-driven scraper of one site: another
    method of the same name, with its own dictionary. *)

Module BloombergScraper.

(** The local [categoryKeywords] (lines 676-682), in the order of its keys. *)
Definition categoryKeywords : list (jsstring * list jsstring) := [
  RSSNewsScraper2.cat "finans"
    ["borsa"; "hisse"; "bist"; "dolar"; "euro"; "altın"; "faiz";
     "merkez bankası"; "enflasyon"; "tcmb"];
  RSSNewsScraper2.cat "teknoloji"
    ["teknoloji"; "yazılım"; "apple"; "google"; "microsoft"; "startup";
     "uygulama"; "yapay zeka"; "ai"];
  RSSNewsScraper2.cat "ekonomi"
    ["ekonomi"; "büyüme"; "gdp"; "ihracat"; "ithalat"; "sanayi"; "üretim"];
  RSSNewsScraper2.cat "politika"
    ["politika"; "hükümet"; "meclis"; "cumhurbaşkanı"; "seçim"; "parti"];
  RSSNewsScraper2.cat "spor"
    ["spor"; "futbol"; "basketbol"; "şampiyon"; "maç"; "lig"]
]%string.

(** [this.defaultCategory], set by the constructor (line 376). *)
Definition defaultCategory : jsstring := js "finans".

(** [detectCategory(title, summary)]: the first category one of whose
    keywords the text holds. *)
Definition detectCategory (h : JsHost) (title summary : jsstring) : jsstring :=
  let text := toLowerCase h (title ++ js " " ++ summary) in
  match List.find (fun '(_, keywords) =>
                     existsb (fun keyword => includes text keyword) keywords)
                  categoryKeywords with
  | Some (category, _) => category
  | None => defaultCategory
  end.

End BloombergScraper.

(** ** [ScraperService.saveNews] ([src/services/ScraperService.js], lines 170-245) *)

Module ScraperService.

(** The fields [saveNews] reads from an item of [newsArray]. A field the
    item does not have is [None]; the [url] is a string. *)
Record NewsInput : Type := {
  title : option jsstring;
  summary : option jsstring;
  url : jsstring;
  imageUrl : option jsstring;
  category : option jsstring;
  source : option jsstring;
  keywords : option (list jsstring);
  publishedAt : option Z;
  scrapedAt : option Z
}.

(** The operand of [$set]. *)
Record SetFields : Type := {
  set_title : option jsstring;
  set_summary : option jsstring;
  set_url : jsstring;
  set_imageUrl : option jsstring;
  set_category : option jsstring;
  set_source : option jsstring;
  set_keywords : option (list jsstring);
  set_publishedAt : option Z;
  set_scrapedAt : Z;
  set_isActive : bool
}.

(** The update document: [{ $set: {...}, $setOnInsert: { createdAt } }]. *)
Record Update : Type := {
  set : SetFields;
  setOnInsert_createdAt : Z
}.

(** What [updateOne] resolves to, and the error it rejects with. *)
Record UpdateResult : Type := { upsertedCount : nat }.

Record MongoError : Type := {
  code : option Z;
  message : jsstring
}.

(** The persistence handle [News.updateOne(filter, update, { upsert: true })]
    with the filter [{ url }], over a store of any kind: it answers with a
    result or an error, and leaves a store behind. *)
Definition Handle (Store : Type) : Type :=
  Store -> jsstring -> Update -> (MongoError + UpdateResult) * Store.

(** [result]. An entry of [errors] is [{ url, error: error.message }]. *)
Record Result : Type := {
  saved : nat;
  duplicates : nat;
  errors : list (jsstring * jsstring)
}.

Definition emptyResult : Result :=
  {| saved := 0; duplicates := 0; errors := [] |}.

(** The update document built for one item (lines 196-213). [clock k] is
    the [k]-th [new Date()] evaluated for this item. *)
Definition updateFor (clock : nat -> Z) (newsItem : NewsInput) : Update :=
  {| set :=
       {| set_title := title newsItem;
          set_summary := summary newsItem;
          set_url := url newsItem;
          set_imageUrl := imageUrl newsItem;
          set_category := category newsItem;
          set_source := source newsItem;
          set_keywords := keywords newsItem;
          set_publishedAt := publishedAt newsItem;
          set_scrapedAt :=
            match scrapedAt newsItem with
            | Some t => t
            | None => clock O
            end;
          set_isActive := true |};
     setOnInsert_createdAt := clock 1%nat |}.

(** One turn of the loop (lines 184-239): the [try] block and its
    [catch]. *)
Definition saveOne {Store : Type} (updateOne : Handle Store)
  (clock : nat -> Z) (result : Result) (db : Store) (newsItem : NewsInput)
  : Result * Store :=
  match updateOne db (url newsItem) (updateFor clock newsItem) with
  | (inr updateResult, db') =>
      if (0 <? upsertedCount updateResult)%nat
      then ({| saved := S (saved result); duplicates := duplicates result;
               errors := errors result |}, db')
      else ({| saved := saved result; duplicates := S (duplicates result);
               errors := errors result |}, db')
  | (inl error, db') =>
      if bool_decide (code error = Some 11000%Z)
      then ({| saved := saved result; duplicates := S (duplicates result);
               errors := errors result |}, db')
      else ({| saved := saved result; duplicates := duplicates result;
               errors := errors result ++ [(url newsItem, message error)] |},
            db')
  end.

(** The loop from item number [i] on; [clock i] is the clock while item
    [i] is processed. *)
Fixpoint saveLoop {Store : Type} (updateOne : Handle Store)
  (clock : nat -> nat -> Z) (i : nat) (newsArray : list NewsInput)
  (result : Result) (db : Store) : Result * Store :=
  match newsArray with
  | [] => (result, db)
  | newsItem :: rest =>
      let '(result', db') := saveOne updateOne (clock i) result db newsItem in
      saveLoop updateOne clock (S i) rest result' db'
  end.

(** [saveNews(newsArray)]. *)
Definition saveNews {Store : Type} (updateOne : Handle Store)
  (clock : nat -> nat -> Z) (newsArray : list NewsInput) (db : Store)
  : Result * Store :=
  match newsArray with
  | [] => (emptyResult, db)
  | _ => saveLoop updateOne clock O newsArray emptyResult db
  end.

(** A stored record of the [News] collection: the fields [saveNews]
    writes, and [updatedAt], which the schema's option [timestamps: true]
    ([src/unnamed/part_004], line 191) has the model layer write at every
    update. *)
Record NewsDoc : Type := {
  doc_title : option jsstring;
  doc_summary : option jsstring;
  doc_url : jsstring;
  doc_imageUrl : option jsstring;
  doc_category : option jsstring;
  doc_source : option jsstring;
  doc_keywords : option (list jsstring);
  doc_publishedAt : option Z;
  doc_scrapedAt : Z;
  doc_isActive : bool;
  doc_createdAt : Z;
  doc_updatedAt : Z
}.

(** The document an update leaves when it matched [old] ([Some]) or
    inserted ([None]), at the instant [now] of the model layer: [$set]
    writes its fields, [$setOnInsert] only those of a new document, and
    [updatedAt] becomes [now]. *)
Definition applyUpdate (now : Z) (u : Update) (old : option NewsDoc) : NewsDoc :=
  {| doc_title := set_title (set u);
     doc_summary := set_summary (set u);
     doc_url := set_url (set u);
     doc_imageUrl := set_imageUrl (set u);
     doc_category := set_category (set u);
     doc_source := set_source (set u);
     doc_keywords := set_keywords (set u);
     doc_publishedAt := set_publishedAt (set u);
     doc_scrapedAt := set_scrapedAt (set u);
     doc_isActive := set_isActive (set u);
     doc_createdAt :=
       match old with
       | Some doc => doc_createdAt doc
       | None => setOnInsert_createdAt u
       end;
     doc_updatedAt := now |}.

(** The collection: its records, keyed by the unique field [url], and the
    number of updates it has served. *)
Record Collection : Type := {
  docs : gmap jsstring NewsDoc;
  served : nat
}.

Definition emptyCollection : Collection := {| docs := ∅; served := O |}.

(** The upsert of the database on the collection: update the record the
    filter finds, insert one when it finds none. [timestamp k] is the
    instant the model layer reads for update number [k]. *)
Definition upsert (timestamp : nat -> Z) : Handle Collection :=
  fun db url u =>
    let now := timestamp (served db) in
    match docs db !! url with
    | Some doc =>
        (inr {| upsertedCount := 0 |},
         {| docs := <[url := applyUpdate now u (Some doc)]> (docs db);
            served := S (served db) |})
    | None =>
        (inr {| upsertedCount := 1 |},
         {| docs := <[url := applyUpdate now u None]> (docs db);
            served := S (served db) |})
    end.



(** *** The other methods of the service *)

(** The fields [saveNews] finds on an item of [RSSNewsScraper]: such an
    item has no [summary], [keywords] or [scrapedAt]. The [url] is read
    as it is written by the methods that drop the items without one. *)
Definition inputOf (item : NewsItem.t) : NewsInput :=
  {| title := Some (NewsItem.title item);
     summary := None;
     url := or_empty (NewsItem.url item);
     imageUrl := NewsItem.imageUrl item;
     category := Some (NewsItem.category item);
     source := Some (NewsItem.source item);
     keywords := None;
     publishedAt := NewsItem.publishedAt item;
     scrapedAt := None |}.

(** The state of the singleton: [isRunning] and [stats]. *)
Record Service : Type := {
  isRunning : bool;
  lastRun : option Z;
  totalScraped : nat;
  totalSaved : nat
}.

(** The constructor. *)
Definition newService : Service :=
  {| isRunning := false; lastRun := None; totalScraped := 0; totalSaved := 0 |}.

(** What [scrapeAll] and [scrapeWithKeyword] return: the refusal
    [{ success: false, message: 'Scraping zaten devam ediyor' }], or
    [results]; an entry of [errors] is [{ general: error.message }]. *)
Inductive ScrapeReport : Type :=
| AlreadyRunning
| Report (success : bool) (totalNews savedNews duplicateNews : nat)
         (generalErrors : list jsstring) (duration : Z).

(** The instants a run reads: [Date.now()] on entry and in [finally],
    [new Date()] for [lastRun], and the clock of [saveNews]. *)
Record RunClock : Type := {
  startTime : Z;
  endTime : Z;
  finishedAt : Z;
  saveClock : nat -> nat -> Z
}.

(** The callback [scrapeAll] hands to [scrapeAllStaggered]: it logs every
    tenth feed and returns. *)
Definition progressLogger (progress : RSSNewsScraper.Progress) : bool := true.

(** The [finally] block (lines 103-111 and 539-545). *)
Definition finishRun (clock : RunClock) (service : Service)
  (totalNews savedNews : nat) : Service :=
  {| isRunning := false;
     lastRun := Some (finishedAt clock);
     totalScraped := (totalScraped service + totalNews)%nat;
     totalSaved := (totalSaved service + savedNews)%nat |}.

(** [scrapeAll(options)] (lines 50-125). Neither [scrapeAllStaggered] nor
    [saveNews] throws, so the [catch] block is not entered. *)
Definition scrapeAll {Store : Type} (updateOne : Handle Store) (w : World)
  (h : JsHost) (clock : RunClock) (service : Service) (db : Store)
  : ScrapeReport * Service * Store :=
  if isRunning service then (AlreadyRunning, service, db)
  else
    let news :=
      RSSNewsScraper.scrapeAllStaggered w h (Some progressLogger) in
    let '(totalNews, savedNews, duplicateNews, db') :=
      if (0 <? length news)%nat then
        let '(saveResult, db') :=
          saveNews updateOne (saveClock clock) (map inputOf news) db in
        (length news, saved saveResult, duplicates saveResult, db')
      else (O, O, O, db) in
    (Report true totalNews savedNews duplicateNews []
            (endTime clock - startTime clock)%Z,
     finishRun clock service totalNews savedNews, db').

(** [scrapeWithKeyword(keyword)] (lines 489-554). The class in
    [RSSNewsScraper.js] has no method [searchByKeyword], so the call at
    line 521 throws a TypeError, whose message [notAFunction] is the
    engine's; the [catch] block records it. *)
Definition scrapeWithKeyword {Store : Type} (notAFunction : jsstring)
  (keyword : jsstring) (clock : RunClock) (service : Service) (db : Store)
  : ScrapeReport * Service * Store :=
  if isRunning service then (AlreadyRunning, service, db)
  else
    (Report false O O O [notAFunction] (endTime clock - startTime clock)%Z,
     finishRun clock service O O, db).

(** A request of [POST /scrape] without a [source]: the two methods the
    route calls on the singleton. *)
Inductive Request : Type :=
| ScrapeAll (w : World) (clock : RunClock)
| ScrapeWithKeyword (keyword : jsstring) (clock : RunClock).

(** Requests served one after the other. *)
Fixpoint serve {Store : Type} (updateOne : Handle Store) (h : JsHost)
  (notAFunction : jsstring) (requests : list Request) (service : Service)
  (db : Store) : list ScrapeReport * Service * Store :=
  match requests with
  | [] => ([], service, db)
  | request :: rest =>
      let '(report, service', db') :=
        match request with
        | ScrapeAll w clock => scrapeAll updateOne w h clock service db
        | ScrapeWithKeyword keyword clock =>
            scrapeWithKeyword notAFunction keyword clock service db
        end in
      let '(reports, service'', db'') :=
        serve updateOne h notAFunction rest service' db' in
      (report :: reports, service'', db'')
  end.

(** What [liveSearch] and [liveCategory] of the service return. *)
Record LiveResult (A : Type) : Type := {
  live_success : bool;
  live_news : list A;
  live_count : nat;
  live_duration : option Z;
  live_error : option jsstring
}.
Arguments live_success {A}.
Arguments live_news {A}.
Arguments live_count {A}.
Arguments live_duration {A}.
Arguments live_error {A}.

(** [liveSearch(keyword)] (lines 389-429): the scraper is called with its
    default options, and what it throws becomes a result. *)
Definition liveSearch (w : World) (h : JsHost) (keyword : jsstring)
  (startTime endTime : Z) : LiveResult ScoredItem.t :=
  match RSSNewsScraper.liveSearch w h keyword RSSNewsScraper.defaultOptions with
  | inr news =>
      {| live_success := true; live_news := news; live_count := length news;
         live_duration := Some (endTime - startTime)%Z; live_error := None |}
  | inl (Error message) =>
      {| live_success := false; live_news := []; live_count := O;
         live_duration := None; live_error := Some message |}
  end.

(** [liveCategory(category)] (lines 438-478): [scrapeByCategory] with its
    defaults, no keyword and a limit of 50. *)
Definition liveCategory (w : World) (h : JsHost) (category : jsstring)
  (startTime endTime : Z) : LiveResult NewsItem.t :=
  let news := RSSNewsScraper.scrapeByCategory w h category None 50 in
  {| live_success := true; live_news := news; live_count := length news;
     live_duration := Some (endTime - startTime)%Z; live_error := None |}.

(** The [pagination] object of [searchNews] (lines 300 and 318-325), for
    a [page] and a [limit] that are integers and a count [total]. [None]
    stands for the [Infinity] or [NaN] of a division by zero. *)
Record Pagination : Type := {
  page : Z;
  pageLimit : Z;
  total : Z;
  pages : option Z;
  hasNext : bool;
  hasPrev : bool
}.

Definition skipOf (page limit : Z) : Z := ((page - 1) * limit)%Z.

Definition paginationOf (page limit total : Z) : Pagination :=
  {| page := page;
     pageLimit := limit;
     total := total;
     pages := if (limit =? 0)%Z then None
              else Some (Qceiling (Qmake total 1 / inject_Z limit));
     hasNext := (page * limit <? total)%Z;
     hasPrev := (1 <? page)%Z |}.

End ScraperService.

(** ** The helpers of [utils] ([src/services/ScraperService.js], lines 592-936) *)

Module Utils.

(** [s.replace(/pattern/g, replacement)] for a pattern that is a fixed,
    non-empty string: the occurrences are replaced from the left, and the
    search goes on after each. *)
Fixpoint replaceAll_go (pattern replacement : jsstring) (skip : nat)
  (s : jsstring) : jsstring :=
  match s with
  | [] => []
  | c :: r =>
      match skip with
      | S k => replaceAll_go pattern replacement k r
      | O =>
          if startsWith s pattern
          then replacement
               ++ replaceAll_go pattern replacement (Nat.pred (length pattern)) r
          else c :: replaceAll_go pattern replacement O r
      end
  end.

Definition replaceAll (pattern replacement s : jsstring) : jsstring :=
  replaceAll_go pattern replacement O s.

(** [s.replace(/\s+/g, ' ')]: every run of white space becomes one
    space. [inRun] tells that the run was already replaced. *)
Fixpoint collapse_go (inRun : bool) (s : jsstring) : jsstring :=
  match s with
  | [] => []
  | c :: r =>
      if isWhiteSpace c
      then (if inRun then collapse_go true r else 32 :: collapse_go true r)
      else c :: collapse_go false r
  end.

Definition collapseWhiteSpace (s : jsstring) : jsstring := collapse_go false s.

(** [cleanText(text)] (lines 743-758). *)
Definition cleanText (text : option jsstring) : jsstring :=
  match text with
  | None => []
  | Some text =>
      if negb (truthy text) then []
      else
        let text := replaceAll (js "&amp;") (js "&") text in
        let text := replaceAll (js "&lt;") (js "<") text in
        let text := replaceAll (js "&gt;") (js ">") text in
        let text := replaceAll (js "&quot;") [34] text in
        let text := replaceAll (js "&#39;") (js "'") text in
        let text := replaceAll (js "&nbsp;") (js " ") text in
        trim (collapseWhiteSpace text)
  end.

(** [baseUrl.replace(/\/$/, '')]: a slash at the very end is dropped. *)
Definition dropTrailingSlash (s : jsstring) : jsstring :=
  match rev s with
  | 47 :: r => rev r
  | _ => s
  end.

(** [normalizeUrl(url, baseUrl)] (lines 770-791). *)
Definition normalizeUrl (url : option jsstring) (baseUrl : jsstring) : jsstring :=
  match url with
  | None => []
  | Some url =>
      if negb (truthy url) then []
      else if startsWith url (js "http://") || startsWith url (js "https://")
      then url
      else if startsWith url (js "//") then js "https:" ++ url
      else
        let base := dropTrailingSlash baseUrl in
        if startsWith url (js "/") then base ++ url
        else base ++ js "/" ++ url
  end.

(** A run of [retry]: what it returns or throws ([None] is [undefined]),
    how often it called [fn], and how long it waited after each failure
    that was not the last one allowed. *)
Record RetryRun (A E : Type) : Type := {
  outcome : option E + A;
  calls : nat;
  delays : list nat
}.
Arguments outcome {A E}.
Arguments calls {A E}.
Arguments delays {A E}.

(** The loop of [retry] (lines 870-881) from attempt number [attempt] on,
    with [fuel] attempts left up to [maxRetries]. [fn k] is what call
    number [k] of the function does: it returns ([inr]) or throws
    ([inl]). *)
Fixpoint retryFrom {A E : Type} (fn : nat -> E + A) (maxRetries delayMs : nat)
  (fuel attempt : nat) (lastError : option E) : RetryRun A E :=
  match fuel with
  | O => {| outcome := inl lastError; calls := O; delays := [] |}
  | S fuel' =>
      match fn attempt with
      | inr value => {| outcome := inr value; calls := 1; delays := [] |}
      | inl error =>
          let rest :=
            retryFrom fn maxRetries delayMs fuel' (S attempt) (Some error) in
          {| outcome := outcome rest;
             calls := S (calls rest);
             delays := if (attempt <? maxRetries)%nat
                       then (delayMs * attempt)%nat :: delays rest
                       else delays rest |}
      end
  end.

(** [retry(fn, maxRetries, delayMs)] (lines 867-884). *)
Definition retry {A E : Type} (fn : nat -> E + A) (maxRetries delayMs : nat)
  : RetryRun A E :=
  retryFrom fn maxRetries delayMs maxRetries 1 None.

(** The fields [validateNewsData] reads. [publishedAt] is [None] when it
    is missing, and a date, valid or not, otherwise. *)
Record NewsData : Type := {
  title : option jsstring;
  url : option jsstring;
  publishedAt : option (option Z);
  source : option jsstring
}.

(** [.] of a regular expression: any code unit but a line terminator. *)
Definition isLineTerminator (c : N) : bool :=
  (c =? 10) || (c =? 13) || (c =? 8232) || (c =? 8233).

(** [/^https?:\/\/.+/]. *)
Definition urlFormat : regex :=
  RSeq RStart
    (RSeq (RChars (js "http"))
       (RSeq (RRepeat O (Some 1%nat) (RChars (js "s")))
          (RSeq (RChars (js "://"))
                (RRepeat 1 None (RClass (fun c => negb (isLineTerminator c))))))).

Inductive ValidationError : Type :=
| EmptyTitle       (* 'Başlık (title) boş olamaz' *)
| EmptyUrl         (* 'URL boş olamaz' *)
| NoPublishedAt    (* 'Yayınlanma tarihi (publishedAt) boş olamaz' *)
| NoSource         (* 'Kaynak (source) belirtilmeli' *)
| BadUrlFormat.    (* 'URL geçerli bir format değil' *)

(** [!value || value.trim() === '']. *)
Definition blank (value : option jsstring) : bool :=
  match value with
  | None => true
  | Some s => negb (truthy s) || negb (truthy (trim s))
  end.

(** [validateNewsData(newsData)] (lines 894-923): [isValid] and
    [errors]. *)
Definition validateNewsData (newsData : NewsData) : bool * list ValidationError :=
  let errors := [] in
  let errors := if blank (title newsData) then errors ++ [EmptyTitle] else errors in
  let errors := if blank (url newsData) then errors ++ [EmptyUrl] else errors in
  let errors :=
    match publishedAt newsData with
    | None => errors ++ [NoPublishedAt]
    | Some _ => errors
    end in
  let errors :=
    match source newsData with
    | Some s => if truthy s then errors else errors ++ [NoSource]
    | None => errors ++ [NoSource]
    end in
  let errors :=
    match url newsData with
    | Some u =>
        if truthy u && negb (test (fun c => c) u urlFormat)
        then errors ++ [BadUrlFormat]
        else errors
    | None => errors
    end in
  (Nat.eqb (length errors) O, errors).

End Utils.

(** ** Notions used to state the properties *)

(** The entry's url is the string [u]. *)
Definition urlIs {A : Type} (url : A -> option jsstring) (u : jsstring)
  (x : A) : bool :=
  match url x with
  | Some v => str_eqb v u
  | None => false
  end.

(** The entries of a ranked list whose url is [u]. *)
Definition withUrl (u : jsstring) (l : list ScoredItem.t) : list ScoredItem.t :=
  List.filter (urlIs ScoredItem.url u) l.

(** A feed entry with a title, a summary, a link and nothing else. *)
Definition entry (title snippet : string) (link : option string) : FeedItem.t :=
  FeedItem.mk (Some (js title)) (Some (js snippet)) None None
              (option_map js link) None None None None None.

(** A world for the examples: one feed of the registry answers with
    [items], every other request fails; relative links do not resolve; no
    entry carries a date, the entries are fetched at instant [1000] and
    scored at instant [2000] (milliseconds); the random source leaves the
    registry in its order. *)
Definition worldWith (feedUrl : string) (items : list FeedItem.t) : World :=
  {| parseURL := fun u => if str_eqb u (js feedUrl) then Some items else None;
     hrefOf := fun _ _ => None;
     encodeURIComponent := fun s => s;
     dateTime := fun _ => None;
     clockAtEntry := fun _ _ => 1000%Z;
     clockAtScore := fun _ => 2000%Z;
     shuffleSeed := [];
     imgSrcOf := fun _ => None;
     articleImage := fun _ => None |}.

(** Three entries of one feed: the last two carry the same link. *)
Definition dollarFeed : list FeedItem.t := [
  entry "Dolar haftaya rekorla basladi, dolar kuru zirvede" ""
        (Some "https://example.com/a");
  entry "Dolar kurunda son durum ne oldu" ""
        (Some "https://example.com/b");
  entry "Piyasalarda gun sonu degerlendirmesi"
        "dolar yukseldi, dolar rekor kirdi"
        (Some "https://example.com/b")
]%string.

(** Two entries without a link. *)
Definition linklessFeed : list FeedItem.t := [
  entry "Dolar haftaya rekorla basladi, dolar kuru zirvede" "" None;
  entry "Dolar kurunda son durum ne oldu" "" None
]%string.

Definition ntvEkonomi : string := "https://www.ntv.com.tr/ekonomi.rss".

Definition feedsOnly (limit : nat) : RSSNewsScraper.Options :=
  {| RSSNewsScraper.category := None;
     RSSNewsScraper.limit := limit;
     RSSNewsScraper.maxSources := 25;
     RSSNewsScraper.includeGoogleNews := false |}.

(** The string [p] stands in [text] as a whole word, up to the case
    folding [canon]: at some position the code units of [text] fold to
    those of [p], with a word boundary before and after. *)
Definition occursAsWord (canon : N -> N) (text p : jsstring) : Prop :=
  exists i : nat,
    atWordBoundary text i = true
    /\ map canon (firstn (length p) (skipn i text)) = map canon p
    /\ atWordBoundary text (i + length p) = true.

(** The recency bonus in the words of the specification, for an item of
    the given age in milliseconds ([None]: the item has no valid date). *)
Definition specRecencyBonus (age : option Z) : Z :=
  match age with
  | Some a =>
      if (a <? 1 * 3600000)%Z then 20%Z
      else if (a <? 6 * 3600000)%Z then 10%Z
      else if (a <? 24 * 3600000)%Z then 5%Z
      else 0%Z
  | None => 0%Z
  end.

(** The relevance score in the words of the specification. *)
Definition specScore (h : JsHost) (keyword : jsstring) (fromGoogleNews : bool)
  (age : option Z) (item : NewsItem.t) : Z :=
  (10 * Z.of_nat (RSSNewsScraper.countKeywordOccurrences
                    h (NewsItem.title item) keyword)
   + 2 * Z.of_nat (RSSNewsScraper.countKeywordOccurrences
                     h (NewsItem.description item) keyword)
   + (if fromGoogleNews then 5 else 0)
   + specRecencyBonus age)%Z.

(** The age of an item at the instant [now]. *)
Definition ageAt (now : Z) (item : NewsItem.t) : option Z :=
  option_map (fun t => (now - t)%Z) (NewsItem.publishedAt item).

(** The specification's scores of the results from position [i] on, when
    the first [nFeeds] results come from the registry and the rest from
    the Google News channel. *)
Fixpoint specScoresFrom (w : World) (h : JsHost) (keyword : jsstring)
  (nFeeds : nat) (i : nat) (items : list NewsItem.t) : list Z :=
  match items with
  | [] => []
  | item :: rest =>
      specScore h keyword (nFeeds <=? i)%nat (ageAt (clockAtScore w i) item) item
        :: specScoresFrom w h keyword nFeeds (S i) rest
  end.

(** [a] may stand before [b] in a list sorted by descending score. *)
Definition scoreGe (a b : ScoredItem.t) : Prop :=
  (ScoredItem.relevanceScore b <= ScoredItem.relevanceScore a)%Z.

(** The sum of a list of points. *)
Definition sumZ (l : list Z) : Z := fold_right Z.add 0%Z l.

(** The title and the description the feed fetcher reads from an entry. *)
Definition entryTitle (item : FeedItem.t) : jsstring :=
  or_empty (FeedItem.title item).

Definition entryDescription (item : FeedItem.t) : jsstring :=
  or_empty (or_else (or_else (FeedItem.contentSnippet item)
                             (FeedItem.content item))
                    (FeedItem.summary item)).

(** An entry is kept, in the words of the specification: it passes the
    validator and, when a keyword is supplied, the keyword matches its
    title or occurs at least twice in its description. *)
Definition keptEntry (h : JsHost) (keyword : option jsstring)
  (item : FeedItem.t) : bool :=
  RSSNewsScraper.isValidNews h item
  && match RSSNewsScraper.present keyword with
     | Some kw =>
         RSSNewsScraper.matchesKeyword h (entryTitle item) kw
         || (2 <=? RSSNewsScraper.countKeywordOccurrences
                     h (entryDescription item) kw)%nat
     | None => true
     end.

(** The items of the kept entries, from entry number [i] on. *)
Fixpoint keptFrom (w : World) (h : JsHost) (feedKey : jsstring)
  (feedInfo : FeedInfo.t) (keyword : option jsstring) (i : nat)
  (items : list FeedItem.t) : list NewsItem.t :=
  match items with
  | [] => []
  | item :: rest =>
      (if keptEntry h keyword item
       then [RSSNewsScraper.newsItemOf w feedKey feedInfo i item]
       else [])
      ++ keptFrom w h feedKey feedInfo keyword (S i) rest
  end.

(** The title the validator looks at: lower-cased and trimmed. *)
Definition normalizedTitle (h : JsHost) (item : FeedItem.t) : jsstring :=
  normalizeText h (or_empty (FeedItem.title item)).

(** The text the spam check looks at. *)
Definition combinedText (h : JsHost) (item : FeedItem.t) : jsstring :=
  normalizedTitle h item ++ js " "
  ++ normalizeText h (or_empty (or_else (FeedItem.contentSnippet item)
                                        (FeedItem.content item))).

(** The items of the examples of the validator. *)
Definition footerItem : FeedItem.t :=
  entry "Tüm hakları saklıdır © 2024" "Haber portalı" None.

Definition centralBankItem : FeedItem.t :=
  entry "Merkez Bankası faiz kararını açıkladı"
        "Piyasalar kararı bekliyordu" None.

Definition footerInDescriptionItem : FeedItem.t :=
  entry "Merkez Bankası faiz kararını açıkladı"
        "Tüm hakları saklıdır. Devamını oku" None.

(** An entry whose title is the letter [a] written [n] times. *)
Definition titleOfLength (n : nat) : FeedItem.t :=
  FeedItem.mk (Some (repeat 97 n)) (Some (js "Piyasalar kararı bekliyordu"))
              None None None None None None None None.

(** What one turn of the loop of [saveNews] counts: a new record, a
    duplicate, or a failure kept with the item's url and the message. *)
Inductive Outcome : Type :=
| Inserted
| Duplicate
| Failed (url message : jsstring).

(** The outcome for an item, from the answer of the persistence handle: a
    unique-key violation (code 11000) is a duplicate. *)
Definition classify (url : jsstring)
  (answer : ScraperService.MongoError + ScraperService.UpdateResult) : Outcome :=
  match answer with
  | inr updateResult =>
      if (0 <? ScraperService.upsertedCount updateResult)%nat then Inserted
      else Duplicate
  | inl error =>
      if bool_decide (ScraperService.code error = Some 11000%Z) then Duplicate
      else Failed url (ScraperService.message error)
  end.

(** The outcomes of the items in turn, each against the store the turns
    before it left. *)
Fixpoint outcomes {Store : Type} (updateOne : ScraperService.Handle Store)
  (clock : nat -> nat -> Z) (i : nat) (newsArray : list ScraperService.NewsInput)
  (db : Store) : list Outcome :=
  match newsArray with
  | [] => []
  | newsItem :: rest =>
      let '(answer, db') :=
        updateOne db (ScraperService.url newsItem)
                  (ScraperService.updateFor (clock i) newsItem) in
      classify (ScraperService.url newsItem) answer
        :: outcomes updateOne clock (S i) rest db'
  end.

Definition isInserted (o : Outcome) : bool :=
  match o with Inserted => true | _ => false end.

Definition isDuplicate (o : Outcome) : bool :=
  match o with Duplicate => true | _ => false end.

Definition failureOf (o : Outcome) : list (jsstring * jsstring) :=
  match o with Failed url message => [(url, message)] | _ => [] end.




(** Four entries for the keyword filter: a title match, two occurrences
    in the description, one occurrence in the description, and a title
    the validator refuses. *)
Definition filterFeed : list FeedItem.t := [
  entry "Dolar kurunda son durum ne oldu" "" (Some "https://example.com/1");
  entry "Piyasalarda gun sonu degerlendirmesi"
        "dolar yukseldi, dolar rekor kirdi" (Some "https://example.com/2");
  entry "Piyasalarda gun sonu degerlendirmesi"
        "dolar yukseldi" (Some "https://example.com/3");
  entry "Dolar" "dolar dolar dolar" (Some "https://example.com/4")
]%string.

(** An item for [saveNews] with a url and a title. *)
Definition newsInput (url title : string) : ScraperService.NewsInput :=
  {| ScraperService.title := Some (js title);
     ScraperService.summary := None;
     ScraperService.url := js url;
     ScraperService.imageUrl := None;
     ScraperService.category := Some (js "Ekonomi");
     ScraperService.source := Some (js "NTV");
     ScraperService.keywords := None;
     ScraperService.publishedAt := Some 1000%Z;
     ScraperService.scrapedAt := None |}.


(** A handle without a store that answers by the url: an insert, a
    match, a unique-key violation, and a validation failure. *)
Definition scriptedHandle : ScraperService.Handle unit :=
  fun db url _ =>
    if str_eqb url (js "https://example.com/new")
    then (inr {| ScraperService.upsertedCount := 1 |}, db)
    else if str_eqb url (js "https://example.com/old")
    then (inr {| ScraperService.upsertedCount := 0 |}, db)
    else if str_eqb url (js "https://example.com/race")
    then (inl {| ScraperService.code := Some 11000%Z;
                 ScraperService.message := js "E11000 duplicate key error" |}, db)
    else (inl {| ScraperService.code := None;
                 ScraperService.message := js "Validation failed" |}, db).

Definition scriptedNews : list ScraperService.NewsInput := [
  newsInput "https://example.com/new" "Dolar haftaya rekorla basladi";
  newsInput "https://example.com/bad" "Borsa gunu yukselisle kapatti";
  newsInput "https://example.com/race" "Altin fiyatlari yeniden yukseliste";
  newsInput "https://example.com/old" "Merkez Bankasi faiz kararini acikladi"
]%string.

(** The length of the longest run of code units of a class at the head of
    a string, and in [input] from position [i] on. *)
Fixpoint runFrom (member : N -> bool) (s : jsstring) : nat :=
  match s with
  | c :: rest => if member c then S (runFrom member rest) else O
  | [] => O
  end.

Definition runLength (member : N -> bool) (input : jsstring) (i : nat) : nat :=
  runFrom member (skipn i input).

(** The ends [i + n], ..., [i] offered to a continuation, longest first. *)
Fixpoint longestFirst (k : nat -> option nat) (i n : nat) : option nat :=
  match n with
  | O => k i
  | S m =>
      match longestFirst k (S i) m with
      | Some e => Some e
      | None => k i
      end
  end.

(** Where an occurrence of [syn] with its trailing word characters ends,
    when one begins at [i]. *)
Definition inflectedAt (canon : N -> N) (input syn : jsstring) (i : nat)
  : option nat :=
  if atWordBoundary input i then
    match matchChars canon input syn i with
    | Some j =>
        let e := (j + runLength isWordChar input j)%nat in
        if atWordBoundary input e then Some e else None
    | None => None
    end
  else None.

(** A continuation called from position [i] answers [e] at a position not
    before [i], and inside the input when [i] is. *)
Definition reaches (input : jsstring) (i : nat) (k : nat -> option nat)
  (e : nat) : Prop :=
  exists j, (i <= j)%nat
            /\ ((i <= length input)%nat -> (j <= length input)%nat)
            /\ k j = Some e.

(** [a] was published no earlier than [b], both with a valid date. *)
Definition newerOrSame (a b : NewsItem.t) : Prop :=
  exists ta tb, NewsItem.publishedAt a = Some ta
                /\ NewsItem.publishedAt b = Some tb /\ (tb <= ta)%Z.

(** The items of the feeds of a list, read without a keyword or with one,
    one feed after the other. *)
Definition scrapeFeeds (w : World) (h : JsHost) (keyword : option jsstring)
  (feeds : list (jsstring * FeedInfo.t)) : list NewsItem.t :=
  flat_map (fun '(key, info) => RSSNewsScraper.scrapeFromFeed w h key info keyword)
           feeds.

(** The report the callback gets for feed number [i] when [processed]
    stood at [n] before it. *)
Definition reportFor (w : World) (h : JsHost) (n : nat)
  (f : jsstring * FeedInfo.t) : RSSNewsScraper.Progress :=
  {| RSSNewsScraper.current := S n;
     RSSNewsScraper.total := length RSSNewsScraper.rssFeeds;
     RSSNewsScraper.progressFeedKey := fst f;
     RSSNewsScraper.found :=
       length (RSSNewsScraper.scrapeFromFeed w h (fst f) (snd f) None) |}.

(** [a] comes strictly before [b] in the order of code units. *)
Definition unitsLt (a b : jsstring) : Prop := (compareUnits a b < 0)%Z.

(** How many feeds of a registry have a property. *)
Definition countFeeds (P : FeedInfo.t -> bool)
  (feeds : list (jsstring * FeedInfo.t)) : nat :=
  length (List.filter (fun f => P (snd f)) feeds).

(** The sum of the counters of an object. *)
Definition sumCounts (counts : gmap jsstring nat) : nat :=
  map_fold (fun _ n total => (n + total)%nat) O counts.

(** What a counter of [getSourceStats] holds for a key that occurs [n]
    times: nothing when it never occurs. *)
Definition counterOf (n : nat) : option nat :=
  match n with O => None | S _ => Some n end.

(** The url begins with [http://] or [https://]. *)
Definition isAbsoluteUrl (s : jsstring) : Prop :=
  startsWith s (js "http://") = true \/ startsWith s (js "https://") = true.

(** The counts a run of the service reports. *)
Definition totalNewsOf (report : ScraperService.ScrapeReport) : nat :=
  match report with
  | ScraperService.Report _ totalNews _ _ _ _ => totalNews
  | ScraperService.AlreadyRunning => O
  end.

Definition savedNewsOf (report : ScraperService.ScrapeReport) : nat :=
  match report with
  | ScraperService.Report _ _ savedNews _ _ _ => savedNews
  | ScraperService.AlreadyRunning => O
  end.

Definition duplicateNewsOf (report : ScraperService.ScrapeReport) : nat :=
  match report with
  | ScraperService.Report _ _ _ duplicateNews _ _ => duplicateNews
  | ScraperService.AlreadyRunning => O
  end.

Definition sumNat (l : list nat) : nat := fold_right Nat.add O l.

(** A function for [retry] that throws [error k] at call [k] until call
    number [first] returns [value]. *)
Definition failsUntil {A E : Type} (first : nat) (error : nat -> E) (value : A)
  (k : nat) : E + A :=
  if (k <? first)%nat then inl (error k) else inr value.

(** The waits [delayMs * 1], ..., [delayMs * n]. *)
Definition backoff (delayMs n : nat) : list nat :=
  map (fun attempt => (delayMs * attempt)%nat) (seq 1 n).

(** A feed entry with a title, a summary, a link and a publication date. *)
Definition datedEntry (title snippet link pubDate : string) : FeedItem.t :=
  FeedItem.mk (Some (js title)) (Some (js snippet)) None None
              (Some (js link)) (Some (js pubDate)) None None None None.

(** The Google News feed for the search term [dolar], when
    [encodeURIComponent] leaves the term as it is. *)
Definition googleDolar : string :=
  "https://news.google.com/rss/search?q=dolar&hl=tr&gl=TR&ceid=TR:tr".

(** A world with one feed of the registry and one Google News feed. The
    items are scored at instant [100000000] (milliseconds); the dates
    [30m], [3h], [12h] and [2d] lie that long before it, and any other
    date is invalid. *)
Definition searchWorld : World :=
  {| parseURL := fun u =>
       if str_eqb u (js ntvEkonomi) then
         Some [ datedEntry "Dolar kurunda son durum ne oldu"
                           "Piyasalar dolar kurunu izliyor"
                           "https://example.com/1" "30m";
                datedEntry "Borsa gunu yukselisle tamamladi bugun"
                           "Dolar ve euro geriledi, dolar talebi azaldi"
                           "https://example.com/2" "3h";
                datedEntry "Dolar icin yeni tahminler aciklandi"
                           "" "https://example.com/3" "2d";
                datedEntry "Dolar haftaya nasil basladi piyasada"
                           "" "https://example.com/4" "gecersiz" ]
       else if str_eqb u (js googleDolar) then
         Some [ datedEntry "Dolar rekor tazeledi bugun - Sozcu"
                           "" "https://news.google.com/articles/1" "12h";
                datedEntry "Dolar kurunda son durum ne oldu - NTV"
                           "" "https://news.google.com/articles/2" "30m" ]
       else None;
     hrefOf := fun _ _ => None;
     encodeURIComponent := fun s => s;
     dateTime := fun d =>
       if str_eqb d (js "30m") then Some (100000000 - 1800000)%Z
       else if str_eqb d (js "3h") then Some (100000000 - 10800000)%Z
       else if str_eqb d (js "12h") then Some (100000000 - 43200000)%Z
       else if str_eqb d (js "2d") then Some (100000000 - 172800000)%Z
       else None;
     clockAtEntry := fun _ _ => 100000000%Z;
     clockAtScore := fun _ => 100000000%Z;
     shuffleSeed := [];
     imgSrcOf := fun _ => None;
     articleImage := fun _ => None |}.

(** What the examples show of a scored item: its url, its category and
    its score. *)
Definition scoreLine (s : ScoredItem.t) : option jsstring * jsstring * Z :=
  (ScoredItem.url s, NewsItem.category (ScoredItem.item s),
   ScoredItem.relevanceScore s).

(** A world in which two feeds of the registry answer: the first one, in
    the first chunk of five, and the sixth one, in the second chunk. *)
Definition twoChunkWorld : World :=
  {| parseURL := fun u =>
       if str_eqb u (js ntvEkonomi) then Some dollarFeed
       else if str_eqb u (js "https://www.sabah.com.tr/rss/ekonomi.xml") then
         Some [entry "Dolar icin yeni tahminler aciklandi" ""
                     (Some "https://example.com/c")]%string
       else None;
     hrefOf := fun _ _ => None;
     encodeURIComponent := fun s => s;
     dateTime := fun _ => None;
     clockAtEntry := fun _ _ => 1000%Z;
     clockAtScore := fun _ => 2000%Z;
     shuffleSeed := [];
     imgSrcOf := fun _ => None;
     articleImage := fun _ => None |}.

(** A run of the service that starts at instant 1000 and ends at 4000. *)
Definition sampleClock : ScraperService.RunClock :=
  {| ScraperService.startTime := 1000%Z;
     ScraperService.endTime := 4000%Z;
     ScraperService.finishedAt := 4000%Z;
     ScraperService.saveClock := fun _ _ => 2000%Z |}.

(** What the examples show of a report to the callback. *)
Definition progressLine (p : RSSNewsScraper.Progress) : nat * nat * nat :=
  (RSSNewsScraper.current p, RSSNewsScraper.total p, RSSNewsScraper.found p).

(** The white space of a string is single spaces, none next to other
    white space on its right. *)
Fixpoint singleSpaced (s : jsstring) : bool :=
  match s with
  | [] => true
  | c :: r =>
      (if isWhiteSpace c
       then (c =? 32)
            && match r with
               | d :: _ => negb (isWhiteSpace d)
               | [] => true
               end
       else true)
      && singleSpaced r
  end.

(** At position [i] of [u] stands a code unit that is no line
    terminator. *)
Definition bodyAt (u : jsstring) (i : nat) : Prop :=
  exists c, nth_error u i = Some c /\ Utils.isLineTerminator c = false.

(** The url is [http://] or [https://] followed by at least one code unit
    that is no line terminator. *)
Definition wellFormedUrl (u : jsstring) : Prop :=
  (startsWith u (js "http://") = true /\ bodyAt u 7)
  \/ (startsWith u (js "https://") = true /\ bodyAt u 8).

(** An item for [validateNewsData]. *)
Definition newsData (title url : option string) (dated : bool)
  (source : option string) : Utils.NewsData :=
  {| Utils.title := option_map js title;
     Utils.url := option_map js url;
     Utils.publishedAt := if dated then Some (Some 1000%Z) else None;
     Utils.source := option_map js source |}.

(** * Facts about the helpers *)

Section StringFacts.

Lemma startsWith_spec (s p : jsstring) :
  startsWith s p = true <-> exists r, s = p ++ r.
Proof.
  revert s. induction p as [|c p IH]; intros s; simpl.
  - split; [intros _; exists s; reflexivity | destruct s; reflexivity].
  - destruct s as [|d s]; simpl.
    + split; [discriminate | intros [r Hr]; discriminate].
    + rewrite andb_true_iff, N.eqb_eq, IH. split.
      * intros [-> [r ->]]. exists r. reflexivity.
      * intros [r Hr]. injection Hr as -> ->. split; [reflexivity | eauto].
Qed.

Lemma includes_spec (s p : jsstring) :
  includes s p = true <-> exists a b, s = a ++ p ++ b.
Proof.
  induction s as [|d s IH]; cbn [includes].
  - rewrite orb_false_r, startsWith_spec. split.
    + intros [r Hr]. exists [], r. exact Hr.
    + intros [a [b Hab]]. destruct a; [exists b; exact Hab |].
      discriminate.
  - rewrite orb_true_iff, startsWith_spec, IH. split.
    + intros [[r Hr] | [a [b Hab]]].
      * exists [], r. exact Hr.
      * exists (d :: a), b. simpl. rewrite Hab. reflexivity.
    + intros [a [b Hab]]. destruct a as [|x a]; simpl in Hab.
      * left. exists b. exact Hab.
      * right. injection Hab as _ Hab. exists a, b. exact Hab.
Qed.

Lemma truthy_true (s : jsstring) : truthy s = true <-> s <> [].
Proof. destruct s; simpl; split; congruence. Qed.

Lemma truthy_length (s : jsstring) : truthy s = false -> length s = O.
Proof. destruct s; simpl; [reflexivity | discriminate]. Qed.

Lemma str_eqb_eq (a b : jsstring) : str_eqb a b = true <-> a = b.
Proof. unfold str_eqb. apply bool_decide_eq_true. Qed.

Lemma str_eqb_neq (a b : jsstring) : str_eqb a b = false <-> a <> b.
Proof. unfold str_eqb. apply bool_decide_eq_false. Qed.

End StringFacts.

Section SortFacts.

Context {A : Type} (compare : A -> A -> Z).

Lemma sortInsert_perm (x : A) (l : list A) :
  Permutation (sortInsert compare x l) (x :: l).
Proof.
  induction l as [|y l IH]; simpl.
  - apply Permutation_refl.
  - destruct (compare y x <? 0)%Z.
    + eapply perm_trans; [apply perm_skip, IH | apply perm_swap].
    + apply Permutation_refl.
Qed.

Lemma sortBy_perm (l : list A) : Permutation (sortBy compare l) l.
Proof.
  induction l as [|x l IH]; simpl.
  - apply perm_nil.
  - eapply perm_trans; [apply sortInsert_perm | apply perm_skip, IH].
Qed.

(** Stability, for a property that the comparator cannot tell apart from
    "equal": inserting [x] moves it only past elements that come strictly
    before it. *)
Lemma sortInsert_filter (P : A -> bool) (x : A) (l : list A) :
  (forall y, (compare y x < 0)%Z -> P x = true -> P y = false) ->
  List.filter P (sortInsert compare x l) = List.filter P (x :: l).
Proof.
  intros Hsep. induction l as [|y l IH]; [reflexivity |].
  cbn [sortInsert]. destruct (compare y x <? 0)%Z eqn:Hc; [| reflexivity].
  apply Z.ltb_lt in Hc. cbn [List.filter] in *. rewrite IH.
  destruct (P x) eqn:Hx; [| reflexivity].
  rewrite (Hsep y Hc eq_refl). reflexivity.
Qed.

Lemma sortBy_filter (P : A -> bool) (l : list A) :
  (forall x y, (compare y x < 0)%Z -> P x = true -> P y = false) ->
  List.filter P (sortBy compare l) = List.filter P l.
Proof.
  intros Hsep. induction l as [|x l IH]; [reflexivity |].
  cbn [sortBy fold_right]. fold (sortBy compare l).
  rewrite sortInsert_filter by (intros y; apply Hsep).
  cbn [List.filter]. rewrite IH. reflexivity.
Qed.

End SortFacts.

Section ScoreOrder.

Import RSSNewsScraper.

Lemma sortInsert_byScore_sorted (x : ScoredItem.t) (l : list ScoredItem.t) :
  StronglySorted scoreGe l ->
  StronglySorted scoreGe (sortInsert byScoreDesc x l).
Proof.
  induction 1 as [|y l Hl IH Hy]; simpl.
  - repeat constructor.
  - destruct (byScoreDesc y x <? 0)%Z eqn:Hc.
    + apply Z.ltb_lt in Hc. unfold byScoreDesc in Hc.
      constructor; [exact IH |].
      eapply Permutation_Forall; [symmetry; apply sortInsert_perm |].
      constructor; [unfold scoreGe; lia | exact Hy].
    + apply Z.ltb_ge in Hc. unfold byScoreDesc in Hc.
      constructor; [constructor; assumption |].
      constructor; [unfold scoreGe; lia |].
      eapply Forall_impl; [exact Hy |].
      unfold scoreGe. intros z Hz. lia.
Qed.

Lemma sortBy_byScore_sorted (l : list ScoredItem.t) :
  StronglySorted scoreGe (sortBy byScoreDesc l).
Proof.
  induction l as [|x l IH]; simpl.
  - constructor.
  - apply sortInsert_byScore_sorted, IH.
Qed.

(** Ties keep their order: the items of any one score stand in the sorted
    list as they stood before. *)
Lemma sortBy_byScore_stable (s : Z) (l : list ScoredItem.t) :
  List.filter (fun a => (ScoredItem.relevanceScore a =? s)%Z) (sortBy byScoreDesc l)
  = List.filter (fun a => (ScoredItem.relevanceScore a =? s)%Z) l.
Proof.
  apply sortBy_filter. intros x y Hlt Hx.
  apply Z.eqb_eq in Hx. apply Z.eqb_neq. unfold byScoreDesc in Hlt. lia.
Qed.

(** Items that share any property keep their relative order whenever the
    sort cannot tell them apart by score. *)
Lemma StronglySorted_filter {B : Type} (R : B -> B -> Prop) (P : B -> bool)
  (l : list B) :
  StronglySorted R l -> StronglySorted R (List.filter P l).
Proof.
  induction 1 as [|y l Hl IH Hy]; simpl; [constructor |].
  destruct (P y); [| exact IH].
  constructor; [exact IH |].
  rewrite List.Forall_forall in *. intros z Hz.
  apply List.filter_In in Hz. apply Hy, Hz.
Qed.

End ScoreOrder.

Section UniqueFacts.

Context {A : Type} (url : A -> option jsstring).

Lemma uniqueByUrl_In (x : A) (l : list A) (seen : gset jsstring) :
  In x (uniqueByUrl url seen l) -> In x l.
Proof.
  revert seen. induction l as [|y l IH]; intros seen; simpl; [tauto |].
  destruct (url y) as [v|]; [| eauto].
  destruct (truthy v && negb (bool_decide (v ∈ seen))); simpl; [| eauto].
  intros [Hxy | H]; [left; exact Hxy | right; eauto].
Qed.

Lemma uniqueByUrl_truthy (x : A) (l : list A) (seen : gset jsstring) :
  In x (uniqueByUrl url seen l) ->
  exists u, url x = Some u /\ truthy u = true.
Proof.
  revert seen. induction l as [|y l IH]; intros seen; simpl; [tauto |].
  destruct (url y) as [v|] eqn:Hv; [| eauto].
  destruct (truthy v) eqn:Ht; simpl; [| eauto].
  destruct (negb (bool_decide (v ∈ seen))); simpl; [| eauto].
  intros [<- | H]; eauto.
Qed.

Lemma uniqueByUrl_filter_seen (u : jsstring) (l : list A) (seen : gset jsstring) :
  u ∈ seen -> List.filter (urlIs url u) (uniqueByUrl url seen l) = [].
Proof.
  revert seen. induction l as [|y l IH]; intros seen Hu; simpl; [reflexivity |].
  destruct (url y) as [v|] eqn:Hv; [| eauto].
  destruct (truthy v && negb (bool_decide (v ∈ seen))) eqn:Hc; [| eauto].
  apply andb_true_iff in Hc as [_ Hc]. apply negb_true_iff in Hc.
  apply bool_decide_eq_false in Hc.
  simpl. unfold urlIs at 1. rewrite Hv.
  destruct (str_eqb v u) eqn:He.
  - apply str_eqb_eq in He. subst v. contradiction.
  - apply IH. set_solver.
Qed.

Lemma uniqueByUrl_filter_falsy (u : jsstring) (l : list A) (seen : gset jsstring) :
  truthy u = false -> List.filter (urlIs url u) (uniqueByUrl url seen l) = [].
Proof.
  intros Hu. destruct (List.filter _ _) as [|x r] eqn:Hf; [reflexivity |].
  assert (Hx : In x (List.filter (urlIs url u) (uniqueByUrl url seen l))).
  { rewrite Hf. left. reflexivity. }
  apply List.filter_In in Hx as [Hx Hux].
  apply uniqueByUrl_truthy in Hx as [v [Hv Ht]].
  unfold urlIs in Hux. rewrite Hv in Hux. apply str_eqb_eq in Hux.
  congruence.
Qed.

(** Of the entries with a given non-empty url that was not seen before,
    the filter keeps the first and only the first. *)
Lemma uniqueByUrl_filter (u : jsstring) (l : list A) (seen : gset jsstring) :
  truthy u = true -> u ∉ seen ->
  List.filter (urlIs url u) (uniqueByUrl url seen l)
  = firstn 1 (List.filter (urlIs url u) l).
Proof.
  intros Ht. revert seen.
  induction l as [|y l IH]; intros seen Hu; simpl; [reflexivity |].
  unfold urlIs at 2. destruct (url y) as [v|] eqn:Hv; [| eauto].
  destruct (str_eqb v u) eqn:He.
  - apply str_eqb_eq in He. subst v. rewrite Ht.
    rewrite (bool_decide_eq_false_2 _ Hu). simpl.
    unfold urlIs at 1. rewrite Hv.
    rewrite (proj2 (str_eqb_eq u u) eq_refl).
    rewrite uniqueByUrl_filter_seen by set_solver. reflexivity.
  - apply str_eqb_neq in He.
    destruct (truthy v && negb (bool_decide (v ∈ seen))); [| eauto].
    simpl. unfold urlIs at 1. rewrite Hv.
    rewrite (proj2 (str_eqb_neq v u) He). apply IH.
    rewrite not_elem_of_union, not_elem_of_singleton. split; congruence.
Qed.

End UniqueFacts.

Section ListFacts.

Context {A : Type}.

Lemma filter_firstn_prefix (P : A -> bool) (n : nat) (l : list A) :
  exists k, List.filter P (firstn n l) = firstn k (List.filter P l).
Proof.
  revert n. induction l as [|x l IH]; intros n.
  - exists O. destruct n; reflexivity.
  - destruct n as [|n]; [exists O; reflexivity |].
    destruct (IH n) as [k Hk]. simpl. destruct (P x).
    + exists (S k). simpl. rewrite Hk. reflexivity.
    + exists k. exact Hk.
Qed.

Lemma In_firstn (n : nat) (x : A) (l : list A) :
  In x (firstn n l) -> In x l.
Proof.
  revert n. induction l as [|y l IH]; intros [|n]; simpl; try tauto.
  intros [H | H]; [left; exact H | right; eapply IH, H].
Qed.

Lemma firstn_singleton_cases (k : nat) (x : A) :
  firstn k [x] = [] \/ firstn k [x] = [x].
Proof. destruct k as [|[|k]]; simpl; auto. Qed.

Lemma insertAt_perm (n : nat) (x : A) (l : list A) :
  Permutation (insertAt n x l) (x :: l).
Proof.
  revert n. induction l as [|y l IH]; intros [|n]; simpl;
    try apply Permutation_refl.
  eapply perm_trans; [apply perm_skip, IH | apply perm_swap].
Qed.

(** Whatever the random source answers, the shuffled list holds the same
    feeds. *)
Lemma shuffleBy_perm (seed : list nat) (l : list A) :
  Permutation (shuffleBy seed l) l.
Proof.
  revert seed. induction l as [|x l IH]; intros seed; simpl.
  - apply perm_nil.
  - destruct seed as [|n seed].
    + apply perm_skip, IH.
    + eapply perm_trans; [apply insertAt_perm | apply perm_skip, IH].
Qed.

End ListFacts.

(** * Ranking and deduplication ([liveSearch], lines 401-411) *)

Section Ranking.

Import RSSNewsScraper.

Lemma withUrl_unique (u : jsstring) (scored : list ScoredItem.t) :
  truthy u = true ->
  withUrl u (uniqueByUrl ScoredItem.url ∅ (sortBy byScoreDesc scored))
  = firstn 1 (withUrl u (sortBy byScoreDesc scored)).
Proof.
  intros Hu. unfold withUrl. apply uniqueByUrl_filter; [exact Hu |].
  apply not_elem_of_empty.
Qed.

(** The first entry with a given url in the sorted list has the highest
    score among the entries with that url. *)
Lemma withUrl_sorted_head (u : jsstring) (scored : list ScoredItem.t)
  (x : ScoredItem.t) (rest : list ScoredItem.t) :
  withUrl u (sortBy byScoreDesc scored) = x :: rest ->
  forall y, In y scored -> urlIs ScoredItem.url u y = true ->
            (ScoredItem.relevanceScore y <= ScoredItem.relevanceScore x)%Z.
Proof.
  intros Hhead y Hy Huy.
  assert (Hin : In y (withUrl u (sortBy byScoreDesc scored))).
  { apply List.filter_In. split; [| exact Huy].
    eapply Permutation_in; [symmetry; apply sortBy_perm | exact Hy]. }
  pose proof (StronglySorted_filter scoreGe (urlIs ScoredItem.url u) _
                (sortBy_byScore_sorted scored)) as Hs.
  fold (withUrl u (sortBy byScoreDesc scored)) in Hs.
  rewrite Hhead in Hs, Hin. inversion Hs as [|? ? _ Hall]; subst.
  destruct Hin as [<- | Hin]; [lia |].
  rewrite List.Forall_forall in Hall. apply Hall, Hin.
Qed.

End Ranking.

(** C1, as amended. [liveSearch] returns the first [limit] entries of the
    list it gets by sorting the scored results by descending score and
    then keeping, in one pass, the first entry of every non-empty url. For
    every url [u]: the returned list holds at most one entry with url
    [u]; such an entry has the highest score among all scored results
    with url [u]; when [u] is non-empty and some result has it, the
    deduplicated list holds exactly one entry for it, which is returned
    whenever the deduplicated list is no longer than [limit]; and no entry
    with an empty or missing url is returned. For the feed [dollarFeed] and
    [limit = 100] two entries are returned, and the one for the repeated
    url is the one of score 30, not the one of score 24. *)
Theorem liveSearch_dedup_keeps_best :
  (forall w h keyword options,
      RSSNewsScraper.liveSearch w h keyword options
      = inl RSSNewsScraper.keywordTooShort
      \/ RSSNewsScraper.liveSearch w h keyword options
         = inr (RSSNewsScraper.rankAndDedupe
                  (RSSNewsScraper.limit options)
                  (RSSNewsScraper.scoreAll w h keyword
                     (RSSNewsScraper.allResults w h keyword options))))
  /\ (forall (limit : nat) (scored : list ScoredItem.t) (u : jsstring),
      let sorted := sortBy RSSNewsScraper.byScoreDesc scored in
      let unique := uniqueByUrl ScoredItem.url ∅ sorted in
      let out := RSSNewsScraper.rankAndDedupe limit scored in
      out = firstn limit unique
      /\ (length (withUrl u out) <= 1)%nat
      /\ (forall x y, In x out -> urlIs ScoredItem.url u x = true ->
                      In y scored -> urlIs ScoredItem.url u y = true ->
                      (ScoredItem.relevanceScore y
                       <= ScoredItem.relevanceScore x)%Z)
      /\ (truthy u = true -> withUrl u scored <> [] ->
          exists x, withUrl u unique = [x]
                    /\ ((length unique <= limit)%nat -> withUrl u out = [x]))
      /\ (truthy u = false -> withUrl u out = [])
      /\ (forall x, In x out ->
                    exists v, ScoredItem.url x = Some v /\ truthy v = true))
  /\ exists x y,
       RSSNewsScraper.liveSearch (worldWith ntvEkonomi dollarFeed) latin
                                 (js "dolar") (feedsOnly 100)
       = inr [x; y]
       /\ withUrl (js "https://example.com/b") [x; y] = [y]
       /\ ScoredItem.relevanceScore y = 30%Z.
Proof.
  split.
  { intros w h keyword options. unfold RSSNewsScraper.liveSearch.
    destruct (negb (truthy keyword) || (length keyword <? 2)%nat); auto. }
  split.
  2:{ match goal with
      | |- exists x y, ?run = _ /\ _ =>
          let v := eval vm_compute in run in
          lazymatch v with
          | inr [?a; ?b] => exists a, b
          end
      end.
      repeat split; vm_compute; reflexivity. }
  intros limit scored u. cbv zeta.
  unfold RSSNewsScraper.rankAndDedupe.
  set (sorted := sortBy RSSNewsScraper.byScoreDesc scored).
  set (unique := uniqueByUrl ScoredItem.url ∅ sorted).
  assert (Hin : forall x, In x (firstn limit unique) -> In x unique).
  { intros x Hx. eapply In_firstn, Hx. }
  assert (Huniq : truthy u = true ->
                  withUrl u unique = firstn 1 (withUrl u sorted)).
  { intros Hu. apply withUrl_unique, Hu. }
  assert (Hfalsy : truthy u = false -> withUrl u unique = []).
  { intros Hu. apply uniqueByUrl_filter_falsy, Hu. }
  destruct (filter_firstn_prefix (urlIs ScoredItem.url u) limit unique)
    as [k Hk].
  fold (withUrl u (firstn limit unique)) in Hk. fold (withUrl u unique) in Hk.
  split; [reflexivity |]. split; [| split; [| split; [| split]]].
  - rewrite Hk. destruct (truthy u) eqn:Hu.
    + rewrite Huniq by reflexivity.
      rewrite length_firstn, length_firstn. lia.
    + rewrite Hfalsy by reflexivity. rewrite firstn_nil. simpl. lia.
  - intros x y Hx Hux Hy Huy.
    pose proof (Hin x Hx) as Hxu.
    destruct (uniqueByUrl_truthy _ _ _ _ Hxu) as [v [Hv Ht]].
    assert (v = u) as ->.
    { unfold urlIs in Hux. rewrite Hv in Hux. apply str_eqb_eq, Hux. }
    assert (Hxw : In x (withUrl u unique)).
    { apply List.filter_In. split; assumption. }
    rewrite Huniq in Hxw by exact Ht.
    destruct (withUrl u sorted) as [|z rest] eqn:Hs; [destruct Hxw |].
    simpl in Hxw. destruct Hxw as [<- | []].
    eapply withUrl_sorted_head; eassumption.
  - intros Hu Hne.
    destruct (withUrl u sorted) as [|x rest] eqn:Hs.
    { exfalso. apply Hne.
      destruct (withUrl u scored) as [|y r] eqn:Hy; [reflexivity |].
      assert (Hyin : In y (withUrl u sorted)).
      { apply List.filter_In.
        assert (Hy' : In y (withUrl u scored)) by (rewrite Hy; left; reflexivity).
        apply List.filter_In in Hy' as [Hy1 Hy2]. split; [| exact Hy2].
        eapply Permutation_in; [symmetry; apply sortBy_perm | exact Hy1]. }
      rewrite Hs in Hyin. destruct Hyin. }
    exists x. rewrite Huniq by exact Hu. split; [reflexivity |].
    intros Hlen. rewrite firstn_all2 by exact Hlen.
    rewrite Huniq by exact Hu. reflexivity.
  - intros Hu. rewrite Hk, Hfalsy by exact Hu. apply firstn_nil.
  - intros x Hx. eapply uniqueByUrl_truthy, Hin, Hx.
Qed.

(** C1, as stated, fails. With [limit = 1] the feed [dollarFeed] yields
    three scored results, two of them with the url [https://example.com/b]
    and the scores 30 and 24, and [liveSearch] returns one entry, of
    another url: none for that url. Two results without a url (scores 40
    and 30) leave no entry at all. *)
Lemma liveSearch_dedup_counterexample :
  let w := worldWith ntvEkonomi dollarFeed in
  let u := js "https://example.com/b" in
  let scored := RSSNewsScraper.scoreAll w latin (js "dolar")
                  (RSSNewsScraper.allResults w latin (js "dolar") (feedsOnly 1)) in
  let w' := worldWith ntvEkonomi linklessFeed in
  let scored' := RSSNewsScraper.scoreAll w' latin (js "dolar")
                   (RSSNewsScraper.allResults w' latin (js "dolar") (feedsOnly 100)) in
  map ScoredItem.relevanceScore (withUrl u scored) = [30%Z; 24%Z]
  /\ (exists x, RSSNewsScraper.liveSearch w latin (js "dolar") (feedsOnly 1)
                = inr [x]
                /\ withUrl u [x] = [])
  /\ map (fun s => (ScoredItem.url s, ScoredItem.relevanceScore s)) scored'
     = [(None, 40%Z); (None, 30%Z)]
  /\ RSSNewsScraper.liveSearch w' latin (js "dolar") (feedsOnly 100) = inr [].
Proof.
  cbv zeta. split; [vm_compute; reflexivity |].
  split; [eexists; split; vm_compute; reflexivity |].
  split; vm_compute; reflexivity.
Qed.

(** * Keyword matching ([matchesKeyword], lines 135-152) *)

Section MatcherFacts.

Variable canon : N -> N.
Variable input : jsstring.

Lemma skipn_nth_error_Some (i : nat) (d : N) :
  nth_error input i = Some d -> skipn i input = d :: skipn (S i) input.
Proof.
  revert i. induction input as [|c l IH]; intros [|i] H; simpl in *;
    try discriminate.
  - injection H as ->. reflexivity.
  - rewrite (IH i H). destruct l; reflexivity.
Qed.

Lemma skipn_nth_error_None (i : nat) :
  nth_error input i = None -> skipn i input = [].
Proof.
  intros H. apply skipn_all2. apply nth_error_None, H.
Qed.

Lemma matchChars_spec (p : jsstring) (i j : nat) :
  matchChars canon input p i = Some j
  <-> j = (i + length p)%nat
      /\ map canon (firstn (length p) (skipn i input)) = map canon p.
Proof.
  revert i. induction p as [|c p IH]; intros i; simpl.
  - split.
    + intros H. injection H as <-. split; [lia | reflexivity].
    + intros [-> _]. f_equal. lia.
  - destruct (nth_error input i) as [d|] eqn:Hd.
    + rewrite (skipn_nth_error_Some i d Hd). simpl.
      destruct (canon c =? canon d) eqn:Hc.
      * apply N.eqb_eq in Hc. rewrite IH. split.
        -- intros [-> Hm]. split; [lia |]. rewrite Hm, Hc. reflexivity.
        -- intros [-> Hm]. split; [lia |]. injection Hm as _ Hm. exact Hm.
      * apply N.eqb_neq in Hc. split; [discriminate |].
        intros [_ Hm]. injection Hm as Hm _. congruence.
    + rewrite (skipn_nth_error_None i Hd). simpl.
      split; [discriminate | intros [_ Hm]; discriminate].
Qed.

Lemma atWordBoundary_bound (i : nat) :
  atWordBoundary input i = true -> (i <= length input)%nat.
Proof.
  unfold atWordBoundary, isWordAt. intros H.
  destruct (Nat.le_gt_cases i (length input)) as [Hle | Hgt]; [exact Hle |].
  exfalso. destruct i as [|i]; [lia |].
  assert (H1 : nth_error input i = None) by (apply nth_error_None; lia).
  assert (H2 : nth_error input (S i) = None) by (apply nth_error_None; lia).
  rewrite H1, H2 in H. discriminate.
Qed.

Lemma matcher_wordPattern (p : jsstring) (i : nat) :
  matcher canon input (wordPattern p) i Some <> None
  <-> atWordBoundary input i = true
      /\ map canon (firstn (length p) (skipn i input)) = map canon p
      /\ atWordBoundary input (i + length p) = true.
Proof.
  unfold wordPattern. cbn [matcher].
  destruct (atWordBoundary input i); [| split; [congruence | intros [? _]; discriminate]].
  destruct (matchChars canon input p i) as [j|] eqn:Hm.
  - apply matchChars_spec in Hm as [-> Hm].
    destruct (atWordBoundary input (i + length p)).
    + split; [auto | congruence].
    + split; [congruence | intros [_ [_ ?]]; discriminate].
  - split; [congruence |]. intros [_ [Hp _]]. exfalso.
    assert (matchChars canon input p i = Some (i + length p)%nat) as Hs.
    { apply matchChars_spec. split; [reflexivity | exact Hp]. }
    congruence.
Qed.

Lemma execFrom_None (r : regex) (fuel start : nat) :
  execFrom canon input r fuel start = None
  <-> forall i, (start <= i < start + fuel)%nat ->
                matcher canon input r i Some = None.
Proof.
  revert start. induction fuel as [|fuel IH]; intros start; simpl.
  - split; [intros _ i Hi; lia | reflexivity].
  - destruct (matcher canon input r start Some) as [e|] eqn:Hm.
    + split; [discriminate |]. intros H.
      rewrite (H start) in Hm by lia. discriminate.
    + rewrite IH. split.
      * intros H i Hi. destruct (Nat.eq_dec i start) as [-> | Hne];
          [exact Hm | apply H; lia].
      * intros H i Hi. apply H. lia.
Qed.

Lemma execFrom_Some (r : regex) (fuel start i e : nat) :
  execFrom canon input r fuel start = Some (i, e) ->
  (start <= i < start + fuel)%nat /\ matcher canon input r i Some = Some e.
Proof.
  revert start. induction fuel as [|fuel IH]; intros start; simpl;
    [discriminate |].
  destruct (matcher canon input r start Some) as [e'|] eqn:Hm.
  - intros H. injection H as <- <-. split; [lia | exact Hm].
  - intros H. apply IH in H as [Hi He]. split; [lia | exact He].
Qed.

Lemma test_true (r : regex) :
  test canon input r = true
  <-> exists i, (i <= length input)%nat /\ matcher canon input r i Some <> None.
Proof.
  unfold test, exec.
  destruct (execFrom canon input r (S (length input) - 0) 0) as [[i e]|] eqn:He.
  - split; [intros _ | reflexivity].
    apply execFrom_Some in He as [Hi He]. exists i.
    split; [lia | congruence].
  - split; [discriminate |]. intros [i [Hi Hm]].
    rewrite execFrom_None in He. exfalso. apply Hm, He. lia.
Qed.

(** The pattern [\bp\b] is found exactly when [p] stands in the text as a
    whole word. *)
Lemma test_wordPattern (p : jsstring) :
  test canon input (wordPattern p) = true <-> occursAsWord canon input p.
Proof.
  rewrite test_true. unfold occursAsWord. split.
  - intros [i [_ Hm]]. exists i. apply matcher_wordPattern, Hm.
  - intros [i Hi]. exists i. split.
    + apply atWordBoundary_bound. tauto.
    + apply matcher_wordPattern, Hi.
Qed.

Lemma runLength_step (member : N -> bool) (i : nat) (c : N) :
  nth_error input i = Some c ->
  runLength member input i
  = if member c then S (runLength member input (S i)) else O.
Proof.
  intros H. unfold runLength.
  rewrite (skipn_nth_error_Some i c H). reflexivity.
Qed.

Lemma runLength_end (member : N -> bool) (i : nat) :
  nth_error input i = None -> runLength member input i = O.
Proof.
  intros H. unfold runLength. rewrite (skipn_nth_error_None i H).
  reflexivity.
Qed.

Lemma runLength_bound (member : N -> bool) (i : nat) :
  (i + runLength member input i <= Nat.max i (length input))%nat.
Proof.
  remember (length input - i)%nat as d eqn:Hd.
  revert i Hd. induction d as [|d IH]; intros i Hd.
  - rewrite runLength_end by (apply nth_error_None; lia). lia.
  - destruct (nth_error input i) as [c|] eqn:Hc.
    + rewrite (runLength_step member i c Hc).
      destruct (member c); [| lia].
      specialize (IH (S i) ltac:(lia)). lia.
    + apply nth_error_None in Hc. lia.
Qed.

(** The character after a run is not of the class. *)
Lemma runLength_stop (member : N -> bool) (i : nat) :
  match nth_error input (i + runLength member input i) with
  | Some c => member c = false
  | None => True
  end.
Proof.
  remember (length input - i)%nat as d eqn:Hd.
  revert i Hd. induction d as [|d IH]; intros i Hd.
  - assert (Hn : nth_error input i = None) by (apply nth_error_None; lia).
    rewrite (runLength_end member i Hn), Nat.add_0_r, Hn. exact I.
  - destruct (nth_error input i) as [c|] eqn:Hc.
    + rewrite (runLength_step member i c Hc).
      destruct (member c) eqn:Hm.
      * replace (i + S (runLength member input (S i)))%nat
          with (S i + runLength member input (S i))%nat by lia.
        apply IH. lia.
      * rewrite Nat.add_0_r, Hc. exact Hm.
    + rewrite (runLength_end member i Hc), Nat.add_0_r, Hc. exact I.
Qed.

(** The characters of a run are of the class. *)
Lemma runLength_inside (member : N -> bool) (i m : nat) :
  (m < runLength member input i)%nat ->
  exists c, nth_error input (i + m) = Some c /\ member c = true.
Proof.
  revert i. induction m as [|m IH]; intros i Hm.
  - destruct (nth_error input i) as [c|] eqn:Hc.
    + rewrite (runLength_step member i c Hc) in Hm.
      destruct (member c) eqn:Hmc; [| lia].
      exists c. rewrite Nat.add_0_r. auto.
    + rewrite (runLength_end member i Hc) in Hm. lia.
  - destruct (nth_error input i) as [c|] eqn:Hc.
    + rewrite (runLength_step member i c Hc) in Hm.
      destruct (member c) eqn:Hmc; [| lia].
      replace (i + S m)%nat with (S i + m)%nat by lia. apply IH. lia.
    + rewrite (runLength_end member i Hc) in Hm. lia.
Qed.

(** [\w*] and the like: the star of a class hands the ends of the run to
    its continuation, the longest first. *)
Lemma repeatMatcher_class (member : N -> bool) (k : nat -> option nat) :
  forall (fuel i : nat),
    (runLength member input i < fuel)%nat ->
    repeatMatcher (matcher canon input (RClass member)) fuel O None i k
    = longestFirst k i (runLength member input i).
Proof.
  induction fuel as [|fuel IH]; intros i Hf; [lia |].
  cbn [repeatMatcher option_map matcher].
  destruct (nth_error input i) as [c|] eqn:Hc.
  - rewrite (runLength_step member i c Hc) in Hf |- *.
    destruct (member c) eqn:Hm.
    + replace (Nat.eqb (S i) i) with false
        by (symmetry; apply Nat.eqb_neq; lia).
      rewrite IH by lia. reflexivity.
    + reflexivity.
  - rewrite (runLength_end member i Hc). reflexivity.
Qed.

Lemma matcher_star_class (member : N -> bool) (i : nat) (k : nat -> option nat) :
  matcher canon input (RRepeat O None (RClass member)) i k
  = longestFirst k i (runLength member input i).
Proof.
  cbn [matcher]. apply repeatMatcher_class.
  pose proof (runLength_bound member i) as Hb.
  destruct (Nat.le_gt_cases i (length input)) as [Hle | Hgt].
  - rewrite Nat.max_r in Hb by exact Hle. simpl. lia.
  - rewrite runLength_end by (apply nth_error_None; lia). simpl. lia.
Qed.

Lemma longestFirst_top (k : nat -> option nat) (i n : nat) :
  n = O \/ k (i + n)%nat <> None ->
  longestFirst k i n = k (i + n)%nat.
Proof.
  revert i. induction n as [|n IH]; intros i H.
  - simpl. rewrite Nat.add_0_r. reflexivity.
  - destruct H as [H | H]; [discriminate |].
    cbn [longestFirst].
    replace (i + S n)%nat with (S i + n)%nat in * by lia.
    rewrite IH by (right; exact H).
    destruct (k (S i + n)%nat); [reflexivity | congruence].
Qed.

(** After a run of word characters that is not empty there is a word
    boundary. *)
Lemma atWordBoundary_after_run (i : nat) :
  runLength isWordChar input i <> O ->
  atWordBoundary input (i + runLength isWordChar input i) = true.
Proof.
  intros Hn.
  pose proof (runLength_stop isWordChar i) as Hstop.
  destruct (runLength isWordChar input i) as [|n] eqn:Hr; [congruence |].
  destruct (runLength_inside isWordChar i n ltac:(lia)) as [c [Hc Hw]].
  unfold atWordBoundary, isWordAt.
  replace (i + S n)%nat with (S (i + n)) in * by lia.
  rewrite Hc, Hw.
  destruct (nth_error input (S (i + n))) as [d|]; [rewrite Hstop |];
    reflexivity.
Qed.

(** The pattern [\b syn \w* \b] at a position: the match, when there is
    one, takes every word character that follows [syn]. *)
Lemma matcher_inflectedPattern (syn : jsstring) (i : nat) :
  matcher canon input (inflectedPattern syn) i Some
  = inflectedAt canon input syn i.
Proof.
  unfold inflectedPattern, inflectedAt.
  cbn [matcher]. fold (matcher canon input (RRepeat O None (RClass isWordChar))).
  destruct (atWordBoundary input i); [| reflexivity].
  destruct (matchChars canon input syn i) as [j|]; [| reflexivity].
  change (repeatMatcher _ _ _ _ j ?k)
    with (matcher canon input (RRepeat O None (RClass isWordChar)) j k).
  rewrite matcher_star_class. cbv zeta.
  destruct (Nat.eq_dec (runLength isWordChar input j) O) as [Hz | Hnz].
  - rewrite Hz, Nat.add_0_r. reflexivity.
  - rewrite longestFirst_top.
    + reflexivity.
    + right. rewrite (atWordBoundary_after_run j Hnz). discriminate.
Qed.

Lemma matchChars_bound (p : jsstring) (i j : nat) :
  matchChars canon input p i = Some j ->
  (i <= j)%nat /\ ((i <= length input)%nat -> (j <= length input)%nat).
Proof.
  revert i. induction p as [|c p IH]; intros i; simpl.
  - intros H. injection H as <-. auto.
  - destruct (nth_error input i) as [d|] eqn:Hd; [| discriminate].
    destruct (canon c =? canon d); [| discriminate].
    intros H. apply IH in H as [H1 H2].
    assert (Hlt : (i < length input)%nat) by (apply nth_error_Some; congruence).
    split; [lia | intros _; apply H2; lia].
Qed.

(** A quantifier whose body only moves forward, and not beyond the end
    of the input, does so too. *)
Lemma repeatMatcher_reaches
  (body : nat -> (nat -> option nat) -> option nat) :
  (forall i k e, body i k = Some e -> reaches input i k e) ->
  forall fuel lo hi i k e,
    repeatMatcher body fuel lo hi i k = Some e -> reaches input i k e.
Proof.
  intros Hbody. induction fuel as [|fuel IH]; intros lo hi i k e;
    [discriminate |].
  assert (Hhere : k i = Some e -> reaches input i k e).
  { intros H. exists i. auto. }
  assert (Hnext : forall lo' hi' j,
             (i <= j)%nat ->
             ((i <= length input)%nat -> (j <= length input)%nat) ->
             repeatMatcher body fuel lo' hi' j k = Some e ->
             reaches input i k e).
  { intros lo' hi' j Hij Hb H. apply IH in H as [j' [H1 [H2 H3]]].
    exists j'. split; [lia |]. split; [intros; apply H2, Hb; lia | exact H3]. }
  cbn [repeatMatcher].
  destruct hi as [[|hi]|]; [exact Hhere | |];
    (destruct lo as [|lo];
     [ destruct (body i _) as [e'|] eqn:Hb;
       [ intros H; injection H as ->;
         apply Hbody in Hb as [j [H1 [H2 H3]]];
         destruct (Nat.eqb j i); [discriminate |];
         exact (Hnext _ _ j H1 H2 H3)
       | exact Hhere ]
     | intros Hb; apply Hbody in Hb as [j [H1 [H2 H3]]];
       exact (Hnext _ _ j H1 H2 H3) ]).
Qed.

(** A match moves forward and stays inside the input. *)
Lemma matcher_reaches (r : regex) :
  forall i k e, matcher canon input r i k = Some e -> reaches input i k e.
Proof.
  induction r as [p | member | | | | a IHa b IHb | a IHa b IHb | lo hi a IHa];
    intros i k e; cbn [matcher].
  - destruct (matchChars canon input p i) as [j|] eqn:Hm; [| discriminate].
    apply matchChars_bound in Hm as [H1 H2]. intros H. exists j. auto.
  - destruct (nth_error input i) as [c|] eqn:Hc; [| discriminate].
    destruct (member c); [| discriminate].
    assert (Hlt : (i < length input)%nat) by (apply nth_error_Some; congruence).
    intros H. exists (S i). split; [lia |]. split; [lia | exact H].
  - destruct (atWordBoundary input i); [| discriminate].
    intros H. exists i. auto.
  - destruct (Nat.eqb i O); [| discriminate]. intros H. exists i. auto.
  - destruct (Nat.eqb i (length input)); [| discriminate].
    intros H. exists i. auto.
  - intros H. apply IHa in H as [j [H1 [H2 H3]]].
    apply IHb in H3 as [j' [H4 [H5 H6]]].
    exists j'. split; [lia |]. split; [intros; apply H5, H2; lia | exact H6].
  - destruct (matcher canon input a i k) as [e'|] eqn:Ha.
    + intros H. injection H as ->. apply IHa, Ha.
    + apply IHb.
  - apply repeatMatcher_reaches, IHa.
Qed.

Lemma exec_bounds (r : regex) (start i e : nat) :
  exec canon input r start = Some (i, e) ->
  (start <= i <= length input)%nat /\ (i <= e <= length input)%nat
  /\ matcher canon input r i Some = Some e.
Proof.
  unfold exec. intros H. apply execFrom_Some in H as [Hi Hm].
  pose proof (matcher_reaches r i Some e Hm) as [j [H1 [H2 H3]]].
  injection H3 as ->. split; [lia |]. split; [| exact Hm].
  split; [lia | apply H2; lia].
Qed.

(** The fuel of [matchAll] is enough: more of it finds the same matches. *)
Lemma matchAllFrom_enough (r : regex) :
  forall fuel1 fuel2 start,
    (S (length input) - start < fuel1)%nat ->
    (S (length input) - start < fuel2)%nat ->
    matchAllFrom canon input r fuel1 start
    = matchAllFrom canon input r fuel2 start.
Proof.
  induction fuel1 as [|fuel1 IH]; intros [|fuel2] start H1 H2; try lia.
  cbn [matchAllFrom].
  destruct (exec canon input r start) as [[i e]|] eqn:He; [| reflexivity].
  apply exec_bounds in He as [Hi [He _]]. f_equal.
  destruct (Nat.eqb e i) eqn:Hei.
  - apply Nat.eqb_eq in Hei. apply IH; lia.
  - apply Nat.eqb_neq in Hei. apply IH; lia.
Qed.

(** [matchAll] lists the first match and then the matches after it. *)
Lemma matchAll_unfold (r : regex) :
  matchAll canon input r
  = match exec canon input r O with
    | None => []
    | Some (i, e) =>
        (i, e) :: matchAllFrom canon input r (length input + 2)
                               (if Nat.eqb e i then S e else e)
    end.
Proof.
  unfold matchAll. replace (length input + 2)%nat with (S (length input + 1)) at 1 by lia.
  cbn [matchAllFrom].
  destruct (exec canon input r O) as [[i e]|] eqn:He; [| reflexivity].
  apply exec_bounds in He as [Hi [He _]]. f_equal.
  destruct (Nat.eqb e i) eqn:Hei.
  - apply Nat.eqb_eq in Hei. apply matchAllFrom_enough; lia.
  - apply Nat.eqb_neq in Hei. apply matchAllFrom_enough; lia.
Qed.

End MatcherFacts.

(** C4. The suffixes of [matchesKeyword] are ['', 'in', 'un', 'a', 'e',
    'i', 'da', 'de', 'dan', 'den', 'la', 'le', 'lar', 'ler'], and
    [matchesKeyword] answers [true] exactly when the text and the keyword
    are non-empty and, for some synonym of the keyword and some suffix of
    that list, the synonym followed by the suffix stands in the lower-cased
    text as a whole word, case-insensitively. For the keyword [dolar],
    whose synonyms are [dolar], [usd], [amerikan dolari], [dolarin] and
    [dolarda], the text [Dolarin yukselisi durmuyor] matches, [dolar]
    followed by the suffix [in] standing in it as a word, and the text
    [Euro yukseldi] does not. The keyword [deprem] has no synonym but
    itself: it matches a text with [Deprem] followed by any of the fourteen
    suffixes, and does not match [Depremzedeler]. *)
Theorem matchesKeyword_suffixed_synonyms :
  RSSNewsScraper.suffixes
  = map js [""; "in"; "un"; "a"; "e"; "i"; "da"; "de"; "dan"; "den"; "la";
            "le"; "lar"; "ler"]%string
  /\ (forall (h : JsHost) (text keyword : jsstring),
      RSSNewsScraper.matchesKeyword h text keyword = true
      <-> text <> [] /\ keyword <> []
          /\ exists syn suffix,
               In syn (RSSNewsScraper.getSynonyms h keyword)
               /\ In suffix
                     (map js [""; "in"; "un"; "a"; "e"; "i"; "da"; "de"; "dan";
                              "den"; "la"; "le"; "lar"; "ler"]%string)
               /\ occursAsWord (canonicalize h) (normalizeText h text)
                               (syn ++ suffix))
  /\ RSSNewsScraper.getSynonyms latin (js "dolar")
     = map js ["dolar"; "usd"; "amerikan dolari"; "dolarin"; "dolarda"]%string
  /\ RSSNewsScraper.matchesKeyword latin (js "Dolarin yukselisi durmuyor")
                                   (js "dolar") = true
  /\ RSSNewsScraper.matchesKeyword latin (js "Euro yukseldi") (js "dolar")
     = false
  /\ occursAsWord (canonicalize latin)
                  (normalizeText latin (js "Dolarin yukselisi durmuyor"))
                  (js "dolar" ++ js "in")
  /\ RSSNewsScraper.getSynonyms latin (js "deprem") = [js "deprem"]
  /\ (forall suffix,
        In suffix RSSNewsScraper.suffixes ->
        RSSNewsScraper.matchesKeyword
          latin (js "Deprem" ++ suffix ++ js " bolgesinde son durum")
          (js "deprem") = true)
  /\ RSSNewsScraper.matchesKeyword latin (js "Depremzedeler icin yardim")
                                   (js "deprem") = false
  /\ RSSNewsScraper.matchesKeyword latin (js "Dolara talep artti")
                                   (js "dolar") = true
  /\ RSSNewsScraper.matchesKeyword latin (js "Dolarci dukkanini kapatti")
                                   (js "dolar") = false.
Proof.
  split; [reflexivity |].
  split.
  { intros h text keyword. unfold RSSNewsScraper.matchesKeyword.
    change (map js [""; "in"; "un"; "a"; "e"; "i"; "da"; "de"; "dan"; "den";
                    "la"; "le"; "lar"; "ler"]%string)
      with RSSNewsScraper.suffixes.
    destruct (truthy text) eqn:Ht; cbn [negb orb].
    2:{ split; [discriminate |]. intros [Hne _].
        apply truthy_true in Hne. congruence. }
    destruct (truthy keyword) eqn:Hk; cbn [negb orb].
    2:{ split; [discriminate |]. intros [_ [Hne _]].
        apply truthy_true in Hne. congruence. }
    apply truthy_true in Ht, Hk.
    rewrite existsb_exists. split.
    + intros [syn [Hsyn Hex]].
      apply existsb_exists in Hex as [suffix [Hsuf Hex]].
      apply test_wordPattern in Hex. eauto 10.
    + intros [_ [_ [syn [suffix [Hsyn [Hsuf Hocc]]]]]].
      exists syn. split; [exact Hsyn |]. apply existsb_exists.
      exists suffix. split; [exact Hsuf |]. apply test_wordPattern, Hocc. }
  split; [vm_compute; reflexivity |].
  split; [vm_compute; reflexivity |].
  split; [vm_compute; reflexivity |].
  split; [exists O; repeat split; vm_compute; reflexivity |].
  split; [vm_compute; reflexivity |].
  split.
  { intros suffix Hin. unfold RSSNewsScraper.suffixes in Hin.
    cbn [map In] in Hin.
    repeat (destruct Hin as [<- | Hin]; [vm_compute; reflexivity |]).
    destruct Hin. }
  repeat split; vm_compute; reflexivity.
Qed.

(** * Input validation of [liveSearch] (lines 357-360) *)

(** C3. [liveSearch] throws its keyword error exactly when the keyword
    has fewer than two code units, and returns a list otherwise; it throws
    for the keyword [a] and returns for the keyword [ab], whatever the
    options and the answers of the network. *)
Theorem liveSearch_keyword_length :
  forall (w : World) (h : JsHost) (keyword : jsstring)
         (options : RSSNewsScraper.Options),
    (RSSNewsScraper.liveSearch w h keyword options
     = inl RSSNewsScraper.keywordTooShort
     <-> (length keyword < 2)%nat)
    /\ ((exists news, RSSNewsScraper.liveSearch w h keyword options = inr news)
        <-> (2 <= length keyword)%nat)
    /\ RSSNewsScraper.liveSearch w h (js "a") options
       = inl RSSNewsScraper.keywordTooShort
    /\ exists news, RSSNewsScraper.liveSearch w h (js "ab") options = inr news.
Proof.
  intros w h keyword options.
  assert (Hgen : forall kw,
             RSSNewsScraper.liveSearch w h kw options
             = if (length kw <? 2)%nat
               then inl RSSNewsScraper.keywordTooShort
               else inr (RSSNewsScraper.rankAndDedupe
                           (RSSNewsScraper.limit options)
                           (RSSNewsScraper.scoreAll w h kw
                              (RSSNewsScraper.allResults w h kw options)))).
  { intros kw. unfold RSSNewsScraper.liveSearch.
    destruct kw as [|c [|d kw]]; reflexivity. }
  split; [| split; [| split]].
  - rewrite Hgen. destruct (length keyword <? 2)%nat eqn:Hl.
    + apply Nat.ltb_lt in Hl. tauto.
    + apply Nat.ltb_ge in Hl. split; [discriminate | lia].
  - rewrite Hgen. destruct (length keyword <? 2)%nat eqn:Hl.
    + apply Nat.ltb_lt in Hl. split; [intros [news H]; discriminate | lia].
    + apply Nat.ltb_ge in Hl. split; [intros _; exact Hl | eauto].
  - rewrite Hgen. reflexivity.
  - rewrite Hgen. simpl. eauto.
Qed.

(** * Relevance scores ([liveSearch], lines 387-401) *)

Section Scoring.

Import RSSNewsScraper.

(** Dividing the age by the milliseconds of an hour and comparing with a
    number of hours is comparing the age with that many hours. *)
Lemma Qltb_hoursDiff (now t k : Z) :
  Qltb (hoursDiff now t) (inject_Z k) = (now - t <? k * 3600000)%Z.
Proof.
  unfold Qltb, hoursDiff, Qle_bool, inject_Z. cbn [Qnum Qden].
  change (Z.pos (1000 * 60 * 60)) with 3600000%Z.
  rewrite Z.mul_1_r. destruct (Z.ltb_spec (now - t) (k * 3600000)) as [H | H].
  - apply negb_true_iff, Z.leb_gt. exact H.
  - apply negb_false_iff, Z.leb_le. exact H.
Qed.

Lemma scoreItem_spec (h : JsHost) (keyword : jsstring) (now : Z)
  (item : NewsItem.t) :
  ScoredItem.relevanceScore (scoreItem h keyword now item)
  = specScore h keyword (str_eqb (NewsItem.category item) (js "Google News"))
              (ageAt now item) item.
Proof.
  unfold scoreItem, specScore, ageAt, specRecencyBonus.
  cbn [ScoredItem.relevanceScore].
  destruct (NewsItem.publishedAt item) as [t|]; cbn [option_map].
  - change 1%Q with (inject_Z 1). change 6%Q with (inject_Z 6).
    change 24%Q with (inject_Z 24). rewrite !Qltb_hoursDiff.
    destruct (str_eqb _ _);
      destruct (now - t <? 1 * 3600000)%Z;
      destruct (now - t <? 6 * 3600000)%Z;
      destruct (now - t <? 24 * 3600000)%Z; lia.
  - destruct (str_eqb _ _); lia.
Qed.

Lemma scoreFrom_items (w : World) (h : JsHost) (keyword : jsstring) (i : nat)
  (items : list NewsItem.t) :
  map ScoredItem.item (scoreFrom w h keyword i items) = items.
Proof.
  revert i. induction items as [|item rest IH]; intros i; simpl;
    [reflexivity | rewrite IH; reflexivity].
Qed.

(** Every item a feed of the registry yields carries the category of that
    feed. *)
Lemma scrapeItems_category (w : World) (h : JsHost) (feedKey : jsstring)
  (feedInfo : FeedInfo.t) (keyword : option jsstring) (i : nat)
  (items : list FeedItem.t) (x : NewsItem.t) :
  In x (scrapeItems w h feedKey feedInfo keyword i items) ->
  NewsItem.category x = FeedInfo.category feedInfo.
Proof.
  revert i. induction items as [|item rest IH]; intros i; cbn [scrapeItems];
    [intros [] |].
  destruct (negb (isValidNews h item)); [apply IH |].
  match goal with |- context [if ?c then _ else _] => destruct c end;
    [apply IH |].
  intros [<- | Hx]; [reflexivity | eapply IH, Hx].
Qed.

Lemma scrapeFromFeed_category (w : World) (h : JsHost) (feedKey : jsstring)
  (feedInfo : FeedInfo.t) (keyword : option jsstring) (x : NewsItem.t) :
  In x (scrapeFromFeed w h feedKey feedInfo keyword) ->
  NewsItem.category x = FeedInfo.category feedInfo.
Proof.
  unfold scrapeFromFeed. destruct (parseURL w (FeedInfo.url feedInfo));
    [apply scrapeItems_category | intros []].
Qed.

Lemma In_skipn {B : Type} (n : nat) (x : B) (l : list B) :
  In x (skipn n l) -> In x l.
Proof.
  revert n. induction l as [|y l IH]; intros [|n]; simpl; try tauto.
  intros H. right. eapply IH, H.
Qed.

Lemma gatherChunks_category (w : World) (h : JsHost) (keyword : jsstring)
  (limit fuel : nat) (feeds : list (jsstring * FeedInfo.t))
  (acc : list NewsItem.t) (x : NewsItem.t) :
  In x (gatherChunks w h keyword limit fuel feeds acc) ->
  In x acc
  \/ exists key info, In (key, info) feeds
                      /\ NewsItem.category x = FeedInfo.category info.
Proof.
  revert feeds acc. induction fuel as [|fuel IH]; intros feeds acc;
    cbn [gatherChunks]; [tauto |].
  destruct feeds as [|f feeds]; [tauto |].
  set (chunk := firstn 5 (f :: feeds)).
  set (results := flat_map _ chunk).
  assert (Hres : forall y, In y (acc ++ results) ->
             In y acc \/ exists key info, In (key, info) (f :: feeds)
                                 /\ NewsItem.category y = FeedInfo.category info).
  { intros y Hy. apply in_app_or in Hy as [Hy | Hy]; [left; exact Hy | right].
    apply in_flat_map in Hy as [[key info] [Hin Hy]].
    exists key, info. split; [eapply In_firstn, Hin |].
    eapply scrapeFromFeed_category, Hy. }
  destruct (limit <=? length (acc ++ results))%nat; [apply Hres |].
  intros Hx. apply IH in Hx as [Hx | [key [info [Hin Hc]]]].
  - apply Hres, Hx.
  - right. exists key, info. split; [eapply In_skipn, Hin | exact Hc].
Qed.

Lemma selectFeeds_registry (w : World) (options : Options)
  (f : jsstring * FeedInfo.t) :
  In f (selectFeeds w options) -> In f rssFeeds.
Proof.
  unfold selectFeeds. intros Hf. apply In_firstn in Hf.
  eapply Permutation_in in Hf; [| apply shuffleBy_perm].
  destruct (present (category options)); [| exact Hf].
  apply List.filter_In in Hf. tauto.
Qed.

(** No feed of the registry declares the category of the Google News
    channel. *)
Lemma registry_not_google :
  forallb (fun '(_, info) =>
             negb (str_eqb (FeedInfo.category info) (js "Google News")))
          rssFeeds = true.
Proof. vm_compute. reflexivity. Qed.

Lemma feedResults_category (w : World) (h : JsHost) (keyword : jsstring)
  (options : Options) (x : NewsItem.t) :
  In x (feedResults w h keyword options) ->
  str_eqb (NewsItem.category x) (js "Google News") = false.
Proof.
  unfold feedResults. intros Hx.
  apply gatherChunks_category in Hx as [[] | [key [info [Hin Hc]]]].
  apply selectFeeds_registry in Hin.
  pose proof registry_not_google as Hreg. rewrite forallb_forall in Hreg.
  specialize (Hreg _ Hin). cbn beta iota in Hreg.
  apply negb_true_iff in Hreg. rewrite Hc. exact Hreg.
Qed.

Lemma googleEntries_category (w : World) (h : JsHost) (feedUrl : jsstring)
  (i : nat) (items : list FeedItem.t) (x : NewsItem.t) :
  In x (googleEntries w h feedUrl i items) ->
  NewsItem.category x = js "Google News".
Proof.
  revert i. induction items as [|item rest IH]; intros i; cbn [googleEntries];
    [intros [] |].
  intros Hx. apply in_app_or in Hx as [Hx | Hx]; [| eapply IH, Hx].
  unfold googleEntry in Hx.
  destruct (negb (isValidNews h _)); [destruct Hx |].
  destruct Hx as [<- | []]. reflexivity.
Qed.

Lemma googleResults_category (w : World) (h : JsHost) (keyword : jsstring)
  (options : Options) (x : NewsItem.t) :
  In x (googleResults w h keyword options) ->
  str_eqb (NewsItem.category x) (js "Google News") = true.
Proof.
  unfold googleResults, searchGoogleNews.
  destruct (includeGoogleNews options); [| intros []].
  intros Hx. apply uniqueByUrl_In in Hx.
  apply in_flat_map in Hx as [term [_ Hx]].
  destruct (parseURL w (googleNewsUrl w term)); [| destruct Hx].
  apply str_eqb_eq. eapply googleEntries_category, Hx.
Qed.

(** The scores of a run of results, all from the registry or all from the
    Google News channel. *)
Lemma scoreFrom_spec (w : World) (h : JsHost) (keyword : jsstring)
  (nFeeds i : nat) (items : list NewsItem.t) (google : bool) :
  (forall x, In x items ->
             str_eqb (NewsItem.category x) (js "Google News") = google) ->
  (forall j, (i <= j < i + length items)%nat -> (nFeeds <=? j)%nat = google) ->
  map ScoredItem.relevanceScore (scoreFrom w h keyword i items)
  = specScoresFrom w h keyword nFeeds i items.
Proof.
  revert i. induction items as [|item rest IH]; intros i Hcat Hidx;
    [reflexivity |].
  cbn [scoreFrom specScoresFrom map]. f_equal.
  - rewrite scoreItem_spec, (Hcat item (or_introl eq_refl)).
    rewrite (Hidx i) by (simpl; lia). reflexivity.
  - apply IH.
    + intros x Hx. apply Hcat. right. exact Hx.
    + intros j Hj. apply Hidx. simpl. lia.
Qed.

Lemma scoreFrom_app (w : World) (h : JsHost) (keyword : jsstring) (i : nat)
  (a b : list NewsItem.t) :
  scoreFrom w h keyword i (a ++ b)
  = scoreFrom w h keyword i a ++ scoreFrom w h keyword (i + length a) b.
Proof.
  revert i. induction a as [|x a IH]; intros i; simpl.
  - rewrite Nat.add_0_r. reflexivity.
  - rewrite IH. replace (i + S (length a))%nat with (S i + length a)%nat by lia.
    reflexivity.
Qed.

Lemma specScoresFrom_app (w : World) (h : JsHost) (keyword : jsstring)
  (nFeeds i : nat) (a b : list NewsItem.t) :
  specScoresFrom w h keyword nFeeds i (a ++ b)
  = specScoresFrom w h keyword nFeeds i a
    ++ specScoresFrom w h keyword nFeeds (i + length a) b.
Proof.
  revert i. induction a as [|x a IH]; intros i; simpl.
  - rewrite Nat.add_0_r. reflexivity.
  - rewrite IH. replace (i + S (length a))%nat with (S i + length a)%nat by lia.
    reflexivity.
Qed.

End Scoring.

(** C2. The results of [liveSearch] are the items of the registry's feeds
    followed by those of the Google News channel, and the score computed
    for each of them is ten times the keyword occurrences in its title,
    plus twice those in its description, plus 5 exactly for the items of
    the Google News channel, plus the recency bonus (20 under one hour of
    age, 10 under six, 5 under twenty-four, 0 otherwise or without a valid
    date). For a keyword of at least two code units the list returned is
    cut from the scored list sorted by descending score, where items of
    equal score keep the order they had. In the world [searchWorld] the
    keyword [dolar] finds four items of a feed and two of Google News, aged
    30 minutes, 3 hours, 12 hours, 2 days and without a valid date: their
    scores are 35, 32, 20, 14, 10 and 10, the two items of Google News
    carrying the 5 points of the channel. *)
Theorem liveSearch_relevance_score :
  forall (w : World) (h : JsHost) (keyword : jsstring)
         (options : RSSNewsScraper.Options),
    let feeds := RSSNewsScraper.feedResults w h keyword options in
    let google := RSSNewsScraper.googleResults w h keyword options in
    let scored := RSSNewsScraper.scoreAll w h keyword
                    (RSSNewsScraper.allResults w h keyword options) in
    map ScoredItem.item scored = feeds ++ google
    /\ map ScoredItem.relevanceScore scored
       = specScoresFrom w h keyword (length feeds) 0 (feeds ++ google)
    /\ ((2 <= length keyword)%nat ->
        RSSNewsScraper.liveSearch w h keyword options
        = inr (firstn (RSSNewsScraper.limit options)
                 (uniqueByUrl ScoredItem.url ∅
                    (sortBy RSSNewsScraper.byScoreDesc scored))))
    /\ ((length keyword < 2)%nat ->
        RSSNewsScraper.liveSearch w h keyword options
        = inl RSSNewsScraper.keywordTooShort)
    /\ Permutation (sortBy RSSNewsScraper.byScoreDesc scored) scored
    /\ StronglySorted scoreGe (sortBy RSSNewsScraper.byScoreDesc scored)
    /\ (forall s : Z,
         List.filter (fun a => (ScoredItem.relevanceScore a =? s)%Z)
                     (sortBy RSSNewsScraper.byScoreDesc scored)
         = List.filter (fun a => (ScoredItem.relevanceScore a =? s)%Z) scored)
    /\ exists results,
         RSSNewsScraper.liveSearch searchWorld latin (js "dolar")
                                   RSSNewsScraper.defaultOptions
         = inr results
         /\ map scoreLine results
            = [ (Some (js "https://news.google.com/articles/2"),
                 js "Google News", 35%Z);
                (Some (js "https://example.com/1"), js "Ekonomi", 32%Z);
                (Some (js "https://news.google.com/articles/1"),
                 js "Google News", 20%Z);
                (Some (js "https://example.com/2"), js "Ekonomi", 14%Z);
                (Some (js "https://example.com/3"), js "Ekonomi", 10%Z);
                (Some (js "https://example.com/4"), js "Ekonomi", 10%Z) ].
Proof.
  intros w h keyword options. cbv zeta.
  match goal with
  | |- ?A /\ ?B /\ ?C /\ ?D /\ ?E /\ ?F /\ ?G /\ ?X =>
      cut (A /\ B /\ C /\ D /\ E /\ F /\ G);
      [intros Hgen; repeat (split; [apply Hgen |]) |]
  end.
  { match goal with
    | |- exists results, ?run = _ /\ _ =>
        let v := eval vm_compute in run in
        lazymatch v with inr ?l => exists l end
    end.
    split; vm_compute; reflexivity. }
  unfold RSSNewsScraper.scoreAll, RSSNewsScraper.allResults.
  set (feeds := RSSNewsScraper.feedResults w h keyword options).
  set (google := RSSNewsScraper.googleResults w h keyword options).
  split; [apply scoreFrom_items |].
  split.
  { rewrite scoreFrom_app, specScoresFrom_app, map_app. f_equal.
    - apply scoreFrom_spec with (google := false).
      + intros x Hx. eapply feedResults_category, Hx.
      + intros j Hj. apply Nat.leb_gt. lia.
    - apply scoreFrom_spec with (google := true).
      + intros x Hx. eapply googleResults_category, Hx.
      + intros j Hj. apply Nat.leb_le. lia. }
  split.
  { intros Hlen. unfold RSSNewsScraper.liveSearch.
    assert (Ht : truthy keyword = true)
      by (destruct keyword; [simpl in Hlen; lia | reflexivity]).
    rewrite Ht. cbn [negb orb].
    replace (length keyword <? 2)%nat with false
      by (symmetry; apply Nat.ltb_ge; lia).
    reflexivity. }
  split.
  { intros Hlen. unfold RSSNewsScraper.liveSearch.
    replace (length keyword <? 2)%nat with true
      by (symmetry; apply Nat.ltb_lt; lia).
    rewrite orb_true_r. reflexivity. }
  split; [apply sortBy_perm |].
  split; [apply sortBy_byScore_sorted |].
  intros s. apply sortBy_byScore_stable.
Qed.

(** * The category classifier ([detectCategory] of the second copy) *)

Section Classifier.

Import RSSNewsScraper2.

Lemma fold_left_points (f : jsstring -> Z) (l : list jsstring) (a : Z) :
  fold_left (fun score keyword => (score + f keyword)%Z) l a
  = (a + sumZ (map f l))%Z.
Proof.
  revert a. induction l as [|k l IH]; intros a; simpl.
  - lia.
  - rewrite IH. lia.
Qed.

Lemma categoryScore_sum (h : JsHost) (text title : jsstring)
  (keywords : list jsstring) :
  categoryScore h text title keywords
  = sumZ (map (keywordPoints h text title) keywords).
Proof. unfold categoryScore. rewrite fold_left_points. lia. Qed.

Lemma sumZ_zero (l : list Z) : (forall z, In z l -> z = 0%Z) -> sumZ l = 0%Z.
Proof.
  induction l as [|z l IH]; intros H; simpl; [reflexivity |].
  rewrite (H z (or_introl eq_refl)), IH; [reflexivity |].
  intros y Hy. apply H. right. exact Hy.
Qed.

(** The second loop: the running maximum starts from [(m0, b0)] and
    moves only to a strictly greater score. *)
Lemma pickBest_fold (scores : list (jsstring * Z)) (m0 : Z) (b0 : jsstring) :
  let '(m, b) :=
    fold_left (fun '(maxScore, bestCategory) '(category, score) =>
                 if (maxScore <? score)%Z then (score, category)
                 else (maxScore, bestCategory))
              scores (m0, b0) in
  (m = m0 /\ b = b0 /\ forall c s, In (c, s) scores -> (s <= m0)%Z)
  \/ ((m0 < m)%Z
      /\ exists l1 l2, scores = l1 ++ (b, m) :: l2
                       /\ (forall c s, In (c, s) l1 -> (s < m)%Z)
                       /\ (forall c s, In (c, s) l2 -> (s <= m)%Z)).
Proof.
  revert m0 b0. induction scores as [|[c s] rest IH]; intros m0 b0.
  - simpl. left. repeat split. intros c s [].
  - cbn [fold_left]. destruct (m0 <? s)%Z eqn:Hlt.
    + apply Z.ltb_lt in Hlt. specialize (IH s c).
      destruct (fold_left _ rest (s, c)) as [m b].
      destruct IH as [[-> [-> Hall]] | [Hm [l1 [l2 [-> [H1 H2]]]]]].
      * right. split; [exact Hlt |]. exists [], rest.
        split; [reflexivity |]. split; [intros ? ? [] | exact Hall].
      * right. split; [lia |]. exists ((c, s) :: l1), l2.
        split; [reflexivity |]. split; [| exact H2].
        intros c' s' [Heq | Hin]; [injection Heq as <- <-; exact Hm |].
        eapply H1, Hin.
    + apply Z.ltb_ge in Hlt. specialize (IH m0 b0).
      destruct (fold_left _ rest (m0, b0)) as [m b].
      destruct IH as [[-> [-> Hall]] | [Hm [l1 [l2 [-> [H1 H2]]]]]].
      * left. repeat split.
        intros c' s' [Heq | Hin]; [injection Heq as <- <-; exact Hlt |].
        eapply Hall, Hin.
      * right. split; [exact Hm |]. exists ((c, s) :: l1), l2.
        split; [reflexivity |]. split; [| exact H2].
        intros c' s' [Heq | Hin]; [injection Heq as <- <-; lia |].
        eapply H1, Hin.
Qed.

(** [detectCategory] answers with the first category that reaches the
    highest score when that score is at least 2, and with [Genel] when
    every score is below 2. *)
Lemma detectCategory_cases (h : JsHost) (title description : jsstring) :
  (detectCategory h title description = js "Genel"
   /\ forall c s, In (c, s) (scoresOf h title description) -> (s < 2)%Z)
  \/ exists l1 s l2,
       scoresOf h title description
       = l1 ++ (detectCategory h title description, s) :: l2
       /\ (2 <= s)%Z
       /\ (forall c' s', In (c', s') l1 -> (s' < s)%Z)
       /\ (forall c' s', In (c', s') l2 -> (s' <= s)%Z).
Proof.
  unfold detectCategory, pickBest.
  pose proof (pickBest_fold (scoresOf h title description) 0 (js "Genel")) as H.
  destruct (fold_left _ (scoresOf h title description) (0%Z, js "Genel"))
    as [m b].
  destruct (2 <=? m)%Z eqn:Hm.
  - apply Z.leb_le in Hm. right.
    destruct H as [[-> _] | [_ [l1 [l2 [Hs [H1 H2]]]]]]; [lia |].
    exists l1, m, l2. auto.
  - apply Z.leb_gt in Hm. left. split; [reflexivity |].
    destruct H as [[_ [_ Hall]] | [_ [l1 [l2 [Hs [H1 H2]]]]]].
    + intros c s Hin. specialize (Hall c s Hin). lia.
    + intros c s Hin. rewrite Hs in Hin.
      apply in_app_or in Hin as [Hin | [Heq | Hin]].
      * specialize (H1 c s Hin). lia.
      * injection Heq as _ <-. exact Hm.
      * specialize (H2 c s Hin). lia.
Qed.

End Classifier.

Lemma sumZ_points (h : JsHost) (text title : jsstring)
  (keywords : list jsstring) :
  let inText k := includes text (toLowerCase h k) in
  let inTitle k := includes (normalizeText h title) (toLowerCase h k) in
  sumZ (map (RSSNewsScraper2.keywordPoints h text title) keywords)
  = (3 * Z.of_nat (length (List.filter (fun k => inText k && inTitle k) keywords))
     + Z.of_nat (length (List.filter (fun k => inText k && negb (inTitle k))
                                     keywords)))%Z.
Proof.
  cbv zeta. induction keywords as [|k keywords IH]; [reflexivity |].
  cbn [map sumZ fold_right List.filter]. fold (sumZ (map
    (RSSNewsScraper2.keywordPoints h text title) keywords)).
  rewrite IH. unfold RSSNewsScraper2.keywordPoints.
  destruct (includes text (toLowerCase h k));
    destruct (includes (normalizeText h title) (toLowerCase h k));
    cbn [andb negb length]; lia.
Qed.

(** [detectCategory] of the second copy gives every category three
    points for each of its keywords that both the lower-cased text of
    title and description and the lower-cased title hold, and one point for
    each keyword that the text holds and the title does not. It returns the
    first category with the highest score when that score is at least 2,
    and [Genel] when every score is below 2; so a text that holds no
    keyword of any dictionary is classified [Genel]. The text is the title,
    a space and the description, so a keyword that lies across their
    junction counts one point: the title [Gunun ozeti son] with the
    description [dakika gelismesi flaş] is classified [Son Dakika], though
    neither holds [son dakika]. *)
Theorem detectCategory_scoring :
  (forall (h : JsHost) (title description : jsstring),
      let text := normalizeText h (title ++ js " " ++ description) in
      let inText k := includes text (toLowerCase h k) in
      let inTitle k := includes (normalizeText h title) (toLowerCase h k) in
      let scores := RSSNewsScraper2.scoresOf h title description in
      let result := RSSNewsScraper2.detectCategory h title description in
      scores
      = map (fun '(category, keywords) =>
               (category,
                (3 * Z.of_nat (length (List.filter
                                         (fun k => inText k && inTitle k)
                                         keywords))
                 + Z.of_nat (length (List.filter
                                       (fun k => inText k && negb (inTitle k))
                                       keywords)))%Z))
            RSSNewsScraper2.categoryKeywords
      /\ ((result = js "Genel" /\ forall c s, In (c, s) scores -> (s < 2)%Z)
          \/ exists l1 s l2,
               scores = l1 ++ (result, s) :: l2
               /\ (2 <= s)%Z
               /\ (forall c' s', In (c', s') l1 -> (s' < s)%Z)
               /\ (forall c' s', In (c', s') l2 -> (s' <= s)%Z))
      /\ ((forall category keywords keyword,
              In (category, keywords) RSSNewsScraper2.categoryKeywords ->
              In keyword keywords -> inText keyword = false) ->
          result = js "Genel"))
  /\ forallb (fun '(_, keywords) =>
                forallb (fun keyword => str_eqb (toLowerCase latin keyword) keyword)
                        keywords)
             RSSNewsScraper2.categoryKeywords = true
  /\ RSSNewsScraper2.detectCategory latin (js "Hava bugun gunesli")
                                    (js "Yarin yagmur bekleniyor")
     = js "Genel"
  /\ RSSNewsScraper2.detectCategory latin (js "Dolar rekor kirdi")
                                    (js "Borsa da yukseldi")
     = js "Ekonomi"
  /\ RSSNewsScraper2.detectCategory latin (js "Hafta sonu programi")
                                    (js "Pazar gunu futbol var")
     = js "Genel"
  /\ RSSNewsScraper2.detectCategory latin (js "Gunun ozeti son")
                                    (js "dakika gelismesi flaş")
     = js "Son Dakika"
  /\ includes (normalizeText latin (js "Gunun ozeti son")) (js "son dakika")
     = false
  /\ includes (normalizeText latin (js "dakika gelismesi flaş"))
              (js "son dakika")
     = false.
Proof.
  split; [| repeat split; vm_compute; reflexivity].
  intros h title description. cbv zeta.
  assert (Hscores :
            RSSNewsScraper2.scoresOf h title description
            = map (fun '(category, keywords) =>
                     (category,
                      sumZ (map (RSSNewsScraper2.keywordPoints
                                   h (normalizeText h (title ++ js " " ++ description))
                                   title)
                                keywords)))
                  RSSNewsScraper2.categoryKeywords).
  { unfold RSSNewsScraper2.scoresOf. apply map_ext. intros [c kws].
    rewrite categoryScore_sum. reflexivity. }
  split.
  { rewrite Hscores. apply map_ext. intros [c kws].
    pose proof (sumZ_points h (normalizeText h (title ++ js " " ++ description))
                            title kws) as Hp.
    cbv zeta in Hp. rewrite Hp. reflexivity. }
  split; [apply detectCategory_cases |].
  intros Hnone.
  destruct (detectCategory_cases h title description)
    as [[Hg _] | [l1 [s [l2 [Hs [Hs2 _]]]]]]; [exact Hg | exfalso].
  assert (Hin : In (RSSNewsScraper2.detectCategory h title description, s)
                   (RSSNewsScraper2.scoresOf h title description)).
  { rewrite Hs. apply in_or_app. right. left. reflexivity. }
  rewrite Hscores in Hin. apply in_map_iff in Hin as [[c kws] [Heq Hin]].
  pose proof (f_equal snd Heq) as Hsum. cbn [snd] in Hsum.
  rewrite sumZ_zero in Hsum; [lia |].
  intros z Hz. apply in_map_iff in Hz as [kw [<- Hkw]].
  unfold RSSNewsScraper2.keywordPoints.
  rewrite (Hnone c kws kw Hin Hkw). reflexivity.
Qed.

(** * The keyword filter of the feed fetcher ([scrapeFromFeed], lines 298-341) *)

Lemma scrapeItems_kept (w : World) (h : JsHost) (feedKey : jsstring)
  (feedInfo : FeedInfo.t) (keyword : option jsstring) (i : nat)
  (items : list FeedItem.t) :
  RSSNewsScraper.scrapeItems w h feedKey feedInfo keyword i items
  = keptFrom w h feedKey feedInfo keyword i items.
Proof.
  revert i. induction items as [|item rest IH]; intros i; [reflexivity |].
  cbn [RSSNewsScraper.scrapeItems keptFrom]. rewrite IH.
  unfold keptEntry, entryTitle, entryDescription.
  destruct (RSSNewsScraper.isValidNews h item); cbn [negb andb];
    [| reflexivity].
  destruct (RSSNewsScraper.present keyword) as [kw|]; [| reflexivity].
  destruct (RSSNewsScraper.matchesKeyword h _ kw); cbn [negb andb orb];
    [reflexivity |].
  destruct (Nat.ltb_spec
              (RSSNewsScraper.countKeywordOccurrences
                 h (or_empty (or_else (or_else (FeedItem.contentSnippet item)
                                               (FeedItem.content item))
                                      (FeedItem.summary item))) kw) 2)
    as [Hlt | Hge].
  - rewrite (proj2 (Nat.leb_gt _ _) Hlt). reflexivity.
  - rewrite (proj2 (Nat.leb_le _ _) Hge). reflexivity.
Qed.

Lemma keptFrom_length (w : World) (h : JsHost) (feedKey : jsstring)
  (feedInfo : FeedInfo.t) (keyword : option jsstring) (i : nat)
  (items : list FeedItem.t) :
  length (keptFrom w h feedKey feedInfo keyword i items)
  = length (List.filter (keptEntry h keyword) items).
Proof.
  revert i. induction items as [|item rest IH]; intros i; [reflexivity |].
  cbn [keptFrom List.filter]. rewrite length_app, IH.
  destruct (keptEntry h keyword item); reflexivity.
Qed.

(** C8. The items [scrapeFromFeed] returns for a feed are those of the
    entries that pass the validator and, when a keyword is supplied, whose
    title the keyword matches or whose description holds at least two
    occurrences of it, in the order of the feed; a feed that cannot be
    read yields none. With a keyword, an entry that passes the validator
    is kept if and only if the title matches or the description count is
    at least 2. Of the four entries of [filterFeed] the keyword [dolar]
    keeps the first two. *)
Theorem scrapeFromFeed_keyword_filter :
  forall (w : World) (h : JsHost) (feedKey : jsstring) (feedInfo : FeedInfo.t)
         (keyword : option jsstring),
    RSSNewsScraper.scrapeFromFeed w h feedKey feedInfo keyword
    = match parseURL w (FeedInfo.url feedInfo) with
      | Some items => keptFrom w h feedKey feedInfo keyword O items
      | None => []
      end
    /\ (forall items,
          parseURL w (FeedInfo.url feedInfo) = Some items ->
          length (RSSNewsScraper.scrapeFromFeed w h feedKey feedInfo keyword)
          = length (List.filter (keptEntry h keyword) items))
    /\ (forall kw item,
          kw <> [] -> RSSNewsScraper.isValidNews h item = true ->
          (keptEntry h (Some kw) item = true
           <-> RSSNewsScraper.matchesKeyword h (entryTitle item) kw = true
               \/ (2 <= RSSNewsScraper.countKeywordOccurrences
                          h (entryDescription item) kw)%nat)
          /\ (RSSNewsScraper.matchesKeyword h (entryTitle item) kw = false ->
              (RSSNewsScraper.countKeywordOccurrences
                 h (entryDescription item) kw <= 1)%nat ->
              keptEntry h (Some kw) item = false))
    /\ map (RSSNewsScraper.isValidNews latin) filterFeed
       = [true; true; true; false]
    /\ map (keptEntry latin (Some (js "dolar"))) filterFeed
       = [true; true; false; false]
    /\ map NewsItem.url
           (RSSNewsScraper.scrapeFromFeed
              (worldWith ntvEkonomi filterFeed) latin (js "ntv_ekonomi")
              (FeedInfo.mk (js ntvEkonomi) (js "Ekonomi") (js "NTV"))
              (Some (js "dolar")))
       = [Some (js "https://example.com/1"); Some (js "https://example.com/2")].
Proof.
  intros w h feedKey feedInfo keyword.
  assert (Heq : RSSNewsScraper.scrapeFromFeed w h feedKey feedInfo keyword
                = match parseURL w (FeedInfo.url feedInfo) with
                  | Some items => keptFrom w h feedKey feedInfo keyword O items
                  | None => []
                  end).
  { unfold RSSNewsScraper.scrapeFromFeed.
    destruct (parseURL w (FeedInfo.url feedInfo));
      [apply scrapeItems_kept | reflexivity]. }
  split; [exact Heq |]. split; [| split].
  - intros items Hitems. rewrite Heq, Hitems. apply keptFrom_length.
  - intros kw item Hkw Hvalid. unfold keptEntry. rewrite Hvalid.
    cbn [RSSNewsScraper.present andb].
    rewrite (proj2 (truthy_true kw) Hkw).
    rewrite orb_true_iff, Nat.leb_le. split; [reflexivity |].
    intros Hm Hc. rewrite Hm. cbn [orb]. apply Nat.leb_gt. lia.
  - repeat split; vm_compute; reflexivity.
Qed.

(** * The content validator ([isValidNews]) *)

Lemma isValidNews_eq (h : JsHost) (item : FeedItem.t) :
  RSSNewsScraper.isValidNews h item
  = negb (existsb (fun spam => includes (combinedText h item) spam)
                  RSSNewsScraper.spamKeywords)
    && (15 <=? length (normalizedTitle h item))%nat.
Proof.
  unfold RSSNewsScraper.isValidNews, combinedText, normalizedTitle.
  destruct (existsb _ _); [reflexivity |]. cbn [negb andb].
  destruct (Nat.ltb_spec (length (normalizeText h (or_empty (FeedItem.title item))))
                         15) as [Hlt | Hge].
  - symmetry. apply Nat.leb_gt. exact Hlt.
  - symmetry. apply Nat.leb_le. exact Hge.
Qed.

(** C5, on [src/scrapers/sites/RSSNewsScraper.js]. The validator of this
    file checks the spam terms and the lower bound on the title's length,
    and nothing else: the title [Tüm hakları saklıdır © 2024], which holds
    the footer phrase [tüm hakları saklıdır], is accepted, where the
    validator of the second copy rejects it. Both accept the title [Merkez
    Bankası faiz kararını açıkladı]. *)
Theorem isValidNews_accepts_footer_title :
  (forall (h : JsHost) (item : FeedItem.t),
      RSSNewsScraper.isValidNews h item
      = negb (existsb (fun spam => includes (combinedText h item) spam)
                      RSSNewsScraper.spamKeywords)
        && (15 <=? length (normalizedTitle h item))%nat)
  /\ includes (normalizedTitle latin footerItem) (js "tüm hakları saklıdır")
     = true
  /\ In (js "tüm hakları saklıdır") RSSNewsScraper2.invalidPatterns
  /\ RSSNewsScraper.isValidNews latin footerItem = true
  /\ RSSNewsScraper2.isValidNews latin footerItem = false
  /\ RSSNewsScraper.isValidNews latin centralBankItem = true
  /\ RSSNewsScraper2.isValidNews latin centralBankItem = true.
Proof.
  split; [exact isValidNews_eq |].
  split; [vm_compute; reflexivity |].
  split; [left; reflexivity |].
  repeat split; vm_compute; reflexivity.
Qed.

(** C6, on [src/scrapers/sites/RSSNewsScraper.js]. The validator of this
    file rejects every title of fewer than 15 code units (after
    lower-casing and trimming) and has no upper bound: a title of 301
    code units is accepted, where the validator of the second copy
    rejects it. *)
Theorem isValidNews_accepts_long_title :
  (forall (h : JsHost) (item : FeedItem.t),
      (length (normalizedTitle h item) < 15)%nat ->
      RSSNewsScraper.isValidNews h item = false)
  /\ (forall (h : JsHost) (item : FeedItem.t),
        (15 <= length (normalizedTitle h item))%nat ->
        RSSNewsScraper.isValidNews h item
        = negb (existsb (fun spam => includes (combinedText h item) spam)
                        RSSNewsScraper.spamKeywords))
  /\ length (normalizedTitle latin (titleOfLength 301)) = 301%nat
  /\ RSSNewsScraper.isValidNews latin (titleOfLength 301) = true
  /\ RSSNewsScraper2.isValidNews latin (titleOfLength 301) = false
  /\ RSSNewsScraper.isValidNews latin (titleOfLength 300) = true
  /\ RSSNewsScraper2.isValidNews latin (titleOfLength 300) = true.
Proof.
  split; [| split].
  - intros h item Hlen. rewrite isValidNews_eq.
    rewrite (proj2 (Nat.leb_gt _ _) Hlen). apply andb_false_r.
  - intros h item Hlen. rewrite isValidNews_eq.
    rewrite (proj2 (Nat.leb_le _ _) Hlen). apply andb_true_r.
  - repeat split; vm_compute; reflexivity.
Qed.

(** The validator of the second copy ([src/routes/index.js], lines
    283-324): what it accepts has no spam term, a title of 15 to 300 code
    units and no boilerplate phrase in the title. *)
Lemma isValidNews2_accepts (h : JsHost) (item : FeedItem.t) :
  RSSNewsScraper2.isValidNews h item = true ->
  existsb (fun spam => includes (combinedText h item) spam)
          RSSNewsScraper2.spamKeywords = false
  /\ (15 <= length (normalizedTitle h item) <= 300)%nat
  /\ existsb (fun pattern => includes (normalizedTitle h item) pattern)
             RSSNewsScraper2.invalidPatterns = false.
Proof.
  unfold RSSNewsScraper2.isValidNews.
  fold (normalizedTitle h item). fold (combinedText h item).
  destruct (existsb _ RSSNewsScraper2.spamKeywords); [discriminate |].
  destruct (Nat.ltb_spec (length (normalizedTitle h item)) 15);
    [discriminate |].
  destruct (Nat.ltb_spec 300 (length (normalizedTitle h item)));
    [discriminate |].
  destruct (existsb _ RSSNewsScraper2.invalidPatterns); [discriminate |].
  intros _. repeat split; lia.
Qed.

(** The answer of the second copy's validator depends on the description
    through the spam check only. *)
Lemma isValidNews2_description (h : JsHost) (item item' : FeedItem.t) :
  FeedItem.title item = FeedItem.title item' ->
  existsb (fun spam => includes (combinedText h item) spam)
          RSSNewsScraper2.spamKeywords = false ->
  existsb (fun spam => includes (combinedText h item') spam)
          RSSNewsScraper2.spamKeywords = false ->
  RSSNewsScraper2.isValidNews h item = RSSNewsScraper2.isValidNews h item'.
Proof.
  intros Ht Hs Hs'. unfold RSSNewsScraper2.isValidNews.
  fold (normalizedTitle h item). fold (combinedText h item).
  fold (normalizedTitle h item'). fold (combinedText h item').
  rewrite Hs, Hs'. unfold normalizedTitle. rewrite Ht. reflexivity.
Qed.

(** The validator of the second copy rejects every item whose
    lower-cased title holds a phrase of [invalidPatterns]; a phrase in the
    description alone changes nothing; the footer title of the
    specification is rejected, and the central-bank title is accepted,
    also with footer phrases in its description. *)
Theorem isValidNews2_boilerplate_titles :
  (forall (h : JsHost) (item : FeedItem.t) (pattern : jsstring),
      In pattern RSSNewsScraper2.invalidPatterns ->
      includes (normalizedTitle h item) pattern = true ->
      RSSNewsScraper2.isValidNews h item = false)
  /\ (forall (h : JsHost) (item item' : FeedItem.t),
        FeedItem.title item = FeedItem.title item' ->
        existsb (fun spam => includes (combinedText h item) spam)
                RSSNewsScraper2.spamKeywords = false ->
        existsb (fun spam => includes (combinedText h item') spam)
                RSSNewsScraper2.spamKeywords = false ->
        RSSNewsScraper2.isValidNews h item
        = RSSNewsScraper2.isValidNews h item')
  /\ RSSNewsScraper2.isValidNews latin footerItem = false
  /\ RSSNewsScraper2.isValidNews latin centralBankItem = true
  /\ RSSNewsScraper2.isValidNews latin footerInDescriptionItem = true.
Proof.
  split; [| split; [exact isValidNews2_description |]].
  - intros h item pattern Hin Hinc.
    destruct (RSSNewsScraper2.isValidNews h item) eqn:Hv; [| reflexivity].
    apply isValidNews2_accepts in Hv as [_ [_ Hb]].
    assert (existsb (fun pattern => includes (normalizedTitle h item) pattern)
                    RSSNewsScraper2.invalidPatterns = true) as Ht.
    { apply existsb_exists. exists pattern. split; assumption. }
    congruence.
  - repeat split; vm_compute; reflexivity.
Qed.

(** The validator of the second copy rejects every item whose title,
    lower-cased and trimmed, has fewer than 15 or more than 300 code
    units. *)
Theorem isValidNews2_title_length :
  (forall (h : JsHost) (item : FeedItem.t),
      (length (normalizedTitle h item) < 15)%nat
      \/ (300 < length (normalizedTitle h item))%nat ->
      RSSNewsScraper2.isValidNews h item = false)
  /\ RSSNewsScraper2.isValidNews latin (titleOfLength 14) = false
  /\ RSSNewsScraper2.isValidNews latin (titleOfLength 15) = true
  /\ RSSNewsScraper2.isValidNews latin (titleOfLength 300) = true
  /\ RSSNewsScraper2.isValidNews latin (titleOfLength 301) = false.
Proof.
  split.
  - intros h item Hlen.
    destruct (RSSNewsScraper2.isValidNews h item) eqn:Hv; [| reflexivity].
    apply isValidNews2_accepts in Hv as [_ [Hb _]]. lia.
  - repeat split; vm_compute; reflexivity.
Qed.

Lemma scoresOf_categories (h : JsHost) (title description : jsstring) :
  map fst (RSSNewsScraper2.scoresOf h title description)
  = map fst RSSNewsScraper2.categoryKeywords.
Proof.
  unfold RSSNewsScraper2.scoresOf. rewrite map_map. apply map_ext.
  intros [c kws]. reflexivity.
Qed.

Lemma detectCategory_range (h : JsHost) (title description : jsstring) :
  In (RSSNewsScraper2.detectCategory h title description)
     (js "Genel" :: map fst RSSNewsScraper2.categoryKeywords).
Proof.
  destruct (detectCategory_cases h title description)
    as [[-> _] | [l1 [s [l2 [Hs _]]]]]; [left; reflexivity | right].
  rewrite <- (scoresOf_categories h title description), Hs, map_app.
  apply in_or_app. right. left. reflexivity.
Qed.

Lemma googleEntries2_category (w : World) (h : JsHost) (feedUrl : jsstring)
  (i : nat) (items : list FeedItem.t) (x : NewsItem.t) :
  In x (RSSNewsScraper2.googleEntries w h feedUrl i items) ->
  In (NewsItem.category x) (js "Genel" :: map fst RSSNewsScraper2.categoryKeywords).
Proof.
  revert i. induction items as [|item rest IH]; intros i;
    cbn [RSSNewsScraper2.googleEntries]; [intros [] |].
  intros Hx. apply in_app_or in Hx as [Hx | Hx]; [| eapply IH, Hx].
  unfold RSSNewsScraper2.googleEntry in Hx.
  destruct (negb (RSSNewsScraper2.isValidNews h _)); [destruct Hx |].
  destruct Hx as [<- | []]. apply detectCategory_range.
Qed.

(** In the second copy, an item of the Google News channel carries the
    category the classifier detects, one of the eight of the dictionary
    or [Genel], and so never the category [Google News] that the scoring
    of [liveSearch] tests before it adds 5. *)
Theorem searchGoogleNews2_category :
  forall (w : World) (h : JsHost) (keyword : jsstring),
    Forall (fun x =>
              In (NewsItem.category x)
                 (js "Genel" :: map fst RSSNewsScraper2.categoryKeywords)
              /\ str_eqb (NewsItem.category x) (js "Google News") = false)
           (RSSNewsScraper2.searchGoogleNews w h keyword).
Proof.
  intros w h keyword. apply List.Forall_forall. intros x Hx.
  unfold RSSNewsScraper2.searchGoogleNews in Hx.
  apply uniqueByUrl_In in Hx. apply in_flat_map in Hx as [term [_ Hx]].
  destruct (parseURL w (RSSNewsScraper.googleNewsUrl w term)); [| destruct Hx].
  apply googleEntries2_category in Hx. split; [exact Hx |].
  assert (Hall : forallb (fun c => negb (str_eqb c (js "Google News")))
                         (js "Genel" :: map fst RSSNewsScraper2.categoryKeywords)
                 = true) by (vm_compute; reflexivity).
  rewrite forallb_forall in Hall. apply negb_true_iff, Hall, Hx.
Qed.

(** * The persistence adapter ([saveNews]) *)

Section Counters.

Import ScraperService.

Context {Store : Type} (updateOne : Handle Store).

(** One turn of the loop counts the item once, under the outcome of the
    handle's answer. *)
Lemma saveOne_outcome (clock : nat -> Z) (result : Result) (db : Store)
  (newsItem : NewsInput) :
  let o := classify (url newsItem)
                    (fst (updateOne db (url newsItem) (updateFor clock newsItem))) in
  let result' := fst (saveOne updateOne clock result db newsItem) in
  saved result' = (saved result + if isInserted o then 1 else 0)%nat
  /\ duplicates result' = (duplicates result + if isDuplicate o then 1 else 0)%nat
  /\ errors result' = errors result ++ failureOf o
  /\ snd (saveOne updateOne clock result db newsItem)
     = snd (updateOne db (url newsItem) (updateFor clock newsItem)).
Proof.
  unfold saveOne, classify.
  destruct (updateOne db (url newsItem) (updateFor clock newsItem))
    as [[error | updateResult] db']; cbn [fst snd].
  - destruct (bool_decide (code error = Some 11000%Z)); cbn;
      repeat split; try lia; rewrite ?app_nil_r; reflexivity.
  - destruct (0 <? upsertedCount updateResult)%nat; cbn;
      repeat split; try lia; rewrite ?app_nil_r; reflexivity.
Qed.

Lemma saveLoop_outcomes (clock : nat -> nat -> Z) (i : nat)
  (newsArray : list NewsInput) (result : Result) (db : Store) :
  let trace := outcomes updateOne clock i newsArray db in
  let result' := fst (saveLoop updateOne clock i newsArray result db) in
  length trace = length newsArray
  /\ saved result' = (saved result + length (List.filter isInserted trace))%nat
  /\ duplicates result'
     = (duplicates result + length (List.filter isDuplicate trace))%nat
  /\ errors result' = errors result ++ flat_map failureOf trace.
Proof.
  cbv zeta. revert i result db.
  induction newsArray as [|newsItem rest IH]; intros i result db.
  - cbn. rewrite app_nil_r. repeat split; lia.
  - cbn [saveLoop outcomes].
    pose proof (saveOne_outcome (clock i) result db newsItem) as Hone.
    cbv zeta in Hone.
    destruct (saveOne updateOne (clock i) result db newsItem) as [result1 db1].
    destruct (updateOne db (url newsItem) (updateFor (clock i) newsItem))
      as [answer db'].
    cbn [fst snd] in Hone. destruct Hone as [Hs [Hd [He ->]]].
    specialize (IH (S i) result1 db'). destruct IH as [Hl [Hs' [Hd' He']]].
    cbn [length List.filter flat_map].
    rewrite Hl, Hs', Hd', He', Hs, Hd, He.
    destruct (classify (url newsItem) answer); cbn;
      rewrite <- ?app_assoc; repeat split; cbn; lia.
Qed.

End Counters.

(** C10. For every persistence handle, every clock and every array of
    items, [saveNews] returns, and each item is counted exactly once: as
    saved when the handle reports an upsert, as a duplicate when it
    reports none or fails with code 11000, and in the error list, with
    the item's url and the error's message, when it fails otherwise. So
    the three counters add up to the number of items. A handle that
    inserts the first of four items, fails on the second, reports a
    unique-key violation for the third and matches the fourth gives one
    saved item, two duplicates and one recorded error. *)
Theorem saveNews_counts_every_item :
  forall (Store : Type) (updateOne : ScraperService.Handle Store)
         (clock : nat -> nat -> Z) (newsArray : list ScraperService.NewsInput)
         (db : Store),
    let result := fst (ScraperService.saveNews updateOne clock newsArray db) in
    let trace := outcomes updateOne clock O newsArray db in
    length trace = length newsArray
    /\ ScraperService.saved result = length (List.filter isInserted trace)
    /\ ScraperService.duplicates result = length (List.filter isDuplicate trace)
    /\ ScraperService.errors result = flat_map failureOf trace
    /\ (ScraperService.saved result + ScraperService.duplicates result
        + length (ScraperService.errors result))%nat
       = length newsArray
    /\ (forall url error,
          classify url (inl error)
          = if bool_decide (ScraperService.code error = Some 11000%Z)
            then Duplicate
            else Failed url (ScraperService.message error))
    /\ fst (ScraperService.saveNews scriptedHandle (fun _ _ => 0%Z)
                                    scriptedNews tt)
       = {| ScraperService.saved := 1;
            ScraperService.duplicates := 2;
            ScraperService.errors :=
              [(js "https://example.com/bad", js "Validation failed")] |}.
Proof.
  intros Store updateOne clock newsArray db. cbv zeta.
  assert (H : let trace := outcomes updateOne clock O newsArray db in
              let result := fst (ScraperService.saveNews updateOne clock newsArray db) in
              length trace = length newsArray
              /\ ScraperService.saved result = length (List.filter isInserted trace)
              /\ ScraperService.duplicates result
                 = length (List.filter isDuplicate trace)
              /\ ScraperService.errors result = flat_map failureOf trace).
  { unfold ScraperService.saveNews. destruct newsArray as [|newsItem rest].
    - cbn. repeat split.
    - apply (saveLoop_outcomes updateOne clock O (newsItem :: rest)
                               ScraperService.emptyResult db). }
  cbv zeta in H. destruct H as [Hl [Hs [Hd He]]].
  split; [exact Hl |]. split; [exact Hs |]. split; [exact Hd |].
  split; [exact He |].
  split; [| split; [reflexivity | vm_compute; reflexivity]].
  rewrite Hs, Hd, He, <- Hl.
  generalize (outcomes updateOne clock O newsArray db) as trace.
  induction trace as [|o trace IH]; [reflexivity |].
  destruct o; cbn in *; lia.
Qed.

Section Upsert.

Import ScraperService.

Variable timestamp : nat -> Z.


Lemma upsert_answer (db : Collection) (u : jsstring) (upd : Update) :
  fst (upsert timestamp db u upd)
  = inr {| upsertedCount := match docs db !! u with Some _ => 0 | None => 1 end |}.
Proof. unfold upsert. destruct (docs db !! u); reflexivity. Qed.












End Upsert.



(** * The classifier of the Bloomberg scraper *)

Section FirstMatch.

Context {A : Type} (f : A -> bool).

(** [find] answers with the first element that passes the test. *)
Lemma find_first (l : list A) (x : A) :
  List.find f l = Some x ->
  exists before after,
    l = before ++ x :: after
    /\ f x = true
    /\ forall y, In y before -> f y = false.
Proof.
  induction l as [|y l IH]; [discriminate |]. cbn [List.find].
  destruct (f y) eqn:Hy.
  - intros Heq. injection Heq as <-. exists [], l.
    split; [reflexivity |]. split; [exact Hy | intros z []].
  - intros Hfind. apply IH in Hfind as [before [after [-> [Hx Hb]]]].
    exists (y :: before), after. split; [reflexivity |].
    split; [exact Hx |]. intros z [<- | Hz]; [exact Hy | apply Hb, Hz].
Qed.

Lemma find_none (l : list A) :
  List.find f l = None -> forall y, In y l -> f y = false.
Proof.
  induction l as [|y l IH]; [intros _ z [] |]. cbn [List.find].
  destruct (f y) eqn:Hy; [discriminate |].
  intros Hfind z [<- | Hz]; [exact Hy | apply IH; assumption].
Qed.

End FirstMatch.


(** [BloombergScraper.detectCategory] answers with the first
    category, in the order [finans], [teknoloji], [ekonomi], [politika],
    [spor] of its dictionary, one of whose keywords occurs in the
    lower-cased title and summary: no category before it has a keyword in
    the text. When no category has one it answers [finans]. So [Futbol ve
    teknoloji] is classified [teknoloji] and [Dolar ve futbol] is
    classified [finans], whatever stands first in the text. *)
Theorem bloomberg_detectCategory_first_match :
  map fst BloombergScraper.categoryKeywords
  = map js ["finans"; "teknoloji"; "ekonomi"; "politika"; "spor"]%string
  /\ (forall (h : JsHost) (title summary : jsstring),
        let text := toLowerCase h (title ++ js " " ++ summary) in
        let result := BloombergScraper.detectCategory h title summary in
        (exists before keywords after keyword,
            BloombergScraper.categoryKeywords
            = before ++ (result, keywords) :: after
            /\ In keyword keywords /\ includes text keyword = true
            /\ forall category' keywords' keyword',
                 In (category', keywords') before ->
                 In keyword' keywords' -> includes text keyword' = false)
        \/ (result = js "finans"
            /\ forall category keywords keyword,
                 In (category, keywords) BloombergScraper.categoryKeywords ->
                 In keyword keywords -> includes text keyword = false))
  /\ BloombergScraper.detectCategory latin (js "Futbol ve teknoloji") []
     = js "teknoloji"
  /\ BloombergScraper.detectCategory latin (js "Teknoloji ve futbol") []
     = js "teknoloji"
  /\ BloombergScraper.detectCategory latin (js "Dolar ve futbol") []
     = js "finans"
  /\ BloombergScraper.detectCategory latin (js "Futbol ve dolar") []
     = js "finans"
  /\ BloombergScraper.detectCategory latin (js "Futbol ve basketbol") []
     = js "spor".
Proof.
  split; [vm_compute; reflexivity |].
  split; [| repeat split; vm_compute; reflexivity].
  intros h title summary. cbv zeta. unfold BloombergScraper.detectCategory.
  set (text := toLowerCase h (title ++ js " " ++ summary)).
  destruct (List.find _ BloombergScraper.categoryKeywords)
    as [[category keywords]|] eqn:Hfind.
  - left. apply find_first in Hfind as [before [after [Hsplit [Hhit Hb]]]].
    apply existsb_exists in Hhit as [keyword [Hkw Hinc]].
    exists before, keywords, after, keyword.
    split; [exact Hsplit |]. split; [exact Hkw |]. split; [exact Hinc |].
    intros category' keywords' keyword' Hin Hkw'.
    specialize (Hb (category', keywords') Hin). cbv beta in Hb.
    destruct (includes text keyword') eqn:Hi; [| reflexivity].
    assert (Hex : existsb (fun keyword => includes text keyword) keywords' = true).
    { apply existsb_exists. eauto. }
    congruence.
  - right. split; [reflexivity |].
    intros category keywords keyword Hin Hkw.
    pose proof (find_none _ _ Hfind (category, keywords) Hin) as Hn.
    cbv beta in Hn.
    destruct (includes text keyword) eqn:Hi; [| reflexivity].
    assert (Hex : existsb (fun keyword => includes text keyword) keywords = true).
    { apply existsb_exists. eauto. }
    congruence.
Qed.

(** * Facts about the other methods *)

Section TrimFacts.

Lemma trimStart_fixed (c : N) (r : jsstring) :
  isWhiteSpace c = false -> trimStart (c :: r) = c :: r.
Proof. intros H. simpl. rewrite H. reflexivity. Qed.

Lemma trimStart_cases (s : jsstring) :
  trimStart s = []
  \/ exists c r, trimStart s = c :: r /\ isWhiteSpace c = false.
Proof.
  induction s as [|c s IH]; simpl; [left; reflexivity |].
  destruct (isWhiteSpace c) eqn:Hc; [exact IH |].
  right. exists c, s. auto.
Qed.

Lemma trimStart_idem (s : jsstring) : trimStart (trimStart s) = trimStart s.
Proof.
  destruct (trimStart_cases s) as [-> | [c [r [-> Hc]]]]; [reflexivity |].
  apply trimStart_fixed, Hc.
Qed.

Lemma trimStart_snoc (l : jsstring) (c : N) :
  isWhiteSpace c = false ->
  exists m, trimStart (l ++ [c]) = m ++ [c].
Proof.
  intros Hc. induction l as [|d l IH]; simpl.
  - rewrite Hc. exists []. reflexivity.
  - destruct (isWhiteSpace d); [exact IH |].
    exists (d :: l). reflexivity.
Qed.

Lemma trimEnd_idem (s : jsstring) : trimEnd (trimEnd s) = trimEnd s.
Proof.
  unfold trimEnd. rewrite rev_involutive, trimStart_idem. reflexivity.
Qed.

(** Trimming the end leaves a first character that is no white space in
    its place. *)
Lemma trimEnd_head (c : N) (r : jsstring) :
  isWhiteSpace c = false -> exists r', trimEnd (c :: r) = c :: r'.
Proof.
  intros Hc. unfold trimEnd. simpl.
  destruct (trimStart_snoc (rev r) c Hc) as [m ->].
  rewrite rev_app_distr. simpl. eauto.
Qed.

Lemma trim_cases (s : jsstring) :
  trim s = [] \/ exists c r, trim s = c :: r /\ isWhiteSpace c = false.
Proof.
  unfold trim.
  destruct (trimStart_cases s) as [-> | [c [r [-> Hc]]]]; [left; reflexivity |].
  right. destruct (trimEnd_head c r Hc) as [r' ->]. eauto.
Qed.

Lemma trimStart_trim (s : jsstring) : trimStart (trim s) = trim s.
Proof.
  destruct (trim_cases s) as [-> | [c [r [-> Hc]]]]; [reflexivity |].
  apply trimStart_fixed, Hc.
Qed.

Lemma trimEnd_trim (s : jsstring) : trimEnd (trim s) = trim s.
Proof. unfold trim. apply trimEnd_idem. Qed.

Lemma trim_idem (s : jsstring) : trim (trim s) = trim s.
Proof.
  unfold trim at 1. rewrite trimStart_trim. apply trimEnd_trim.
Qed.

Lemma trimStart_length (s : jsstring) : (length (trimStart s) <= length s)%nat.
Proof.
  induction s as [|c s IH]; simpl; [lia |].
  destruct (isWhiteSpace c); simpl; lia.
Qed.

Lemma trim_length (s : jsstring) : (length (trim s) <= length s)%nat.
Proof.
  unfold trim, trimEnd. rewrite length_rev.
  etransitivity; [apply trimStart_length |]. rewrite length_rev.
  apply trimStart_length.
Qed.

End TrimFacts.

Section UniqFacts.

Lemma uniqStrings_In (x : jsstring) (l seen : list jsstring) :
  In x (uniqStrings seen l) <-> In x l /\ ~ In x seen.
Proof.
  revert seen. induction l as [|s l IH]; intros seen; simpl; [tauto |].
  destruct (existsb (str_eqb s) seen) eqn:He.
  - apply existsb_exists in He as [y [Hy Hsy]]. apply str_eqb_eq in Hsy.
    subst y. rewrite IH. split; [tauto |].
    intros [[-> | Hx] Hn]; [contradiction | tauto].
  - assert (Hs : ~ In s seen).
    { intros Hin. apply not_true_iff_false in He. apply He.
      apply existsb_exists. exists s. split; [exact Hin |].
      apply str_eqb_eq. reflexivity. }
    simpl. rewrite IH. simpl. split.
    + intros [<- | [Hx Hn]]; [tauto |]. tauto.
    + intros [[<- | Hx] Hn]; [tauto |].
      destruct (decide (s = x)) as [-> | Hne]; [tauto |]. right. tauto.
Qed.

Lemma uniqStrings_NoDup (l seen : list jsstring) : NoDup (uniqStrings seen l).
Proof.
  revert seen. induction l as [|s l IH]; intros seen; simpl;
    [apply NoDup_nil_2 |].
  destruct (existsb (str_eqb s) seen); [apply IH |].
  apply NoDup_cons_2; [| apply IH].
  rewrite list_elem_of_In, uniqStrings_In. simpl. tauto.
Qed.

Lemma uniqueByUrl_NoDup {A : Type} (url : A -> option jsstring)
  (l : list A) (seen : gset jsstring) :
  NoDup (map url (uniqueByUrl url seen l))
  /\ forall x u, In x (uniqueByUrl url seen l) -> url x = Some u -> u ∉ seen.
Proof.
  revert seen. induction l as [|y l IH]; intros seen; simpl.
  - split; [apply NoDup_nil_2 | intros x u []].
  - destruct (url y) as [v|] eqn:Hv; [| apply IH].
    destruct (truthy v && negb (bool_decide (v ∈ seen))) eqn:Hc; [| apply IH].
    apply andb_true_iff in Hc as [_ Hc]. apply negb_true_iff in Hc.
    apply bool_decide_eq_false in Hc.
    destruct (IH ({[v]} ∪ seen)) as [Hnd Hout]. split.
    + simpl. apply NoDup_cons_2; [| exact Hnd].
      rewrite list_elem_of_In, in_map_iff. intros [x [Hx Hin]].
      rewrite Hv in Hx. apply (Hout x v Hin Hx).
      apply elem_of_union_l, elem_of_singleton. reflexivity.
    + intros x u [<- | Hin] Hu.
      * congruence.
      * pose proof (Hout x u Hin Hu) as Hn.
        rewrite not_elem_of_union in Hn. tauto.
Qed.

Lemma uniqueByUrl_length {A : Type} (url : A -> option jsstring)
  (l : list A) (seen : gset jsstring) :
  (length (uniqueByUrl url seen l) <= length l)%nat.
Proof.
  revert seen. induction l as [|y l IH]; intros seen; simpl; [lia |].
  destruct (url y) as [v|]; [| pose proof (IH seen); lia].
  destruct (truthy v && negb (bool_decide (v ∈ seen))); simpl.
  - pose proof (IH ({[v]} ∪ seen)). lia.
  - pose proof (IH seen). lia.
Qed.

Lemma getSynonyms_head (h : JsHost) (keyword : jsstring) :
  exists rest,
    RSSNewsScraper.getSynonyms h keyword = normalizeText h keyword :: rest.
Proof.
  unfold RSSNewsScraper.getSynonyms, getSynonymsOf. cbv zeta.
  cbn [app uniqStrings existsb]. eauto.
Qed.

End UniqFacts.

(** [getSynonyms]: the list begins with the normalized keyword and
    has no repetition; it holds, besides the keyword, the key and the
    values of every group of the table that names the keyword, and
    nothing else. So a keyword outside the table is its own only synonym,
    and synonymy is symmetric: a synonym that is already in normal form
    has the keyword among its own synonyms.
    The synonyms of [usd] are [usd], [dolar], [amerikan dolari], [dolarin]
    and [dolarda]; those of [ Deprem ] are [deprem] alone. *)
Theorem getSynonyms_groups (h : JsHost) (keyword : jsstring) :
  (let k := normalizeText h keyword in
  let named (s : jsstring) (group : jsstring * list jsstring) :=
    s = fst group \/ In s (snd group) in
  (exists rest, RSSNewsScraper.getSynonyms h keyword = k :: rest)
  /\ NoDup (RSSNewsScraper.getSynonyms h keyword)
  /\ (forall s, In s (RSSNewsScraper.getSynonyms h keyword)
                <-> s = k \/ exists group, In group RSSNewsScraper.synonyms
                                           /\ named k group /\ named s group)
  /\ ((forall group, In group RSSNewsScraper.synonyms -> ~ named k group) ->
      RSSNewsScraper.getSynonyms h keyword = [k])
  /\ (forall s, In s (RSSNewsScraper.getSynonyms h keyword) ->
                normalizeText h s = s ->
                In k (RSSNewsScraper.getSynonyms h s)))
  /\ RSSNewsScraper.getSynonyms latin (js "usd")
     = map js ["usd"; "dolar"; "amerikan dolari"; "dolarin"; "dolarda"]%string
  /\ RSSNewsScraper.getSynonyms latin (js " Deprem ") = [js "deprem"].
Proof.
  split.
  {
  intros k named.
  assert (Hmem : forall kw s,
             In s (RSSNewsScraper.getSynonyms h kw)
             <-> s = normalizeText h kw
                 \/ exists group, In group RSSNewsScraper.synonyms
                                  /\ named (normalizeText h kw) group
                                  /\ named s group).
  { intros kw s. unfold RSSNewsScraper.getSynonyms, getSynonymsOf. cbv zeta.
    rewrite uniqStrings_In. cbn [app In]. rewrite in_flat_map. split.
    - intros [[Heq | [[key values] [Hg Hs]]] _]; [left; auto |].
      right. exists (key, values). split; [exact Hg |].
      destruct (str_eqb key (normalizeText h kw)
                || existsb (fun v => str_eqb v (normalizeText h kw)) values)
        eqn:Hc; [| destruct Hs].
      split.
      + apply orb_true_iff in Hc as [Hc | Hc].
        * apply str_eqb_eq in Hc. left. simpl. congruence.
        * apply existsb_exists in Hc as [v [Hv Hvk]]. apply str_eqb_eq in Hvk.
          right. simpl. congruence.
      + destruct Hs as [<- | Hs]; [left | right]; auto.
    - intros H. split; [| tauto].
      destruct H as [-> | [[key values] [Hg [Hk Hs]]]]; [left; reflexivity |].
      right. exists (key, values). split; [exact Hg |].
      replace (str_eqb key (normalizeText h kw)
               || existsb (fun v => str_eqb v (normalizeText h kw)) values)
        with true.
      + destruct Hs as [-> | Hs]; [left | right]; auto.
      + symmetry. apply orb_true_iff. destruct Hk as [Hk | Hk]; simpl in Hk.
        * left. apply str_eqb_eq. congruence.
        * right. apply existsb_exists. exists (normalizeText h kw).
          split; [exact Hk | apply str_eqb_eq; reflexivity]. }
  assert (Hhead : exists rest, RSSNewsScraper.getSynonyms h keyword = k :: rest).
  { unfold RSSNewsScraper.getSynonyms, getSynonymsOf. cbv zeta.
    fold k. cbn [app uniqStrings existsb]. eauto. }
  assert (Hnd : NoDup (RSSNewsScraper.getSynonyms h keyword)).
  { apply uniqStrings_NoDup. }
  split; [exact Hhead |]. split; [exact Hnd |].
  split; [intros s; apply Hmem |]. split.
  - intros Hnone. destruct Hhead as [rest Heq]. rewrite Heq. f_equal.
    destruct rest as [|s rest]; [reflexivity |]. exfalso.
    assert (Hs : In s (RSSNewsScraper.getSynonyms h keyword)).
    { rewrite Heq. right. left. reflexivity. }
    apply Hmem in Hs as [Hs | [group [Hg [Hk _]]]].
    + rewrite Heq in Hnd. apply NoDup_cons_1_1 in Hnd. apply Hnd.
      rewrite list_elem_of_In. left. subst s. reflexivity.
    + exact (Hnone group Hg Hk).
  - intros s Hs Hnorm. apply Hmem. rewrite Hnorm.
    apply Hmem in Hs as [Hs | [group [Hg [Hk Hsg]]]].
    + left. subst s. reflexivity.
    + right. exists group. auto.
  }
  split; vm_compute; reflexivity.
Qed.

Section ItemFacts.

Import RSSNewsScraper.

Variable w : World.
Variable h : JsHost.

Lemma fixUrl_None (url : option jsstring) (feedUrl : jsstring) :
  fixUrl w url feedUrl = None <-> present url = None.
Proof.
  unfold fixUrl, present. destruct url as [u|]; [| tauto].
  destruct (truthy u); cbn [negb]; [| tauto].
  destruct (startsWith u (js "http://") || startsWith u (js "https://")).
  - split; discriminate.
  - destruct (hrefOf w u feedUrl); split; discriminate.
Qed.

Lemma fixUrl_absolute (u feedUrl : jsstring) :
  startsWith u (js "http://") = true \/ startsWith u (js "https://") = true ->
  fixUrl w (Some u) feedUrl = Some u.
Proof.
  intros Habs. unfold fixUrl.
  assert (Ht : truthy u = true).
  { destruct u; [destruct Habs as [H | H]; discriminate H | reflexivity]. }
  rewrite Ht. cbn [negb].
  replace (startsWith u (js "http://") || startsWith u (js "https://"))
    with true; [reflexivity |].
  symmetry. apply orb_true_iff. exact Habs.
Qed.

Lemma description_bound (s : jsstring) :
  (length (trim (substring0 500 s)) <= 500)%nat.
Proof.
  etransitivity; [apply trim_length |]. unfold substring0.
  rewrite length_firstn. lia.
Qed.

Lemma scrapeItems_from (feedKey : jsstring) (feedInfo : FeedInfo.t)
  (keyword : option jsstring) (i : nat) (items : list FeedItem.t)
  (x : NewsItem.t) :
  In x (scrapeItems w h feedKey feedInfo keyword i items) ->
  exists j item, nth_error items j = Some item
                 /\ isValidNews h item = true
                 /\ x = newsItemOf w feedKey feedInfo (i + j) item.
Proof.
  revert i. induction items as [|item rest IH]; intros i; cbn [scrapeItems];
    [intros [] |].
  assert (Hrest : In x (scrapeItems w h feedKey feedInfo keyword (S i) rest) ->
                  exists j it, nth_error (item :: rest) j = Some it
                               /\ isValidNews h it = true
                               /\ x = newsItemOf w feedKey feedInfo (i + j) it).
  { intros Hx. apply IH in Hx as [j [it [Hj [Hv Hx]]]].
    exists (S j), it. split; [exact Hj |]. split; [exact Hv |].
    rewrite Hx. f_equal. lia. }
  destruct (isValidNews h item) eqn:Hv; cbn [negb]; [| exact Hrest].
  match goal with |- context [if ?c then _ else _] => destruct c end;
    [exact Hrest |].
  intros [<- | Hx]; [| exact (Hrest Hx)].
  exists O, item. split; [reflexivity |]. split; [exact Hv |].
  f_equal. lia.
Qed.

Lemma scrapeItems_length (feedKey : jsstring) (feedInfo : FeedInfo.t)
  (keyword : option jsstring) (i : nat) (items : list FeedItem.t) :
  (length (scrapeItems w h feedKey feedInfo keyword i items) <= length items)%nat.
Proof.
  revert i. induction items as [|item rest IH]; intros i; cbn [scrapeItems];
    [simpl; lia |].
  pose proof (IH (S i)) as Hle.
  destruct (negb (isValidNews h item)); [simpl; lia |].
  match goal with |- context [if ?c then _ else _] => destruct c end;
    simpl; lia.
Qed.

Lemma googleEntries_fields (feedUrl : jsstring) (i : nat)
  (items : list FeedItem.t) (x : NewsItem.t) :
  In x (googleEntries w h feedUrl i items) ->
  NewsItem.category x = js "Google News"
  /\ NewsItem.feedKey x = js "google_news"
  /\ (length (NewsItem.description x) <= 500)%nat
  /\ exists item, In item items /\ NewsItem.url x = FeedItem.link item.
Proof.
  revert i. induction items as [|item rest IH]; intros i; cbn [googleEntries];
    [intros [] |].
  intros Hx. apply in_app_or in Hx as [Hx | Hx].
  - unfold googleEntry in Hx.
    destruct (negb (isValidNews h _)); [destruct Hx |].
    destruct Hx as [<- | []]. cbn.
    split; [reflexivity |]. split; [reflexivity |].
    split; [apply description_bound |].
    exists item. split; [left |]; reflexivity.
  - apply IH in Hx as [H1 [H2 [H3 [it [Hit Hu]]]]].
    repeat split; auto. exists it. split; [right |]; assumption.
Qed.

Lemma googleEntries_length (feedUrl : jsstring) (i : nat)
  (items : list FeedItem.t) :
  (length (googleEntries w h feedUrl i items) <= length items)%nat.
Proof.
  revert i. induction items as [|item rest IH]; intros i; cbn [googleEntries];
    [simpl; lia |].
  rewrite length_app. pose proof (IH (S i)) as Hle.
  unfold googleEntry. destruct (negb (isValidNews h _)); simpl; lia.
Qed.

Lemma flat_map_length_le {A B : Type} (f : A -> list B) (n : nat) (l : list A) :
  (forall a, In a l -> (length (f a) <= n)%nat) ->
  (length (flat_map f l) <= n * length l)%nat.
Proof.
  induction l as [|a l IH]; intros Hf; simpl; [lia |].
  rewrite length_app.
  pose proof (Hf a (or_introl eq_refl)) as Ha.
  assert (Hl : (length (flat_map f l) <= n * length l)%nat).
  { apply IH. intros b Hb. apply Hf. right. exact Hb. }
  lia.
Qed.

End ItemFacts.

(** [searchGoogleNews]: at most the first three synonyms are looked
    up and at most fifteen entries are read for each, so at most 45 items
    come back; no two of them share a url and none lacks one; each carries
    the category [Google News] and the feed key [google_news], and a
    description of at most 500 code units. A search term whose feed cannot
    be fetched contributes nothing: when every fetch fails the result is
    empty.
    In [searchWorld] the keyword [dolar] finds two items, whose sources
    [Sozcu] and [NTV] are the last part of the feed's titles. *)
Theorem searchGoogleNews_results (w : World) (h : JsHost) (keyword : jsstring) :
  (let results := RSSNewsScraper.searchGoogleNews w h keyword in
  let searchTerms := firstn 3 (RSSNewsScraper.getSynonyms h keyword) in
  NoDup (map NewsItem.url results)
  /\ (forall x, In x results ->
        (exists u, NewsItem.url x = Some u /\ truthy u = true)
        /\ NewsItem.category x = js "Google News"
        /\ NewsItem.feedKey x = js "google_news"
        /\ (length (NewsItem.description x) <= 500)%nat)
  /\ (length results <= 15 * length searchTerms)%nat
  /\ (1 <= length searchTerms <= 3)%nat
  /\ ((forall term, In term searchTerms ->
         parseURL w (RSSNewsScraper.googleNewsUrl w term) = None) ->
      results = []))
  /\ map (fun x => (NewsItem.title x, NewsItem.source x))
         (RSSNewsScraper.searchGoogleNews searchWorld latin (js "dolar"))
     = [ (js "Dolar rekor tazeledi bugun", js "Sozcu");
         (js "Dolar kurunda son durum ne oldu", js "NTV") ].
Proof.
  split.
  {
  intros results searchTerms. subst results.
  unfold RSSNewsScraper.searchGoogleNews. cbv zeta. fold searchTerms.
  set (perTerm := fun term : jsstring => _).
  split; [apply uniqueByUrl_NoDup |]. split; [| split; [| split]].
  - intros x Hx. split; [eapply uniqueByUrl_truthy, Hx |].
    apply uniqueByUrl_In in Hx. apply in_flat_map in Hx as [term [_ Hx]].
    subst perTerm. cbv beta in Hx.
    destruct (parseURL w _); [| destruct Hx].
    apply googleEntries_fields in Hx as [H1 [H2 [H3 _]]]. auto.
  - etransitivity; [apply uniqueByUrl_length |].
    apply flat_map_length_le. intros term _. subst perTerm. cbv beta.
    destruct (parseURL w _) as [items|]; [| simpl; lia].
    etransitivity; [apply googleEntries_length |].
    rewrite length_firstn. lia.
  - subst searchTerms. rewrite length_firstn.
    destruct (getSynonyms_head h keyword) as [rest ->].
    cbn [length]. lia.
  - intros Hfail. replace (flat_map perTerm searchTerms) with (@nil NewsItem.t);
      [reflexivity |].
    symmetry.
    induction searchTerms as [|term terms IH]; [reflexivity |].
    simpl. rewrite IH by (intros t Ht; apply Hfail; right; exact Ht).
    subst perTerm. cbv beta. rewrite (Hfail term (or_introl eq_refl)).
    reflexivity.
  }
  vm_compute. reflexivity.
Qed.

(** [scrapeFromFeed]: every item carries the source, the category and
    the key of the feed it came from; its title and its description have
    no white space at either end, and the description has at most 500
    code units; it stems from an entry the validator accepts, and it has no
    url exactly when that entry has no link, while a link that begins with
    [http://] or [https://] is kept as it is. There is at most one item per
    entry, and a feed that cannot be fetched yields none. *)
Theorem scrapeFromFeed_items (w : World) (h : JsHost) (feedKey : jsstring)
  (feedInfo : FeedInfo.t) (keyword : option jsstring) :
  let results := RSSNewsScraper.scrapeFromFeed w h feedKey feedInfo keyword in
  (forall x, In x results ->
     NewsItem.source x = FeedInfo.source feedInfo
     /\ NewsItem.category x = FeedInfo.category feedInfo
     /\ NewsItem.feedKey x = feedKey
     /\ trim (NewsItem.title x) = NewsItem.title x
     /\ trim (NewsItem.description x) = NewsItem.description x
     /\ (length (NewsItem.description x) <= 500)%nat
     /\ exists items item,
          parseURL w (FeedInfo.url feedInfo) = Some items
          /\ In item items
          /\ RSSNewsScraper.isValidNews h item = true
          /\ NewsItem.title x = trim (or_empty (FeedItem.title item))
          /\ (NewsItem.url x = None
              <-> RSSNewsScraper.present (FeedItem.link item) = None)
          /\ (forall u, FeedItem.link item = Some u ->
                startsWith u (js "http://") = true
                \/ startsWith u (js "https://") = true ->
                NewsItem.url x = Some u))
  /\ (forall items, parseURL w (FeedInfo.url feedInfo) = Some items ->
        (length results <= length items)%nat)
  /\ (parseURL w (FeedInfo.url feedInfo) = None -> results = []).
Proof.
  intros results. subst results. unfold RSSNewsScraper.scrapeFromFeed.
  destruct (parseURL w (FeedInfo.url feedInfo)) as [items|] eqn:Hfeed.
  - split; [| split; [| discriminate]].
    + intros x Hx.
      apply scrapeItems_from in Hx as [j [item [Hj [Hv ->]]]].
      unfold RSSNewsScraper.newsItemOf. cbn.
      split; [reflexivity |]. split; [reflexivity |]. split; [reflexivity |].
      split; [apply trim_idem |]. split; [apply trim_idem |].
      split; [apply description_bound |].
      exists items, item. split; [reflexivity |].
      split; [eapply nth_error_In, Hj |]. split; [exact Hv |].
      split; [reflexivity |]. split; [apply fixUrl_None |].
      intros u Hu Habs. rewrite Hu. apply fixUrl_absolute, Habs.
    + intros items' Heq. injection Heq as <-. apply scrapeItems_length.
  - split; [intros x [] |]. split; [discriminate | reflexivity].
Qed.

Section FeedLoops.

Import RSSNewsScraper.

Variable w : World.
Variable h : JsHost.

Lemma firstn_chunks {A : Type} (n : nat) (l : list A) :
  firstn (5 * S n) l = firstn 5 l ++ firstn (5 * n) (skipn 5 l).
Proof.
  replace (5 * S n)%nat with (5 + 5 * n)%nat by lia.
  rewrite <- (firstn_skipn 5 l) at 1.
  destruct (Nat.le_gt_cases 5 (length l)) as [Hle | Hgt].
  - rewrite firstn_app, firstn_firstn, length_firstn.
    replace (Nat.min (5 + 5 * n) 5) with 5%nat by lia.
    replace (5 + 5 * n - Nat.min 5 (length l))%nat with (5 * n)%nat by lia.
    reflexivity.
  - rewrite (skipn_all2 l) by lia. rewrite firstn_nil, !app_nil_r.
    rewrite firstn_firstn. f_equal. lia.
Qed.

Lemma scrapeFeeds_app (keyword : option jsstring)
  (a b : list (jsstring * FeedInfo.t)) :
  scrapeFeeds w h keyword (a ++ b)
  = scrapeFeeds w h keyword a ++ scrapeFeeds w h keyword b.
Proof. unfold scrapeFeeds. apply flat_map_app. Qed.

Lemma scrapeFeeds_category (keyword : option jsstring)
  (feeds : list (jsstring * FeedInfo.t)) (x : NewsItem.t) :
  In x (scrapeFeeds w h keyword feeds) ->
  exists key info, In (key, info) feeds
                   /\ NewsItem.category x = FeedInfo.category info.
Proof.
  unfold scrapeFeeds. intros Hx.
  apply in_flat_map in Hx as [[key info] [Hin Hx]].
  exists key, info. split; [exact Hin |].
  eapply scrapeFromFeed_category, Hx.
Qed.

(** The chunks of five only pace the requests: the loop of
    [scrapeByCategory] reads every feed, in order. *)
Lemma collectChunks_all (keyword : option jsstring) :
  forall (fuel : nat) (feeds : list (jsstring * FeedInfo.t))
         (acc : list NewsItem.t),
    (length feeds <= fuel)%nat ->
    collectChunks w h keyword fuel feeds acc
    = acc ++ scrapeFeeds w h keyword feeds.
Proof.
  induction fuel as [|fuel IH]; intros feeds acc Hf.
  - destruct feeds; [| simpl in Hf; lia].
    simpl. rewrite app_nil_r. reflexivity.
  - destruct feeds as [|f feeds]; [simpl; rewrite app_nil_r; reflexivity |].
    cbn [collectChunks]. rewrite IH.
    + rewrite <- app_assoc. f_equal.
      change (flat_map _ (firstn 5 (f :: feeds)))
        with (scrapeFeeds w h keyword (firstn 5 (f :: feeds))).
      rewrite <- scrapeFeeds_app, firstn_skipn. reflexivity.
    + rewrite length_skipn. simpl in Hf |- *. lia.
Qed.

Lemma sortInsert_byDate_sorted (x : NewsItem.t) (l : list NewsItem.t) :
  NewsItem.publishedAt x <> None ->
  StronglySorted newerOrSame l ->
  Forall (fun y => NewsItem.publishedAt y <> None) l ->
  StronglySorted newerOrSame (sortInsert byDateDesc x l).
Proof.
  intros Hx. induction 1 as [|y l Hl IH Hy]; intros Hvalid; simpl.
  - repeat constructor.
  - apply Forall_cons_1 in Hvalid as [Hyv Hvalid].
    destruct (NewsItem.publishedAt x) as [tx|] eqn:Etx; [| congruence].
    destruct (NewsItem.publishedAt y) as [ty|] eqn:Ety; [| congruence].
    unfold byDateDesc at 1. rewrite Etx, Ety.
    destruct (tx - ty <? 0)%Z eqn:Hc.
    + apply Z.ltb_lt in Hc. constructor; [apply IH, Hvalid |].
      eapply Permutation_Forall; [symmetry; apply sortInsert_perm |].
      constructor; [| exact Hy].
      exists ty, tx. repeat split; auto. lia.
    + apply Z.ltb_ge in Hc. constructor; [constructor; assumption |].
      constructor; [exists tx, ty; repeat split; auto; lia |].
      eapply Forall_impl; [exact Hy |]. cbv beta.
      intros z [ty' [tz [H1 [H2 H3]]]].
      exists tx, tz. repeat split; auto.
      rewrite Ety in H1. injection H1 as <-. lia.
Qed.

Lemma sortBy_byDate_sorted (l : list NewsItem.t) :
  Forall (fun y => NewsItem.publishedAt y <> None) l ->
  StronglySorted newerOrSame (sortBy byDateDesc l).
Proof.
  induction l as [|x l IH]; intros Hvalid; simpl; [constructor |].
  apply Forall_cons_1 in Hvalid as [Hx Hvalid].
  apply sortInsert_byDate_sorted; [exact Hx | apply IH, Hvalid |].
  eapply Permutation_Forall; [symmetry; apply sortBy_perm | exact Hvalid].
Qed.

Lemma staggeredLoop_results (progressCallback : option (Progress -> bool))
  (total : nat) (feeds : list (jsstring * FeedInfo.t)) :
  forall (acc : list NewsItem.t) (processed : nat),
    fst (staggeredLoop w h progressCallback total feeds acc processed)
    = acc ++ scrapeFeeds w h None feeds.
Proof.
  induction feeds as [|[key info] feeds IH]; intros acc processed.
  - simpl. rewrite app_nil_r. reflexivity.
  - cbn [staggeredLoop]. destruct progressCallback as [callback|].
    + match goal with
      | |- context [staggeredLoop w h ?cb total feeds ?a ?p] =>
          specialize (IH a p); destruct (staggeredLoop w h cb total feeds a p)
      end.
      cbn [fst] in *. rewrite IH, <- app_assoc. reflexivity.
    + rewrite IH, <- app_assoc. reflexivity.
Qed.

Lemma staggeredLoop_calls (callback : Progress -> bool) (throws : bool)
  (feeds : list (jsstring * FeedInfo.t)) :
  (forall p, callback p = negb throws) ->
  forall (acc : list NewsItem.t) (processed : nat),
    snd (staggeredLoop w h (Some callback) (length rssFeeds) feeds acc processed)
    = imap (fun i f =>
              reportFor w h (processed + (if throws then 2 else 1) * i) f)
           feeds.
Proof.
  intros Hcb. induction feeds as [|[key info] feeds IH]; intros acc processed;
    [reflexivity |].
  cbn [staggeredLoop imap]. rewrite Hcb.
  match goal with
  | |- context [staggeredLoop w h ?cb ?t feeds ?a ?p] =>
      specialize (IH a p); destruct (staggeredLoop w h cb t feeds a p)
  end.
  cbn [snd] in *. rewrite IH. f_equal.
  - unfold reportFor. cbn [fst snd]. f_equal. lia.
  - apply imap_ext. intros i f _. cbv beta. unfold compose. f_equal.
    destruct throws; cbn [negb]; lia.
Qed.

Lemma staggeredLoop_keys (callback : Progress -> bool) (total : nat)
  (feeds : list (jsstring * FeedInfo.t)) :
  forall (acc : list NewsItem.t) (processed : nat),
    map progressFeedKey
        (snd (staggeredLoop w h (Some callback) total feeds acc processed))
    = map fst feeds.
Proof.
  induction feeds as [|[key info] feeds IH]; intros acc processed;
    [reflexivity |].
  cbn [staggeredLoop].
  match goal with
  | |- context [staggeredLoop w h ?cb ?t feeds ?a ?p] =>
      specialize (IH a p); destruct (staggeredLoop w h cb t feeds a p)
  end.
  cbn [snd map fst progressFeedKey] in *. rewrite IH. reflexivity.
Qed.

Lemma staggeredLoop_silent (total : nat)
  (feeds : list (jsstring * FeedInfo.t)) :
  forall (acc : list NewsItem.t) (processed : nat),
    snd (staggeredLoop w h None total feeds acc processed) = [].
Proof.
  induction feeds as [|[key info] feeds IH]; intros acc processed;
    [reflexivity |].
  cbn [staggeredLoop]. apply IH.
Qed.

(** The loop of [liveSearch] reads whole chunks of five feeds and stops
    after the first chunk that brings the results to [limit]. *)
Lemma gatherChunks_chunks (keyword : jsstring) (limit : nat) :
  forall (fuel : nat) (feeds : list (jsstring * FeedInfo.t))
         (acc : list NewsItem.t),
    (length feeds <= fuel)%nat ->
    exists n : nat,
      let visited m := acc ++ scrapeFeeds w h (Some keyword) (firstn (5 * m) feeds) in
      gatherChunks w h keyword limit fuel feeds acc = visited n
      /\ (n = O \/ (5 * (n - 1) < length feeds)%nat)
      /\ (feeds <> [] -> (1 <= n)%nat)
      /\ (forall m, (1 <= m < n)%nat -> (length (visited m) < limit)%nat)
      /\ ((5 * n < length feeds)%nat -> (limit <= length (visited n))%nat).
Proof.
  induction fuel as [|fuel IH]; intros feeds acc Hf.
  - destruct feeds; [| simpl in Hf; lia]. exists O. cbv zeta.
    simpl. rewrite app_nil_r. repeat split; try tauto; try lia.
  - destruct feeds as [|f feeds].
    { exists O. cbv zeta. simpl. rewrite app_nil_r.
      repeat split; try tauto; try lia. }
    cbn [gatherChunks].
    change (flat_map _ (firstn 5 (f :: feeds)))
      with (scrapeFeeds w h (Some keyword) (firstn 5 (f :: feeds))).
    set (first := scrapeFeeds w h (Some keyword) (firstn 5 (f :: feeds))).
    destruct (limit <=? length (acc ++ first))%nat eqn:Hlim.
    + apply Nat.leb_le in Hlim. exists 1%nat. cbv zeta.
      replace (5 * 1)%nat with 5%nat by lia. fold first.
      split; [reflexivity |]. split; [right; simpl; lia |].
      split; [lia |]. split; [intros m Hm; lia |]. intros _. exact Hlim.
    + apply Nat.leb_gt in Hlim.
      destruct (IH (skipn 5 (f :: feeds)) (acc ++ first)) as [n Hn].
      { rewrite length_skipn. simpl in Hf |- *. lia. }
      cbv zeta in Hn. destruct Hn as [Heq [Hmin [_ [Hbelow Hstop]]]].
      assert (Hvis : forall m,
                 (acc ++ first)
                 ++ scrapeFeeds w h (Some keyword)
                      (firstn (5 * m) (skipn 5 (f :: feeds)))
                 = acc ++ scrapeFeeds w h (Some keyword)
                            (firstn (5 * S m) (f :: feeds))).
      { intros m. rewrite firstn_chunks, scrapeFeeds_app, app_assoc.
        reflexivity. }
      assert (Hlen : length (skipn 5 (f :: feeds)) = (length (f :: feeds) - 5)%nat)
        by apply length_skipn.
      exists (S n). cbv zeta. rewrite Heq, Hvis.
      split; [reflexivity |]. split.
      { right. replace (S n - 1)%nat with n by lia.
        destruct Hmin as [-> | Hmin]; [simpl; lia | lia]. }
      split; [lia |]. split.
      * intros m Hm. destruct m as [|m]; [lia |].
        destruct m as [|m].
        -- replace (5 * 1)%nat with 5%nat by lia. fold first. exact Hlim.
        -- rewrite <- Hvis. apply Hbelow. lia.
      * intros Hmore. rewrite <- Hvis. apply Hstop. lia.
Qed.

End FeedLoops.

(** [scrapeByCategory]: the result is the first [limit] entries of
    the items of the feeds of that category, put in the order of the
    comparator: every item carries the category asked for, and when every
    item has a valid date the items stand from the newest to the oldest.
    The category is compared as written, so a category no feed carries
    (also one that differs from a feed's only by case) yields nothing. And
    nothing removes repeated urls: for the feed [dollarFeed], whose last
    two entries share a link, the three items come back. *)
Theorem scrapeByCategory_newest_first (w : World) (h : JsHost)
  (category : jsstring) (keyword : option jsstring) (limit : nat) :
  let categoryFeeds :=
    List.filter (fun '(_, info) => str_eqb (FeedInfo.category info) category)
                RSSNewsScraper.rssFeeds in
  let scraped := scrapeFeeds w h keyword categoryFeeds in
  let results := RSSNewsScraper.scrapeByCategory w h category keyword limit in
  (length results <= limit)%nat
  /\ (forall x, In x results -> NewsItem.category x = category)
  /\ (exists sorted,
        Permutation sorted scraped
        /\ results = firstn limit sorted
        /\ ((forall x, In x scraped -> NewsItem.publishedAt x <> None) ->
            StronglySorted newerOrSame sorted))
  /\ ((forall key info, In (key, info) RSSNewsScraper.rssFeeds ->
                        FeedInfo.category info <> category) ->
      results = [])
  /\ RSSNewsScraper.scrapeByCategory (worldWith ntvEkonomi dollarFeed) latin
                                     (js "ekonomi") None 50 = []
  /\ map NewsItem.url
         (RSSNewsScraper.scrapeByCategory (worldWith ntvEkonomi dollarFeed)
                                          latin (js "Ekonomi") None 50)
     = [Some (js "https://example.com/a"); Some (js "https://example.com/b");
        Some (js "https://example.com/b")].
Proof.
  intros categoryFeeds scraped results.
  assert (Hres : results = firstn limit (sortBy RSSNewsScraper.byDateDesc scraped)).
  { subst results scraped. unfold RSSNewsScraper.scrapeByCategory. cbv zeta.
    fold categoryFeeds. rewrite collectChunks_all by lia. reflexivity. }
  assert (Hcat : forall x, In x scraped -> NewsItem.category x = category).
  { intros x Hx. apply scrapeFeeds_category in Hx as [key [info [Hin Hc]]].
    subst categoryFeeds. apply List.filter_In in Hin as [_ Heq].
    apply str_eqb_eq in Heq. congruence. }
  split; [rewrite Hres, length_firstn; lia |]. split; [| split; [| split]].
  - intros x Hx. rewrite Hres in Hx. apply In_firstn in Hx. apply Hcat.
    eapply Permutation_in; [apply sortBy_perm | exact Hx].
  - exists (sortBy RSSNewsScraper.byDateDesc scraped).
    split; [apply sortBy_perm |]. split; [exact Hres |].
    intros Hvalid. apply sortBy_byDate_sorted.
    apply List.Forall_forall. exact Hvalid.
  - intros Hnone. rewrite Hres.
    replace scraped with (@nil NewsItem.t); [destruct limit; reflexivity |].
    subst scraped. replace categoryFeeds with (@nil (jsstring * FeedInfo.t));
      [reflexivity |].
    symmetry. subst categoryFeeds.
    destruct (List.filter _ _) as [|[key info] rest] eqn:Hf; [reflexivity |].
    exfalso. assert (Hin : In (key, info) ((key, info) :: rest)) by (left; reflexivity).
    rewrite <- Hf in Hin. apply List.filter_In in Hin as [Hin Heq].
    apply str_eqb_eq in Heq. exact (Hnone key info Hin Heq).
  - split; vm_compute; reflexivity.
Qed.

(** [scrapeAllStaggered]: every feed of the registry is read, in
    order and without a keyword, whatever the callback does; of the items
    with a url the first for each url is returned, the others and those
    without a url are dropped. The callback is called once per feed with
    the feed's key and the number of its items; when it always returns,
    [current] counts 1, 2, ... up to [total]; when it always throws,
    [current] counts 1, 3, 5, ..., so it goes beyond [total].
    When only the first feed answers, with the three entries of
    [dollarFeed], two items are returned and the first two reports are
    (1, 47, 3) and (2, 47, 0). *)
Theorem scrapeAllStaggered_every_feed (w : World) (h : JsHost)
  (progressCallback : option (RSSNewsScraper.Progress -> bool)) :
  (let results := RSSNewsScraper.scrapeAllStaggered w h progressCallback in
  let calls := RSSNewsScraper.progressCalls w h progressCallback in
  results = uniqueByUrl NewsItem.url ∅
                        (scrapeFeeds w h None RSSNewsScraper.rssFeeds)
  /\ NoDup (map NewsItem.url results)
  /\ (forall x, In x results ->
                exists u, NewsItem.url x = Some u /\ truthy u = true)
  /\ (forall callback, progressCallback = Some callback ->
        map RSSNewsScraper.progressFeedKey calls
        = map fst RSSNewsScraper.rssFeeds
        /\ ((forall p, callback p = true) ->
            calls = imap (fun i f => reportFor w h i f) RSSNewsScraper.rssFeeds)
        /\ ((forall p, callback p = false) ->
            calls = imap (fun i f => reportFor w h (2 * i) f)
                         RSSNewsScraper.rssFeeds))
  /\ (progressCallback = None -> calls = [])
  /\ length RSSNewsScraper.rssFeeds = 47%nat)
  /\ map NewsItem.url
         (RSSNewsScraper.scrapeAllStaggered (worldWith ntvEkonomi dollarFeed)
                                            latin None)
     = [Some (js "https://example.com/a"); Some (js "https://example.com/b")]
  /\ map progressLine
         (firstn 2 (RSSNewsScraper.progressCalls
                      (worldWith ntvEkonomi dollarFeed) latin
                      (Some ScraperService.progressLogger)))
     = [(1, 47, 3); (2, 47, 0)]%nat.
Proof.
  split.
  {
  intros results calls.
  assert (Hres : results = uniqueByUrl NewsItem.url ∅
                             (scrapeFeeds w h None RSSNewsScraper.rssFeeds)).
  { subst results. unfold RSSNewsScraper.scrapeAllStaggered. cbv zeta.
    rewrite staggeredLoop_results. reflexivity. }
  split; [exact Hres |]. rewrite Hres.
  split; [apply uniqueByUrl_NoDup |].
  split; [intros x Hx; eapply uniqueByUrl_truthy, Hx |].
  split; [| split; [| reflexivity]].
  - intros callback ->. subst calls. unfold RSSNewsScraper.progressCalls.
    split; [apply staggeredLoop_keys |]. split; intros Hcb.
    + rewrite (staggeredLoop_calls w h callback false) by exact Hcb.
      apply imap_ext. intros i f _. cbv beta. f_equal. lia.
    + rewrite (staggeredLoop_calls w h callback true) by exact Hcb.
      apply imap_ext. intros i f _. cbv beta. f_equal.
  - intros ->. subst calls. unfold RSSNewsScraper.progressCalls.
    apply staggeredLoop_silent.
  }
  split; vm_compute; reflexivity.
Qed.

(** [liveSearch] reads the feeds it selected in chunks of five and
    stops after the first chunk that brings the number of results to
    [limit]: the results it scores are those of the first [5 * n] feeds,
    followed by those of Google News, where no earlier chunk had reached
    [limit], and where [limit] is reached unless every feed was read. At
    most [maxSources] feeds are selected.
    In [twoChunkWorld] the first chunk brings three results: with a limit
    of 3 the sixth feed is not read, with a limit of 4 it is. *)
Theorem liveSearch_stops_at_limit (w : World) (h : JsHost)
  (keyword : jsstring) (options : RSSNewsScraper.Options) :
  (let feeds := RSSNewsScraper.selectFeeds w options in
  let limit := RSSNewsScraper.limit options in
  let visited (n : nat) := scrapeFeeds w h (Some keyword) (firstn (5 * n) feeds) in
  (length feeds <= RSSNewsScraper.maxSources options)%nat
  /\ exists n : nat,
       RSSNewsScraper.allResults w h keyword options
       = visited n ++ RSSNewsScraper.googleResults w h keyword options
       /\ (n = O \/ (5 * (n - 1) < length feeds)%nat)
       /\ (feeds <> [] -> (1 <= n)%nat)
       /\ (forall m, (1 <= m < n)%nat -> (length (visited m) < limit)%nat)
       /\ ((5 * n < length feeds)%nat -> (limit <= length (visited n))%nat)
       /\ ((2 <= length keyword)%nat ->
           RSSNewsScraper.liveSearch w h keyword options
           = inr (RSSNewsScraper.rankAndDedupe limit
                    (RSSNewsScraper.scoreAll w h keyword
                       (visited n
                        ++ RSSNewsScraper.googleResults w h keyword options)))))
  /\ map NewsItem.url
         (RSSNewsScraper.allResults twoChunkWorld latin (js "dolar")
                                    (feedsOnly 3))
     = [Some (js "https://example.com/a"); Some (js "https://example.com/b");
        Some (js "https://example.com/b")]
  /\ map NewsItem.url
         (RSSNewsScraper.allResults twoChunkWorld latin (js "dolar")
                                    (feedsOnly 4))
     = [Some (js "https://example.com/a"); Some (js "https://example.com/b");
        Some (js "https://example.com/b"); Some (js "https://example.com/c")].
Proof.
  split.
  {
  intros feeds limit visited. split.
  { subst feeds. unfold RSSNewsScraper.selectFeeds. cbv zeta.
    rewrite length_firstn. lia. }
  destruct (gatherChunks_chunks w h keyword limit (length feeds) feeds [])
    as [n Hn]; [lia |].
  cbv zeta in Hn. cbn [app] in Hn.
  destruct Hn as [Heq [Hmin [Hpos [Hbelow Hstop]]]].
  exists n.
  assert (Hall : RSSNewsScraper.allResults w h keyword options
                 = visited n ++ RSSNewsScraper.googleResults w h keyword options).
  { unfold RSSNewsScraper.allResults, RSSNewsScraper.feedResults. cbv zeta.
    fold feeds. fold limit. rewrite Heq. reflexivity. }
  split; [exact Hall |]. split; [exact Hmin |]. split; [exact Hpos |].
  split; [exact Hbelow |]. split; [exact Hstop |].
  intros Hlen. unfold RSSNewsScraper.liveSearch.
  assert (Ht : truthy keyword = true) by (destruct keyword; [simpl in Hlen; lia | reflexivity]).
  rewrite Ht. cbn [negb orb].
  replace (length keyword <? 2)%nat with false
    by (symmetry; apply Nat.ltb_ge; lia).
  cbv zeta. rewrite Hall. reflexivity.
  }
  split; vm_compute; reflexivity.
Qed.

Section UnitOrder.

Lemma compareUnits_refl (a : jsstring) : compareUnits a a = 0%Z.
Proof.
  induction a as [|c a IH]; simpl; [reflexivity |].
  rewrite N.ltb_irrefl. exact IH.
Qed.

Lemma compareUnits_eq (a b : jsstring) : compareUnits a b = 0%Z -> a = b.
Proof.
  revert b. induction a as [|c a IH]; intros [|d b]; simpl; try discriminate;
    [reflexivity |].
  destruct (c <? d) eqn:H1; [discriminate |].
  destruct (d <? c) eqn:H2; [discriminate |].
  apply N.ltb_ge in H1, H2. intros H. f_equal; [lia | apply IH, H].
Qed.

Lemma compareUnits_flip (a b : jsstring) :
  (0 < compareUnits a b)%Z -> unitsLt b a.
Proof.
  unfold unitsLt. revert b.
  induction a as [|c a IH]; intros [|d b]; simpl; try lia.
  destruct (c <? d) eqn:H1; [lia |].
  destruct (d <? c) eqn:H2; [lia |]. apply IH.
Qed.

Lemma unitsLt_trans (a b c : jsstring) :
  unitsLt a b -> unitsLt b c -> unitsLt a c.
Proof.
  unfold unitsLt. revert b c.
  induction a as [|x a IH]; intros [|y b] [|z c]; simpl; try lia.
  destruct (x <? y) eqn:Hxy; destruct (y <? z) eqn:Hyz;
    destruct (y <? x) eqn:Hyx; destruct (z <? y) eqn:Hzy;
    destruct (x <? z) eqn:Hxz; destruct (z <? x) eqn:Hzx;
    try lia;
    repeat match goal with
           | H : (_ <? _) = true |- _ => apply N.ltb_lt in H
           | H : (_ <? _) = false |- _ => apply N.ltb_ge in H
           end;
    try lia.
  apply IH.
Qed.

Lemma unitsLt_irrefl (a : jsstring) : ~ unitsLt a a.
Proof. unfold unitsLt. rewrite compareUnits_refl. lia. Qed.

Lemma sortInsert_units_sorted (x : jsstring) (l : list jsstring) :
  ~ In x l -> StronglySorted unitsLt l ->
  StronglySorted unitsLt (sortInsert compareUnits x l).
Proof.
  intros Hx. induction 1 as [|y l Hl IH Hy]; simpl; [repeat constructor |].
  destruct (compareUnits y x <? 0)%Z eqn:Hc.
  - apply Z.ltb_lt in Hc. constructor; [apply IH; simpl in Hx; tauto |].
    eapply Permutation_Forall; [symmetry; apply sortInsert_perm |].
    constructor; [exact Hc | exact Hy].
  - apply Z.ltb_ge in Hc.
    assert (Hxy : unitsLt x y).
    { apply compareUnits_flip.
      destruct (Z.eq_dec (compareUnits y x) 0%Z) as [Heq | Hne]; [| lia].
      apply compareUnits_eq in Heq. subst y. simpl in Hx. tauto. }
    constructor; [constructor; assumption |].
    constructor; [exact Hxy |].
    eapply Forall_impl; [exact Hy |]. intros z Hz.
    eapply unitsLt_trans; eassumption.
Qed.

Lemma sortBy_units_sorted (l : list jsstring) :
  NoDup l -> StronglySorted unitsLt (sortBy compareUnits l).
Proof.
  induction 1 as [|x l Hx Hl IH]; simpl; [constructor |].
  apply sortInsert_units_sorted; [| exact IH].
  intros Hin. apply Hx. rewrite list_elem_of_In.
  eapply Permutation_in; [apply sortBy_perm | exact Hin].
Qed.

End UnitOrder.

Section Counts.

Import RSSNewsScraper.

Lemma sumCounts_bump (key : jsstring) (counts : gmap jsstring nat) :
  sumCounts (bump key counts) = S (sumCounts counts).
Proof.
  unfold sumCounts, bump.
  destruct (counts !! key) as [n|] eqn:Hk; cbn [default from_option id].
  - rewrite <- insert_delete_eq.
    rewrite map_fold_insert_L;
      [| intros; lia | apply lookup_delete_eq].
    rewrite (map_fold_delete_L _ _ key n counts); [lia | intros; lia | exact Hk].
  - rewrite map_fold_insert_L; [lia | intros; lia | exact Hk].
Qed.

Lemma bump_lookup (key k : jsstring) (counts : gmap jsstring nat) :
  bump key counts !! k
  = if str_eqb key k then Some (S (default O (counts !! k)))
    else counts !! k.
Proof.
  unfold bump. destruct (str_eqb key k) eqn:He.
  - apply str_eqb_eq in He. subst k. rewrite lookup_insert_eq.
    f_equal. lia.
  - apply str_eqb_neq in He. rewrite lookup_insert_ne by exact He.
    reflexivity.
Qed.

Lemma counterOf_default (n : nat) : default O (counterOf n) = n.
Proof. destruct n; reflexivity. Qed.

(** The two counters after the loop of [getSourceStats], from any
    counters that stand for the feeds read before. *)
Lemma getSourceStats_loop (feeds : list (jsstring * FeedInfo.t)) :
  forall (stats : SourceStats),
    let final :=
      fold_left (fun stats '(_, info) =>
                   {| stats_total := stats_total stats;
                      byCategory := bump (FeedInfo.category info) (byCategory stats);
                      bySource := bump (FeedInfo.source info) (bySource stats) |})
                feeds stats in
    stats_total final = stats_total stats
    /\ sumCounts (byCategory final) = (sumCounts (byCategory stats) + length feeds)%nat
    /\ sumCounts (bySource final) = (sumCounts (bySource stats) + length feeds)%nat
    /\ (forall c, default O (byCategory final !! c)
                  = (default O (byCategory stats !! c)
                     + countFeeds (fun info => str_eqb (FeedInfo.category info) c) feeds)%nat)
    /\ (forall s, default O (bySource final !! s)
                  = (default O (bySource stats !! s)
                     + countFeeds (fun info => str_eqb (FeedInfo.source info) s) feeds)%nat)
    /\ (forall c, byCategory stats !! c <> Some O -> byCategory final !! c <> Some O)
    /\ (forall s, bySource stats !! s <> Some O -> bySource final !! s <> Some O).
Proof.
  induction feeds as [|[key info] feeds IH]; intros stats; cbv zeta.
  - simpl. repeat split; auto; intros; unfold countFeeds; simpl; lia.
  - cbn [fold_left].
    specialize (IH {| stats_total := stats_total stats;
                      byCategory := bump (FeedInfo.category info) (byCategory stats);
                      bySource := bump (FeedInfo.source info) (bySource stats) |}).
    cbv zeta in IH. cbn [stats_total byCategory bySource] in IH.
    destruct IH as [H1 [H2 [H3 [H4 [H5 [H6 H7]]]]]].
    split; [exact H1 |].
    split; [rewrite H2, sumCounts_bump; simpl; lia |].
    split; [rewrite H3, sumCounts_bump; simpl; lia |].
    split; [| split; [| split]].
    + intros c. rewrite H4, bump_lookup. unfold countFeeds.
      cbn [List.filter snd]. destruct (str_eqb (FeedInfo.category info) c);
        cbn [default from_option id length]; lia.
    + intros s. rewrite H5, bump_lookup. unfold countFeeds.
      cbn [List.filter snd]. destruct (str_eqb (FeedInfo.source info) s);
        cbn [default from_option id length]; lia.
    + intros c Hc. apply H6. rewrite bump_lookup.
      destruct (str_eqb (FeedInfo.category info) c); [discriminate | exact Hc].
    + intros s Hs. apply H7. rewrite bump_lookup.
      destruct (str_eqb (FeedInfo.source info) s); [discriminate | exact Hs].
Qed.

Lemma counter_exact (counts : gmap jsstring nat) (k : jsstring) (n : nat) :
  default O (counts !! k) = n -> counts !! k <> Some O ->
  counts !! k = counterOf n.
Proof.
  destruct (counts !! k) as [[|m]|]; simpl; intros <- H;
    [congruence | reflexivity | reflexivity].
Qed.

End Counts.

(** [getCategories] and [getSourceStats], for any registry: the
    categories come in strictly ascending order of code units, so without
    repetition, and they are exactly the categories of the feeds; [total]
    is the number of feeds; each counter of [byCategory] and of [bySource]
    holds the number of feeds with that category or source, and is absent
    when there is none; so each of the two objects adds up to [total], and
    the keys of [byCategory] are the categories [getCategories] lists.
    The registry of the source has 47 feeds in eight categories, 13 of
    them in [Ekonomi], 11 in [Gundem] and 3 in [Spor]. *)
Theorem getSourceStats_counts (feeds : list (jsstring * FeedInfo.t)) :
  (let categories := RSSNewsScraper.getCategoriesOf feeds in
  let stats := RSSNewsScraper.getSourceStatsOf feeds in
  StronglySorted unitsLt categories
  /\ (forall c, In c categories
                <-> exists key info, In (key, info) feeds
                                     /\ FeedInfo.category info = c)
  /\ RSSNewsScraper.stats_total stats = length feeds
  /\ (forall c, RSSNewsScraper.byCategory stats !! c
                = counterOf (countFeeds
                               (fun info => str_eqb (FeedInfo.category info) c)
                               feeds))
  /\ (forall s, RSSNewsScraper.bySource stats !! s
                = counterOf (countFeeds
                               (fun info => str_eqb (FeedInfo.source info) s)
                               feeds))
  /\ sumCounts (RSSNewsScraper.byCategory stats) = length feeds
  /\ sumCounts (RSSNewsScraper.bySource stats) = length feeds
  /\ (forall c, In c categories
                <-> is_Some (RSSNewsScraper.byCategory stats !! c)))
  /\ RSSNewsScraper.getCategories
     = map js ["Dunya"; "Ekonomi"; "Gundem"; "Magazin"; "Saglik"; "Son Dakika";
               "Spor"; "Teknoloji"]%string
  /\ RSSNewsScraper.stats_total RSSNewsScraper.getSourceStats = 47%nat
  /\ map (fun c => RSSNewsScraper.byCategory RSSNewsScraper.getSourceStats
                     !! js c)
         ["Ekonomi"; "Gundem"; "Spor"; "Genel"]%string
     = [Some 13; Some 11; Some 3; None]%nat.
Proof.
  split.
  {
  intros categories stats.
  assert (Hmem : forall c, In c categories
                           <-> exists key info, In (key, info) feeds
                                                /\ FeedInfo.category info = c).
  { intros c. subst categories. unfold RSSNewsScraper.getCategoriesOf.
    cbv zeta. split.
    - intros Hc. eapply Permutation_in in Hc; [| apply sortBy_perm].
      apply uniqStrings_In in Hc as [Hc _].
      apply in_map_iff in Hc as [[key info] [Heq Hin]]. eauto.
    - intros [key [info [Hin Heq]]].
      eapply Permutation_in; [symmetry; apply sortBy_perm |].
      apply uniqStrings_In. split; [| intros []].
      apply in_map_iff. exists (key, info). auto. }
  pose proof (getSourceStats_loop feeds
                {| RSSNewsScraper.stats_total := length feeds;
                   RSSNewsScraper.byCategory := ∅;
                   RSSNewsScraper.bySource := ∅ |}) as Hloop.
  cbv zeta in Hloop.
  cbn [RSSNewsScraper.stats_total RSSNewsScraper.byCategory
       RSSNewsScraper.bySource] in Hloop.
  fold (RSSNewsScraper.getSourceStatsOf feeds) in Hloop. fold stats in Hloop.
  destruct Hloop as [H1 [H2 [H3 [H4 [H5 [H6 H7]]]]]].
  assert (Hcat : forall c, RSSNewsScraper.byCategory stats !! c
                = counterOf (countFeeds
                               (fun info => str_eqb (FeedInfo.category info) c)
                               feeds)).
  { intros c. apply counter_exact.
    - rewrite H4, lookup_empty. reflexivity.
    - apply H6. rewrite lookup_empty. discriminate. }
  split.
  { subst categories. apply sortBy_units_sorted, uniqStrings_NoDup. }
  split; [exact Hmem |]. split; [exact H1 |]. split; [exact Hcat |].
  split.
  { intros s. apply counter_exact.
    - rewrite H5, lookup_empty. reflexivity.
    - apply H7. rewrite lookup_empty. discriminate. }
  split; [rewrite H2; unfold sumCounts; rewrite map_fold_empty; lia |].
  split; [rewrite H3; unfold sumCounts; rewrite map_fold_empty; lia |].
  intros c. rewrite Hmem, Hcat. unfold countFeeds. split.
  - intros [key [info [Hin Heq]]].
    destruct (List.filter _ feeds) as [|f r] eqn:Hf.
    + exfalso. assert (Hx : In (key, info) (List.filter
                 (fun f => str_eqb (FeedInfo.category (snd f)) c) feeds)).
      { apply List.filter_In. split; [exact Hin |].
        apply str_eqb_eq. exact Heq. }
      rewrite Hf in Hx. destruct Hx.
    + simpl. eauto.
  - intros [n Hn].
    destruct (List.filter _ feeds) as [|[key info] r] eqn:Hf; [discriminate |].
    assert (Hx : In (key, info) ((key, info) :: r)) by (left; reflexivity).
    rewrite <- Hf in Hx. apply List.filter_In in Hx as [Hin Heq].
    apply str_eqb_eq in Heq. eauto.
  }
  repeat split; vm_compute; reflexivity.
Qed.

Section RetryFacts.

Import Utils.

Context {A E : Type} (fn : nat -> E + A) (maxRetries delayMs : nat).

Lemma retryFrom_success (error : nat -> E) (value : A) (k : nat) :
  forall (fuel attempt : nat) (lastError : option E),
    (attempt <= k)%nat -> (k < attempt + fuel)%nat ->
    (k <= maxRetries)%nat ->
    (forall j, (attempt <= j < k)%nat -> fn j = inl (error j)) ->
    fn k = inr value ->
    retryFrom fn maxRetries delayMs fuel attempt lastError
    = {| outcome := inr value;
         calls := (k - attempt + 1)%nat;
         delays := map (fun j => (delayMs * j)%nat) (seq attempt (k - attempt)) |}.
Proof.
  induction fuel as [|fuel IH]; intros attempt lastError Hle Hlt Hmax Hfail Hok;
    [lia |].
  cbn [retryFrom]. destruct (Nat.eq_dec attempt k) as [-> | Hne].
  - rewrite Hok. replace (k - k)%nat with O by lia. reflexivity.
  - rewrite (Hfail attempt) by lia.
    rewrite (IH (S attempt) (Some (error attempt)) ltac:(lia) ltac:(lia) Hmax
                (fun j Hj => Hfail j ltac:(lia)) Hok).
    cbn [outcome calls delays].
    replace (attempt <? maxRetries)%nat with true
      by (symmetry; apply Nat.ltb_lt; lia).
    replace (k - attempt)%nat with (S (k - S attempt)) by lia.
    cbn [seq map]. f_equal; lia.
Qed.

Lemma retryFrom_exhausted (error : nat -> E) :
  forall (fuel attempt : nat) (lastError : option E),
    (attempt + fuel = maxRetries + 1)%nat ->
    (forall j, (attempt <= j <= maxRetries)%nat -> fn j = inl (error j)) ->
    retryFrom fn maxRetries delayMs fuel attempt lastError
    = {| outcome := inl (match fuel with
                         | O => lastError
                         | S _ => Some (error maxRetries)
                         end);
         calls := fuel;
         delays := map (fun j => (delayMs * j)%nat) (seq attempt (fuel - 1)) |}.
Proof.
  induction fuel as [|fuel IH]; intros attempt lastError Hsum Hfail;
    [reflexivity |].
  cbn [retryFrom]. rewrite (Hfail attempt) by lia.
  rewrite (IH (S attempt) (Some (error attempt)) ltac:(lia)
              (fun j Hj => Hfail j ltac:(lia))).
  cbn [outcome calls delays]. destruct fuel as [|fuel].
  - replace attempt with maxRetries by lia.
    rewrite Nat.ltb_irrefl. reflexivity.
  - replace (attempt <? maxRetries)%nat with true
      by (symmetry; apply Nat.ltb_lt; lia).
    replace (S (S fuel) - 1)%nat with (S (S fuel - 1)) by lia.
    reflexivity.
Qed.

Lemma retryFrom_bounds :
  forall (fuel attempt : nat) (lastError : option E),
    (calls (retryFrom fn maxRetries delayMs fuel attempt lastError) <= fuel)%nat
    /\ (length (delays (retryFrom fn maxRetries delayMs fuel attempt lastError))
        < S (calls (retryFrom fn maxRetries delayMs fuel attempt lastError)))%nat.
Proof.
  induction fuel as [|fuel IH]; intros attempt lastError; cbn [retryFrom].
  - simpl. lia.
  - destruct (fn attempt) as [error | value]; [| simpl; lia].
    specialize (IH (S attempt) (Some error)).
    cbn [calls delays]. destruct (attempt <? maxRetries)%nat; simpl; lia.
Qed.

End RetryFacts.

(** [retry]: the function is called until it returns, at most
    [maxRetries] times; the value of the first call that returns is the
    result, and when every call throws, the error of the last call is
    thrown. After the failure of call [k], unless it was the last one
    allowed, the wait is [delayMs * k]. With [maxRetries = 0] the function
    is not called at all and [undefined] is thrown. *)
Theorem retry_backoff {A E : Type} (fn : nat -> E + A)
  (maxRetries delayMs : nat) :
  Utils.retry fn O delayMs
  = {| Utils.outcome := inl None; Utils.calls := O; Utils.delays := [] |}
  /\ (forall (error : nat -> E) (value : A) (k : nat),
        (1 <= k <= maxRetries)%nat ->
        (forall j, (1 <= j < k)%nat -> fn j = inl (error j)) ->
        fn k = inr value ->
        Utils.retry fn maxRetries delayMs
        = {| Utils.outcome := inr value; Utils.calls := k;
             Utils.delays := backoff delayMs (k - 1) |})
  /\ (forall (error : nat -> E),
        (1 <= maxRetries)%nat ->
        (forall j, (1 <= j <= maxRetries)%nat -> fn j = inl (error j)) ->
        Utils.retry fn maxRetries delayMs
        = {| Utils.outcome := inl (Some (error maxRetries));
             Utils.calls := maxRetries;
             Utils.delays := backoff delayMs (maxRetries - 1) |})
  /\ (Utils.calls (Utils.retry fn maxRetries delayMs) <= maxRetries)%nat
  /\ (length (Utils.delays (Utils.retry fn maxRetries delayMs))
      <= Utils.calls (Utils.retry fn maxRetries delayMs))%nat
  /\ Utils.retry (failsUntil 3 (fun k => k) (js "ok")) 5 1000
     = {| Utils.outcome := inr (js "ok"); Utils.calls := 3;
          Utils.delays := [1000; 2000]%nat |}.
Proof.
  split; [reflexivity |]. split; [| split; [| split; [| split]]].
  - intros error value k Hk Hfail Hok. unfold Utils.retry.
    rewrite (retryFrom_success fn maxRetries delayMs error value k
               maxRetries 1 None ltac:(lia) ltac:(lia) ltac:(lia) Hfail Hok).
    unfold backoff. f_equal. lia.
  - intros error Hmax Hfail. unfold Utils.retry.
    rewrite (retryFrom_exhausted fn maxRetries delayMs error
               maxRetries 1 None ltac:(lia) Hfail).
    destruct maxRetries; [lia | reflexivity].
  - apply retryFrom_bounds.
  - pose proof (retryFrom_bounds fn maxRetries delayMs maxRetries 1 None) as [_ H].
    unfold Utils.retry. lia.
  - vm_compute. reflexivity.
Qed.

(** The literals of the source, computed. *)
Ltac eval_js :=
  repeat match goal with
         | |- context [js ?s] =>
             let v := eval vm_compute in (js s) in change (js s) with v
         end.

Section UrlFacts.

Import Utils.

Lemma dropTrailingSlash_app (a t : jsstring) :
  t <> [] -> dropTrailingSlash (a ++ t) = a ++ dropTrailingSlash t.
Proof.
  intros Ht. unfold dropTrailingSlash. rewrite rev_app_distr.
  destruct (rev t) as [|c r] eqn:Hr.
  - apply (f_equal (@rev N)) in Hr. rewrite rev_involutive in Hr.
    simpl in Hr. contradiction.
  - cbn [app]. destruct (N.eq_dec c 47) as [-> | Hc].
    + rewrite rev_app_distr, rev_involutive. reflexivity.
    + assert (Hm : forall (X : Type) (x y : X),
                 match c with 47 => x | _ => y end = y).
      { intros X x y. destruct c as [|p]; [reflexivity |].
        repeat (destruct p as [p|p|]; try reflexivity). congruence. }
      rewrite !Hm. reflexivity.
Qed.

Lemma dropTrailingSlash_slash (b : jsstring) :
  dropTrailingSlash (b ++ js "/") = b.
Proof.
  unfold dropTrailingSlash. rewrite rev_app_distr. cbn.
  apply rev_involutive.
Qed.

Lemma dropTrailingSlash_cases (b : jsstring) :
  dropTrailingSlash b = b \/ b = dropTrailingSlash b ++ js "/".
Proof.
  destruct (rev b) as [|c r] eqn:Hr.
  - left. unfold dropTrailingSlash. rewrite Hr. reflexivity.
  - assert (Hb : b = rev r ++ [c]).
    { rewrite <- (rev_involutive b), Hr. reflexivity. }
    destruct (N.eq_dec c 47) as [-> | Hc].
    + right. rewrite Hb at 2. rewrite Hb at 1.
      rewrite dropTrailingSlash_slash. reflexivity.
    + left. unfold dropTrailingSlash. rewrite Hr.
      destruct c as [|p]; [reflexivity |].
      repeat (destruct p as [p|p|]; try reflexivity). congruence.
Qed.

Lemma startsWith_app (s p r : jsstring) :
  startsWith s p = true -> startsWith (s ++ r) p = true.
Proof.
  rewrite !startsWith_spec. intros [t ->]. exists (t ++ r).
  symmetry. apply app_assoc.
Qed.

(** Joining a relative url to a base that is absolute gives an absolute
    url. *)
Lemma join_absolute (scheme base rest : jsstring) :
  startsWith base (scheme ++ js "://") = true ->
  startsWith (dropTrailingSlash base ++ js "/" ++ rest) (scheme ++ js "://")
  = true.
Proof.
  intros Hb. apply startsWith_spec in Hb as [t ->].
  destruct t as [|c t].
  - rewrite app_nil_r.
    replace (scheme ++ js "://") with ((scheme ++ js ":/") ++ js "/")
      by (rewrite <- app_assoc; reflexivity).
    rewrite dropTrailingSlash_slash. rewrite <- !app_assoc.
    apply startsWith_spec. exists rest. rewrite <- !app_assoc. reflexivity.
  - rewrite dropTrailingSlash_app by discriminate.
    rewrite <- app_assoc. apply startsWith_spec. eauto.
Qed.

End UrlFacts.

(** [normalizeUrl]: a missing or empty url gives the empty string;
    a url that begins with [http://] or [https://] is returned as it is,
    and one that begins with [//] gets [https:] in front; any other url is
    joined to the base with exactly one slash between them, whether the
    base ends with a slash or not. So with a base that begins with
    [http://] or [https://] every url that is not empty becomes one that
    does, and normalizing twice changes nothing. *)
Theorem normalizeUrl_absolute (url baseUrl : jsstring) :
  Utils.normalizeUrl None baseUrl = []
  /\ Utils.normalizeUrl (Some []) baseUrl = []
  /\ (isAbsoluteUrl url -> Utils.normalizeUrl (Some url) baseUrl = url)
  /\ (startsWith url (js "//") = true ->
      Utils.normalizeUrl (Some url) baseUrl = js "https:" ++ url)
  /\ Utils.normalizeUrl (Some url) (Utils.dropTrailingSlash baseUrl ++ js "/")
     = Utils.normalizeUrl (Some url) baseUrl
  /\ (isAbsoluteUrl baseUrl -> url <> [] ->
      isAbsoluteUrl (Utils.normalizeUrl (Some url) baseUrl))
  /\ (isAbsoluteUrl baseUrl ->
      Utils.normalizeUrl (Some (Utils.normalizeUrl (Some url) baseUrl)) baseUrl
      = Utils.normalizeUrl (Some url) baseUrl)
  /\ Utils.normalizeUrl (Some (js "haber/1")) (js "https://site.com/")
     = js "https://site.com/haber/1"
  /\ Utils.normalizeUrl (Some (js "/haber/1")) (js "https://site.com")
     = js "https://site.com/haber/1".
Proof.
  assert (Habs : forall u, isAbsoluteUrl u ->
                           Utils.normalizeUrl (Some u) baseUrl = u).
  { intros u Hu. unfold Utils.normalizeUrl.
    assert (Ht : truthy u = true)
      by (destruct u; [destruct Hu as [H | H]; discriminate H | reflexivity]).
    rewrite Ht. cbn [negb].
    replace (startsWith u (js "http://") || startsWith u (js "https://"))
      with true; [reflexivity |].
    symmetry. apply orb_true_iff. exact Hu. }
  assert (Hout : isAbsoluteUrl baseUrl -> url <> [] ->
                 isAbsoluteUrl (Utils.normalizeUrl (Some url) baseUrl)).
  { intros Hbase Hurl. unfold Utils.normalizeUrl.
    rewrite (proj2 (truthy_true url) Hurl). cbn [negb].
    destruct (startsWith url (js "http://") || startsWith url (js "https://"))
      eqn:Hu; [apply orb_true_iff in Hu; exact Hu |].
    destruct (startsWith url (js "//")) eqn:Hss.
    { right. apply startsWith_spec in Hss as [r ->].
      apply startsWith_spec. exists r. reflexivity. }
    destruct (startsWith url (js "/")) eqn:Hs.
    - apply startsWith_spec in Hs as [r ->].
      destruct Hbase as [Hb | Hb]; [left | right].
      + apply (join_absolute (js "http") baseUrl r Hb).
      + apply (join_absolute (js "https") baseUrl r Hb).
    - destruct Hbase as [Hb | Hb]; [left | right].
      + apply (join_absolute (js "http") baseUrl url Hb).
      + apply (join_absolute (js "https") baseUrl url Hb). }
  split; [reflexivity |]. split; [reflexivity |].
  split; [apply Habs |]. split.
  { intros Hss. unfold Utils.normalizeUrl.
    apply startsWith_spec in Hss as [r ->]. eval_js.
    destruct r; reflexivity. }
  split.
  { unfold Utils.normalizeUrl. rewrite dropTrailingSlash_slash. reflexivity. }
  split; [exact Hout |]. split.
  { intros Hbase. destruct url as [|c url]; [reflexivity |].
    apply Habs, Hout; [exact Hbase | discriminate]. }
  split; vm_compute; reflexivity.
Qed.

Section PaginationFacts.

Lemma Qceiling_quotient (total limit : Z) :
  (0 < limit)%Z ->
  Qceiling (Qmake total 1 / inject_Z limit) = (- ((- total) / limit))%Z.
Proof.
  intros Hl. destruct limit as [|p|p]; try lia.
  unfold Qceiling, Qfloor, Qdiv, Qmult, Qinv, Qopp, inject_Z. cbn.
  rewrite Z.mul_1_r. reflexivity.
Qed.

Lemma ceiling_bounds (total limit : Z) :
  (0 < limit)%Z ->
  let n := (- ((- total) / limit))%Z in
  ((n - 1) * limit < total <= n * limit)%Z.
Proof.
  intros Hl n. subst n.
  pose proof (Z.div_mod (- total) limit ltac:(lia)) as Hdm.
  pose proof (Z.mod_pos_bound (- total) limit Hl) as Hmod.
  nia.
Qed.

End PaginationFacts.

(** The [pagination] object of [searchNews], for a [limit] of at
    least 1, a [page] of at least 1 and a count [total] that is not
    negative: [pages] is the least number of pages of [limit] records that
    hold [total] records; [hasNext] tells that [page] is before the last
    page and [hasPrev] that it is after the first; the records skipped are
    those of the pages before, and a page holds a record exactly when it is
    not beyond [pages]. *)
Theorem searchNews_pagination (page limit total : Z)
  (Hlimit : (1 <= limit)%Z) (Hpage : (1 <= page)%Z) (Htotal : (0 <= total)%Z) :
  let p := ScraperService.paginationOf page limit total in
  exists n : Z,
    ScraperService.pages p = Some n
    /\ ((n - 1) * limit < total <= n * limit)%Z
    /\ (n = 0 <-> total = 0)%Z
    /\ (ScraperService.hasNext p = true <-> (page < n)%Z)
    /\ (ScraperService.hasPrev p = true <-> (1 < page)%Z)
    /\ (0 <= ScraperService.skipOf page limit)%Z
    /\ ((ScraperService.skipOf page limit < total)%Z <-> (page <= n)%Z).
Proof.
  intros p. exists (- ((- total) / limit))%Z.
  pose proof (ceiling_bounds total limit ltac:(lia)) as Hb. cbv zeta in Hb.
  set (n := (- ((- total) / limit))%Z) in *.
  subst p. unfold ScraperService.paginationOf, ScraperService.skipOf.
  cbn [ScraperService.pages ScraperService.hasNext ScraperService.hasPrev].
  replace (limit =? 0)%Z with false by (symmetry; apply Z.eqb_neq; lia).
  rewrite Qceiling_quotient by lia. fold n.
  split; [reflexivity |]. split; [exact Hb |].
  rewrite !Z.ltb_lt.
  repeat split; intros; nia.
Qed.

Lemma searchNews_pagination_witness :
  exists n : Z,
    ScraperService.pages (ScraperService.paginationOf 3 20 45) = Some n
    /\ ((n - 1) * 20 < 45 <= n * 20)%Z
    /\ (n = 0 <-> 45 = 0)%Z
    /\ (ScraperService.hasNext (ScraperService.paginationOf 3 20 45) = true
        <-> (3 < n)%Z)
    /\ (ScraperService.hasPrev (ScraperService.paginationOf 3 20 45) = true
        <-> (1 < 3)%Z)
    /\ (0 <= ScraperService.skipOf 3 20)%Z
    /\ ((ScraperService.skipOf 3 20 < 45)%Z <-> (3 <= n)%Z).
Proof.
  apply (searchNews_pagination 3 20 45); lia.
Defined.

Section ServiceFacts.

Import ScraperService.

Context {Store : Type} (updateOne : Handle Store).

Lemma saveNews_counts (clock : nat -> nat -> Z) (newsArray : list NewsInput)
  (db : Store) :
  (saved (fst (saveNews updateOne clock newsArray db))
   + duplicates (fst (saveNews updateOne clock newsArray db))
   <= length newsArray)%nat.
Proof.
  unfold saveNews. destruct newsArray as [|newsItem rest]; [simpl; lia |].
  pose proof (saveLoop_outcomes updateOne clock O (newsItem :: rest)
                                emptyResult db) as H.
  cbv zeta in H. destruct H as [Hl [Hs [Hd _]]].
  rewrite Hs, Hd, <- Hl. cbn [saved duplicates emptyResult].
  set (trace := outcomes updateOne clock O (newsItem :: rest) db).
  clearbody trace. clear.
  induction trace as [|o trace IH]; [simpl; lia |].
  cbn [List.filter length]. destruct o; cbn; lia.
Qed.

(** One call of [scrapeAll] on a service that is not running. *)
Lemma scrapeAll_idle (w : World) (h : JsHost) (clock : RunClock)
  (service : Service) (db : Store) :
  isRunning service = false ->
  exists savedNews duplicateNews db',
    let totalNews :=
      length (RSSNewsScraper.scrapeAllStaggered w h (Some progressLogger)) in
    scrapeAll updateOne w h clock service db
    = (Report true totalNews savedNews duplicateNews []
              (endTime clock - startTime clock)%Z,
       finishRun clock service totalNews savedNews, db')
    /\ (savedNews + duplicateNews <= totalNews)%nat.
Proof.
  intros Hidle. unfold scrapeAll. rewrite Hidle.
  set (news := RSSNewsScraper.scrapeAllStaggered w h (Some progressLogger)).
  cbv zeta. destruct (0 <? length news)%nat eqn:Hn.
  - pose proof (saveNews_counts (saveClock clock) (map inputOf news) db) as Hc.
    destruct (saveNews updateOne (saveClock clock) (map inputOf news) db)
      as [saveResult db'].
    cbn [fst] in Hc. rewrite length_map in Hc.
    exists (saved saveResult), (duplicates saveResult), db'.
    split; [reflexivity | exact Hc].
  - apply Nat.ltb_ge in Hn. exists O, O, db.
    replace (length news) with O by lia. split; [reflexivity | lia].
Qed.

Lemma serve_invariant (h : JsHost) (notAFunction : jsstring)
  (requests : list Request) :
  forall (service : Service) (db : Store),
    isRunning service = false ->
    let '(reports, service', db') :=
      serve updateOne h notAFunction requests service db in
    isRunning service' = false
    /\ length reports = length requests
    /\ Forall (fun report => report <> AlreadyRunning
                             /\ (savedNewsOf report + duplicateNewsOf report
                                 <= totalNewsOf report)%nat) reports
    /\ totalScraped service'
       = (totalScraped service + sumNat (map totalNewsOf reports))%nat
    /\ totalSaved service'
       = (totalSaved service + sumNat (map savedNewsOf reports))%nat.
Proof.
  induction requests as [|request rest IH]; intros service db Hidle.
  - simpl. repeat split; auto; lia.
  - cbn [serve].
    assert (Hstep : exists report service1 db1,
               match request with
               | ScrapeAll w clock => scrapeAll updateOne w h clock service db
               | ScrapeWithKeyword keyword clock =>
                   scrapeWithKeyword notAFunction keyword clock service db
               end = (report, service1, db1)
               /\ isRunning service1 = false
               /\ report <> AlreadyRunning
               /\ (savedNewsOf report + duplicateNewsOf report
                   <= totalNewsOf report)%nat
               /\ totalScraped service1
                  = (totalScraped service + totalNewsOf report)%nat
               /\ totalSaved service1
                  = (totalSaved service + savedNewsOf report)%nat).
    { destruct request as [w clock | keyword clock].
      - destruct (scrapeAll_idle w h clock service db Hidle)
          as [s [d [db1 [Heq Hle]]]]. cbv zeta in Heq.
        eexists _, _, _. split; [exact Heq |].
        cbn [totalNewsOf savedNewsOf duplicateNewsOf finishRun isRunning
             totalScraped totalSaved].
        repeat split; auto; try discriminate.
      - unfold scrapeWithKeyword. rewrite Hidle.
        eexists _, _, _. split; [reflexivity |].
        cbn [totalNewsOf savedNewsOf duplicateNewsOf finishRun isRunning
             totalScraped totalSaved].
        repeat split; auto; try lia; try discriminate. }
    destruct Hstep as [report [service1 [db1 [-> [Hidle1 [Hne [Hle [Hts Htv]]]]]]]].
    specialize (IH service1 db1 Hidle1).
    destruct (serve updateOne h notAFunction rest service1 db1)
      as [[reports service2] db2].
    destruct IH as [H1 [H2 [H3 [H4 H5]]]].
    split; [exact H1 |]. split; [simpl; lia |].
    split; [constructor; auto |].
    cbn [map sumNat fold_right]. fold (sumNat (map totalNewsOf reports)).
    fold (sumNat (map savedNewsOf reports)). split; lia.
Qed.

End ServiceFacts.

(** The service's [scrapeAll] and [scrapeWithKeyword]. While a run
    is going on ([isRunning]), both refuse and change nothing. Otherwise
    [scrapeAll] reports success with an empty [errors], whatever the
    saving did, with [totalNews] the number of items scraped and
    [savedNews + duplicates] at most that; [scrapeWithKeyword] always
    fails, with the engine's message as its one error, scrapes and saves
    nothing and leaves the store as it was. Both leave [isRunning] off and
    add their counts to the statistics, so over any sequence of requests
    served one after the other from a new service no request is refused,
    and [totalSaved] never exceeds [totalScraped].
    Three requests on an empty store, when one feed answers with two
    distinct urls: the first run saves two items, the keyword run fails,
    and the third run finds two duplicates. *)
Theorem service_runs {Store : Type}
  (updateOne : ScraperService.Handle Store) (h : JsHost)
  (notAFunction : jsstring) (requests : list ScraperService.Request)
  (db : Store) :
  ((forall w keyword clock service,
      ScraperService.isRunning service = true ->
      ScraperService.scrapeAll updateOne w h clock service db
      = (ScraperService.AlreadyRunning, service, db)
      /\ ScraperService.scrapeWithKeyword notAFunction keyword clock service db
         = (ScraperService.AlreadyRunning, service, db))
  /\ (forall w clock service,
        ScraperService.isRunning service = false ->
        exists savedNews duplicateNews db',
          let totalNews :=
            length (RSSNewsScraper.scrapeAllStaggered
                      w h (Some ScraperService.progressLogger)) in
          ScraperService.scrapeAll updateOne w h clock service db
          = (ScraperService.Report true totalNews savedNews duplicateNews []
               (ScraperService.endTime clock - ScraperService.startTime clock)%Z,
             ScraperService.finishRun clock service totalNews savedNews, db')
          /\ (savedNews + duplicateNews <= totalNews)%nat)
  /\ (forall keyword clock service,
        ScraperService.isRunning service = false ->
        ScraperService.scrapeWithKeyword notAFunction keyword clock service db
        = (ScraperService.Report false O O O [notAFunction]
             (ScraperService.endTime clock - ScraperService.startTime clock)%Z,
           ScraperService.finishRun clock service O O, db))
  /\ (let '(reports, service, _) :=
        ScraperService.serve updateOne h notAFunction requests
                             ScraperService.newService db in
      ScraperService.isRunning service = false
      /\ length reports = length requests
      /\ Forall (fun report => report <> ScraperService.AlreadyRunning) reports
      /\ ScraperService.totalScraped service = sumNat (map totalNewsOf reports)
      /\ ScraperService.totalSaved service = sumNat (map savedNewsOf reports)
      /\ (ScraperService.totalSaved service
          <= ScraperService.totalScraped service)%nat))
  /\ (let '(reports, service, _) :=
        ScraperService.serve
          (ScraperService.upsert (fun j => (7000 + Z.of_nat j)%Z)) latin
          (js "rssScraper.searchByKeyword is not a function")
          [ ScraperService.ScrapeAll (worldWith ntvEkonomi dollarFeed)
                                     sampleClock;
            ScraperService.ScrapeWithKeyword (js "dolar") sampleClock;
            ScraperService.ScrapeAll (worldWith ntvEkonomi dollarFeed)
                                     sampleClock ]
          ScraperService.newService ScraperService.emptyCollection in
      reports
      = [ ScraperService.Report true 2 2 0 [] 3000%Z;
          ScraperService.Report false 0 0 0
            [js "rssScraper.searchByKeyword is not a function"] 3000%Z;
          ScraperService.Report true 2 0 2 [] 3000%Z ]
      /\ service
         = {| ScraperService.isRunning := false;
              ScraperService.lastRun := Some 4000%Z;
              ScraperService.totalScraped := 4;
              ScraperService.totalSaved := 2 |}).
Proof.
  split.
  {
  split; [| split; [| split]].
  - intros w keyword clock service Hrun.
    unfold ScraperService.scrapeAll, ScraperService.scrapeWithKeyword.
    rewrite Hrun. split; reflexivity.
  - intros w clock service Hidle. apply scrapeAll_idle, Hidle.
  - intros keyword clock service Hidle.
    unfold ScraperService.scrapeWithKeyword. rewrite Hidle. reflexivity.
  - pose proof (serve_invariant updateOne h notAFunction requests
                  ScraperService.newService db eq_refl) as H.
    destruct (ScraperService.serve updateOne h notAFunction requests
                ScraperService.newService db) as [[reports service] db'].
    destruct H as [H1 [H2 [H3 [H4 H5]]]].
    cbn [ScraperService.totalScraped ScraperService.totalSaved
         ScraperService.newService] in H4, H5.
    split; [exact H1 |]. split; [exact H2 |]. split.
    { eapply Forall_impl; [exact H3 |]. cbv beta. tauto. }
    split; [lia |]. split; [lia |].
    rewrite H4, H5. clear -H3.
    induction H3 as [|report reports [_ Hle] _ IH]; [simpl; lia |].
    cbn [map sumNat fold_right].
    fold (sumNat (map totalNewsOf reports)).
    fold (sumNat (map savedNewsOf reports)). lia.
  }
  vm_compute. split; reflexivity.
Qed.

Section LiveFacts.

Lemma NoDup_firstn {B : Type} (n : nat) (l : list B) :
  NoDup l -> NoDup (firstn n l).
Proof.
  intros H. rewrite <- (firstn_skipn n l) in H.
  apply NoDup_app in H as [H _]. exact H.
Qed.

Lemma rankAndDedupe_shape (limit : nat) (scored : list ScoredItem.t) :
  let out := RSSNewsScraper.rankAndDedupe limit scored in
  (length out <= limit)%nat
  /\ NoDup (map ScoredItem.url out)
  /\ (forall x, In x out ->
                In x scored
                /\ exists u, ScoredItem.url x = Some u /\ truthy u = true).
Proof.
  unfold RSSNewsScraper.rankAndDedupe. cbv zeta.
  split; [rewrite length_firstn; lia |]. split.
  - rewrite <- firstn_map. apply NoDup_firstn, uniqueByUrl_NoDup.
  - intros x Hx. apply In_firstn in Hx. split.
    + apply uniqueByUrl_In in Hx.
      eapply Permutation_in; [apply sortBy_perm | exact Hx].
    + eapply uniqueByUrl_truthy, Hx.
Qed.

Lemma liveSearch_long (w : World) (h : JsHost) (keyword : jsstring)
  (options : RSSNewsScraper.Options) :
  (2 <= length keyword)%nat ->
  RSSNewsScraper.liveSearch w h keyword options
  = inr (RSSNewsScraper.rankAndDedupe
           (RSSNewsScraper.limit options)
           (RSSNewsScraper.scoreAll w h keyword
              (RSSNewsScraper.allResults w h keyword options))).
Proof.
  intros Hlen. unfold RSSNewsScraper.liveSearch.
  assert (Ht : truthy keyword = true)
    by (destruct keyword; [simpl in Hlen; lia | reflexivity]).
  rewrite Ht. cbn [negb orb].
  replace (length keyword <? 2)%nat with false
    by (symmetry; apply Nat.ltb_ge; lia).
  reflexivity.
Qed.

Lemma liveSearch_short (w : World) (h : JsHost) (keyword : jsstring)
  (options : RSSNewsScraper.Options) :
  (length keyword < 2)%nat ->
  RSSNewsScraper.liveSearch w h keyword options
  = inl RSSNewsScraper.keywordTooShort.
Proof.
  intros Hlen. unfold RSSNewsScraper.liveSearch.
  replace (length keyword <? 2)%nat with true
    by (symmetry; apply Nat.ltb_lt; lia).
  rewrite orb_true_r. reflexivity.
Qed.

Lemma sortedChunks_shape (w : World) (h : JsHost)
  (keyword : option jsstring) (limit : nat)
  (feeds : list (jsstring * FeedInfo.t)) :
  let results :=
    firstn limit
      (sortBy RSSNewsScraper.byDateDesc
         (RSSNewsScraper.collectChunks w h keyword (length feeds) feeds [])) in
  (length results <= limit)%nat
  /\ forall x, In x results ->
       exists key info, In (key, info) feeds
                        /\ NewsItem.category x = FeedInfo.category info.
Proof.
  cbv zeta. split; [rewrite length_firstn; lia |].
  intros x Hx. apply In_firstn in Hx.
  eapply Permutation_in in Hx; [| apply sortBy_perm].
  rewrite collectChunks_all in Hx by lia. cbn [app] in Hx.
  apply scrapeFeeds_category in Hx. exact Hx.
Qed.

Lemma scrapeByCategory_shape (w : World) (h : JsHost) (category : jsstring)
  (keyword : option jsstring) (limit : nat) :
  (length (RSSNewsScraper.scrapeByCategory w h category keyword limit)
   <= limit)%nat
  /\ forall x,
       In x (RSSNewsScraper.scrapeByCategory w h category keyword limit) ->
       NewsItem.category x = category.
Proof.
  unfold RSSNewsScraper.scrapeByCategory. cbv zeta.
  match goal with
  | |- context [RSSNewsScraper.collectChunks w h keyword (length ?l) ?l []] =>
      generalize (sortedChunks_shape w h keyword limit l);
      generalize (fun f => proj1 (List.filter_In
        (fun '(_, info) => str_eqb (FeedInfo.category info) category)
        f RSSNewsScraper.rssFeeds));
      generalize l
  end.
  intros feeds Hfeeds [Hlen Hcat]. split; [exact Hlen |].
  intros x Hx. apply Hcat in Hx as [key [info [Hin Hc]]].
  apply Hfeeds in Hin as [_ Heq]. apply str_eqb_eq in Heq. congruence.
Qed.

End LiveFacts.

(** [liveSearch] and [liveCategory] of the service never throw.
    [liveSearch] fails, with the scraper's message as [error] and no
    news, exactly when the keyword has fewer than two code units;
    otherwise it succeeds with at most 100 entries, no two with the same
    url and none without one. [liveCategory] always succeeds, with at most
    50 items, all of the category asked for. In both, [count] is the number
    of entries of [news].
    In [searchWorld] the keyword [dolar] gives six entries; the category
    [Ekonomi] gives the three items of [dollarFeed]. *)
Theorem service_live_results (w : World) (h : JsHost) (text : jsstring)
  (startTime endTime : Z) :
  (let search := ScraperService.liveSearch w h text startTime endTime in
  let byCategory := ScraperService.liveCategory w h text startTime endTime in
  ScraperService.live_count search = length (ScraperService.live_news search)
  /\ ((length text < 2)%nat ->
      search = {| ScraperService.live_success := false;
                  ScraperService.live_news := [];
                  ScraperService.live_count := O;
                  ScraperService.live_duration := None;
                  ScraperService.live_error :=
                    Some (js "Arama kelimesi en az 2 karakter olmalidir") |})
  /\ ((2 <= length text)%nat ->
      ScraperService.live_success search = true
      /\ ScraperService.live_error search = None
      /\ (ScraperService.live_count search <= 100)%nat
      /\ NoDup (map ScoredItem.url (ScraperService.live_news search))
      /\ (forall x, In x (ScraperService.live_news search) ->
            exists u, ScoredItem.url x = Some u /\ truthy u = true))
  /\ ScraperService.live_success byCategory = true
  /\ ScraperService.live_count byCategory
     = length (ScraperService.live_news byCategory)
  /\ (ScraperService.live_count byCategory <= 50)%nat
  /\ (forall x, In x (ScraperService.live_news byCategory) ->
                NewsItem.category x = text))
  /\ (let found := ScraperService.liveSearch searchWorld latin (js "dolar")
                                             0 5 in
      (ScraperService.live_success found, ScraperService.live_count found,
       ScraperService.live_duration found) = (true, 6%nat, Some 5%Z))
  /\ ScraperService.live_count
       (ScraperService.liveCategory (worldWith ntvEkonomi dollarFeed) latin
                                    (js "Ekonomi") 0 5) = 3%nat.
Proof.
  split.
  {
  intros search byCategory.
  split.
  { subst search. unfold ScraperService.liveSearch.
    destruct (RSSNewsScraper.liveSearch w h text RSSNewsScraper.defaultOptions)
      as [[message] | news]; reflexivity. }
  split.
  { intros Hlen. subst search. unfold ScraperService.liveSearch.
    rewrite (liveSearch_short w h text RSSNewsScraper.defaultOptions Hlen).
    reflexivity. }
  split.
  { intros Hlen. subst search. unfold ScraperService.liveSearch.
    rewrite (liveSearch_long w h text RSSNewsScraper.defaultOptions Hlen).
    cbn [ScraperService.live_success ScraperService.live_error
         ScraperService.live_count ScraperService.live_news].
    pose proof (rankAndDedupe_shape
                  (RSSNewsScraper.limit RSSNewsScraper.defaultOptions)
                  (RSSNewsScraper.scoreAll w h text
                     (RSSNewsScraper.allResults
                        w h text RSSNewsScraper.defaultOptions))) as Hs.
    cbv zeta in Hs. destruct Hs as [H1 [H2 H3]].
    split; [reflexivity |]. split; [reflexivity |].
    split; [exact H1 |]. split; [exact H2 |].
    intros x Hx. apply H3, Hx. }
  pose proof (scrapeByCategory_shape w h text None 50) as [Hlen Hcat].
  subst byCategory. unfold ScraperService.liveCategory. cbv zeta.
  cbn [ScraperService.live_success ScraperService.live_count
       ScraperService.live_news].
  split; [reflexivity |]. split; [reflexivity |].
  split; [exact Hlen | exact Hcat].
  }
  split; vm_compute; reflexivity.
Qed.

Section CleanTextFacts.

Import Utils.

Lemma trimStart_suffix (s : jsstring) : exists p, s = p ++ trimStart s.
Proof.
  induction s as [|c s [p Hp]]; [exists []; reflexivity |].
  simpl. destruct (isWhiteSpace c).
  - exists (c :: p). simpl. f_equal. exact Hp.
  - exists []. reflexivity.
Qed.

Lemma trimEnd_prefix (s : jsstring) : exists t, s = trimEnd s ++ t.
Proof.
  unfold trimEnd. destruct (trimStart_suffix (rev s)) as [p Hp].
  exists (rev p). rewrite <- rev_app_distr, <- Hp, rev_involutive.
  reflexivity.
Qed.

Lemma singleSpaced_tail (c : N) (r : jsstring) :
  singleSpaced (c :: r) = true -> singleSpaced r = true.
Proof. cbn [singleSpaced]. intros H. apply andb_true_iff in H. tauto. Qed.

Lemma singleSpaced_trimStart (s : jsstring) :
  singleSpaced s = true -> singleSpaced (trimStart s) = true.
Proof.
  induction s as [|c s IH]; [reflexivity |]. intros H. simpl.
  destruct (isWhiteSpace c); [apply IH, (singleSpaced_tail c s H) | exact H].
Qed.

Lemma singleSpaced_prefix (a b : jsstring) :
  singleSpaced (a ++ b) = true -> singleSpaced a = true.
Proof.
  induction a as [|c a IH]; [reflexivity |].
  cbn [app singleSpaced]. intros H. apply andb_true_iff in H as [Hc Hr].
  apply andb_true_iff. split; [| apply IH, Hr].
  destruct (isWhiteSpace c); [| reflexivity].
  apply andb_true_iff in Hc as [H32 Hnext]. apply andb_true_iff.
  split; [exact H32 |]. destruct a; [reflexivity | exact Hnext].
Qed.

Lemma singleSpaced_trim (s : jsstring) :
  singleSpaced s = true -> singleSpaced (trim s) = true.
Proof.
  intros H. unfold trim.
  destruct (trimEnd_prefix (trimStart s)) as [t Ht].
  apply (singleSpaced_prefix _ t). rewrite <- Ht.
  apply singleSpaced_trimStart, H.
Qed.

(** The result of the replacement of the runs of white space, with and
    without a run going on. *)
Lemma collapse_go_spaced (s : jsstring) :
  singleSpaced (collapse_go false s) = true
  /\ singleSpaced (collapse_go true s) = true
  /\ match collapse_go true s with
     | d :: _ => isWhiteSpace d = false
     | [] => True
     end.
Proof.
  induction s as [|c s [IH1 [IH2 IH3]]]; [repeat split |].
  cbn [collapse_go]. destruct (isWhiteSpace c) eqn:Hc.
  - split; [| split; assumption].
    cbn [singleSpaced]. change (isWhiteSpace 32) with true.
    rewrite IH2, N.eqb_refl. cbn [andb].
    destruct (collapse_go true s); [reflexivity |].
    rewrite IH3. reflexivity.
  - cbn [singleSpaced]. rewrite Hc, IH1. repeat split.
Qed.

(** On a string whose white space is single spaces the replacement
    changes nothing. *)
Lemma collapse_go_fixed (s : jsstring) :
  singleSpaced s = true ->
  collapse_go false s = s
  /\ (match s with d :: _ => isWhiteSpace d = false | [] => True end ->
      collapse_go true s = s).
Proof.
  induction s as [|c s IH]; [repeat split |].
  intros H. pose proof (singleSpaced_tail c s H) as Hs.
  destruct (IH Hs) as [IH1 IH2].
  cbn [singleSpaced] in H. apply andb_true_iff in H as [Hc _].
  cbn [collapse_go]. destruct (isWhiteSpace c) eqn:Hw.
  - apply andb_true_iff in Hc as [H32 Hnext]. apply N.eqb_eq in H32. subst c.
    split; [| intros Hd; discriminate Hd].
    f_equal. apply IH2. destruct s; [exact I |].
    apply negb_true_iff, Hnext.
  - split; [f_equal; exact IH1 | intros _; f_equal; exact IH1].
Qed.

(** A pattern is not found in a string that lacks its first code unit. *)
Lemma replaceAll_absent (first : N) (pattern replacement s : jsstring) :
  ~ In first s ->
  replaceAll (first :: pattern) replacement s = s.
Proof.
  unfold replaceAll. induction s as [|c s IH]; [reflexivity |].
  intros Hno. cbn [replaceAll_go startsWith].
  replace (first =? c) with false.
  - cbn [andb]. f_equal. apply IH. intros Hin. apply Hno. right. exact Hin.
  - symmetry. apply N.eqb_neq. intros ->. apply Hno. left. reflexivity.
Qed.

End CleanTextFacts.

(** [cleanText]: the result has no white space at either end, and its
    white space is single spaces; a missing or empty text gives the empty
    string. A result that holds no [&] is left as it is by a second
    cleaning. The entities are decoded one kind after the other, [&amp;]
    first, so [&amp;lt;b&amp;gt;] becomes [<b>], and [&amp;amp;] becomes
    [&amp;], which a second cleaning turns into [&]. *)
Theorem cleanText_normal_form (text : option jsstring) :
  (let out := Utils.cleanText text in
   singleSpaced out = true
   /\ trim out = out
   /\ (text = None \/ text = Some [] -> out = [])
   /\ (~ In 38 out -> Utils.cleanText (Some out) = out))
  /\ Utils.cleanText (Some (js "  Dolar &amp; Euro" ++ [10; 9]
                           ++ js "yukseldi&nbsp;&nbsp;bugun "))
     = js "Dolar & Euro yukseldi bugun"
  /\ Utils.cleanText (Some (js "&amp;lt;b&amp;gt;")) = js "<b>"
  /\ Utils.cleanText (Some (js "&amp;amp;")) = js "&amp;"
  /\ Utils.cleanText (Some (Utils.cleanText (Some (js "&amp;amp;")))) = js "&".
Proof.
  split; [| repeat split; vm_compute; reflexivity].
  intros out.
  assert (Hform : singleSpaced out = true /\ trim out = out).
  { subst out. unfold Utils.cleanText.
    destruct text as [t|]; [| split; reflexivity].
    destruct (truthy t); cbn [negb]; [| split; reflexivity].
    cbv zeta. split.
    - apply singleSpaced_trim. unfold Utils.collapseWhiteSpace.
      apply collapse_go_spaced.
    - apply trim_idem. }
  destruct Hform as [Hspaced Htrim].
  split; [exact Hspaced |]. split; [exact Htrim |]. split.
  { subst out. intros [-> | ->]; reflexivity. }
  intros Hamp. unfold Utils.cleanText.
  destruct out as [|c out'] eqn:Hout; [reflexivity |].
  cbn [truthy negb]. cbv zeta. eval_js.
  repeat rewrite (replaceAll_absent 38 _ _ (c :: out') Hamp).
  unfold Utils.collapseWhiteSpace.
  rewrite (proj1 (collapse_go_fixed _ Hspaced)). exact Htrim.
Qed.

Section UrlFormatFacts.

Import Utils.

Variable u : jsstring.

Let same : N -> N := fun c => c.

Lemma matcher_seq (a b : regex) (i : nat) (k : nat -> option nat) :
  matcher same u (RSeq a b) i k
  = matcher same u a i (fun j => matcher same u b j k).
Proof. reflexivity. Qed.

Lemma matcher_start (i : nat) (k : nat -> option nat) :
  matcher same u RStart i k = if Nat.eqb i O then k i else None.
Proof. reflexivity. Qed.

Lemma matcher_chars (p : jsstring) (i : nat) (k : nat -> option nat) :
  matcher same u (RChars p) i k
  = if startsWith (skipn i u) p then k (i + length p)%nat else None.
Proof.
  cbn [matcher].
  assert (H : matchChars same u p i
              = if startsWith (skipn i u) p then Some (i + length p)%nat
                else None).
  { revert i. induction p as [|c p IH]; intros i.
    - cbn [matchChars startsWith length]. rewrite Nat.add_0_r.
      destruct (skipn i u); reflexivity.
    - cbn [matchChars length]. destruct (nth_error u i) as [d|] eqn:Hd.
      + rewrite (skipn_nth_error_Some u i d Hd). cbn [startsWith].
        unfold same at 1 2. destruct (c =? d); [| reflexivity].
        cbn [andb]. rewrite IH.
        replace (S i + length p)%nat with (i + S (length p))%nat by lia.
        reflexivity.
      + rewrite (skipn_nth_error_None u i Hd). reflexivity. }
  rewrite H. destruct (startsWith (skipn i u) p); reflexivity.
Qed.

(** [a?]: one [a] first, none otherwise. *)
Lemma matcher_optional (a : regex) (i : nat) (k : nat -> option nat) :
  matcher same u (RRepeat O (Some 1%nat) a) i k
  = match matcher same u a i (fun j => if Nat.eqb j i then None else k j) with
    | Some e => Some e
    | None => k i
    end.
Proof.
  cbn [matcher].
  replace (0 + length u + 2)%nat with (S (S (length u))) by lia.
  reflexivity.
Qed.

Lemma longestFirst_Some (i n : nat) : longestFirst Some i n <> None.
Proof.
  revert i. induction n as [|n IH]; intros i; cbn [longestFirst];
    [discriminate |].
  destruct (longestFirst Some (S i) n); discriminate.
Qed.

(** [[c]+] at the end of an expression: one member of the class is
    enough. *)
Lemma matcher_plus_class (member : N -> bool) (i : nat) :
  matcher same u (RRepeat 1 None (RClass member)) i Some <> None
  <-> exists c, nth_error u i = Some c /\ member c = true.
Proof.
  assert (E : matcher same u (RRepeat 1 None (RClass member)) i Some
              = match nth_error u i with
                | Some c =>
                    if member c
                    then matcher same u (RRepeat O None (RClass member)) (S i) Some
                    else None
                | None => None
                end) by reflexivity.
  rewrite E. destruct (nth_error u i) as [c|].
  - destruct (member c) eqn:Hc.
    + rewrite matcher_star_class. split.
      * intros _. exists c. auto.
      * intros _. apply longestFirst_Some.
    + split; [congruence |]. intros [d [Hd Hm]]. congruence.
  - split; [congruence |]. intros [d [Hd _]]. discriminate.
Qed.

Lemma startsWith_split (s a b : jsstring) :
  startsWith s (a ++ b)
  = startsWith s a && startsWith (skipn (length a) s) b.
Proof.
  revert s. induction a as [|c a IH]; intros s.
  - cbn [app length skipn startsWith]. destruct s; reflexivity.
  - destruct s as [|d s]; [reflexivity |].
    cbn [app length skipn startsWith]. rewrite IH, andb_assoc. reflexivity.
Qed.

(** The expression of [validateNewsData] matches the well-formed urls. *)
Lemma urlFormat_test : test same u urlFormat = true <-> wellFormedUrl u.
Proof.
  rewrite test_true. unfold urlFormat, wellFormedUrl, bodyAt.
  assert (HZ : forall j,
    matcher same u
      (RSeq (RChars (js "://"))
         (RRepeat 1 None (RClass (fun c => negb (isLineTerminator c))))) j Some
    <> None
    <-> startsWith (skipn j u) (js "://") = true
        /\ exists c, nth_error u (j + 3) = Some c
                     /\ isLineTerminator c = false).
  { intros j. rewrite matcher_seq, matcher_chars.
    destruct (startsWith (skipn j u) (js "://")).
    - rewrite matcher_plus_class. change (length (js "://")) with 3%nat.
      split.
      + intros [c [H1 H2]]. split; [reflexivity |]. exists c.
        split; [exact H1 | apply negb_true_iff, H2].
      + intros [_ [c [H1 H2]]]. exists c.
        split; [exact H1 | apply negb_true_iff, H2].
    - split; [congruence | intros [H _]; discriminate H]. }
  change (js "http://") with (js "http" ++ js "://").
  change (js "https://") with (js "http" ++ js "s" ++ js "://").
  rewrite !startsWith_split, skipn_skipn.
  change (length (js "http")) with 4%nat.
  change (length (js "s") + 4)%nat with 5%nat.
  rewrite !andb_true_iff.
  pose proof (HZ 4%nat) as H4. pose proof (HZ 5%nat) as H5.
  change (4 + 3)%nat with 7%nat in H4. change (5 + 3)%nat with 8%nat in H5.
  assert (Hrun : forall k,
    matcher same u
      (RSeq (RChars (js "http"))
         (RSeq (RRepeat O (Some 1%nat) (RChars (js "s"))) k)) O Some
    = if startsWith u (js "http")
      then match (if startsWith (skipn 4 u) (js "s")
                  then matcher same u k 5%nat Some else None) with
           | Some e => Some e
           | None => matcher same u k 4%nat Some
           end
      else None).
  { intros k. rewrite matcher_seq, matcher_chars. change (skipn O u) with u.
    destruct (startsWith u (js "http")); [| reflexivity].
    rewrite matcher_seq, matcher_optional, matcher_chars.
    change (0 + length (js "http"))%nat with 4%nat.
    change (4 + length (js "s"))%nat with 5%nat.
    reflexivity. }
  split.
  - intros [i [_ Hm]]. rewrite matcher_seq, matcher_start in Hm.
    destruct i as [|i]; cbn [Nat.eqb] in Hm; [| congruence].
    rewrite Hrun in Hm.
    destruct (startsWith u (js "http")); [| congruence].
    destruct (startsWith (skipn 4 u) (js "s")).
    + match type of Hm with
      | match ?m with _ => _ end <> None => destruct m as [n|] eqn:Hfive
      end.
      * right. assert (H : Some n <> None) by discriminate.
        apply H5 in H. tauto.
      * left. apply H4 in Hm. tauto.
    + left. apply H4 in Hm. tauto.
  - intros H. exists O. split; [lia |].
    rewrite matcher_seq, matcher_start. cbn [Nat.eqb]. rewrite Hrun.
    destruct H as [[[Hh Hc] Hb] | [[Hh [Hs Hc]] Hb]]; rewrite Hh.
    + assert (Hm : matcher same u
          (RSeq (RChars (js "://"))
             (RRepeat 1 None (RClass (fun c => negb (isLineTerminator c)))))
          4%nat Some <> None) by (apply H4; tauto).
      destruct (startsWith (skipn 4 u) (js "s")); [| exact Hm].
      match goal with
      | |- match ?m with _ => _ end <> None => destruct m; [discriminate | exact Hm]
      end.
    + rewrite Hs.
      assert (Hm : matcher same u
          (RSeq (RChars (js "://"))
             (RRepeat 1 None (RClass (fun c => negb (isLineTerminator c)))))
          5%nat Some <> None) by (apply H5; tauto).
      match goal with
      | |- match ?m with _ => _ end <> None =>
          destruct m; [discriminate | congruence]
      end.
Qed.

(** A well-formed url is not blank. *)
Lemma wellFormedUrl_filled : wellFormedUrl u -> blank (Some u) = false.
Proof.
  intros H.
  assert (Hh : exists r, u = 104 :: r).
  { destruct H as [[H _] | [H _]]; apply startsWith_spec in H as [r ->];
      eexists; vm_compute; reflexivity. }
  destruct Hh as [r ->]. cbn [blank truthy negb orb].
  unfold trim. cbn [trimStart]. change (isWhiteSpace 104) with false.
  cbv iota.
  destruct (trimEnd_head 104 r eq_refl) as [r' ->]. reflexivity.
Qed.

End UrlFormatFacts.

(** [validateNewsData]: the item is valid exactly when no error is
    listed, that is when the title is not blank, the url is [http://] or
    [https://] followed by a code unit that is no line terminator, the date
    is present and the source is a non-empty string. The errors come in the
    order title, url, date, source, url format. A url that is not empty but
    only white space is reported twice, as empty and as badly formed; an
    empty url is only reported as empty, nothing is said of its format. *)
Theorem validateNewsData_valid (d : Utils.NewsData) :
  (fst (Utils.validateNewsData d) = true <-> snd (Utils.validateNewsData d) = [])
  /\ (fst (Utils.validateNewsData d) = true
      <-> (exists t, Utils.title d = Some t /\ trim t <> [])
          /\ (exists u, Utils.url d = Some u /\ wellFormedUrl u)
          /\ Utils.publishedAt d <> None
          /\ (exists s, Utils.source d = Some s /\ s <> []))
  /\ (exists picked : list bool,
        length picked = 5%nat
        /\ snd (Utils.validateNewsData d)
           = map snd (List.filter fst
               (combine picked
                  [Utils.EmptyTitle; Utils.EmptyUrl; Utils.NoPublishedAt;
                   Utils.NoSource; Utils.BadUrlFormat])))
  /\ (In Utils.BadUrlFormat (snd (Utils.validateNewsData d))
      <-> exists u, Utils.url d = Some u /\ u <> [] /\ ~ wellFormedUrl u)
  /\ (In Utils.EmptyUrl (snd (Utils.validateNewsData d))
      <-> Utils.url d = None \/ exists u, Utils.url d = Some u /\ trim u = [])
  /\ Utils.validateNewsData
       (newsData (Some "Dolar yukseldi"%string) (Some "https://a.com/haber/1"%string) true
          (Some "Ekonomi"%string))
     = (true, [])
  /\ Utils.validateNewsData (newsData None None false None)
     = (false, [Utils.EmptyTitle; Utils.EmptyUrl; Utils.NoPublishedAt;
                Utils.NoSource])
  /\ Utils.validateNewsData
       (newsData (Some "   "%string) (Some "  "%string) true (Some "Ekonomi"%string))
     = (false, [Utils.EmptyTitle; Utils.EmptyUrl; Utils.BadUrlFormat])
  /\ Utils.validateNewsData
       (newsData (Some "Dolar"%string) (Some ""%string) true (Some ""%string))
     = (false, [Utils.EmptyUrl; Utils.NoSource])
  /\ map (fun url => Utils.validateNewsData
                       (newsData (Some "Dolar"%string) (Some url) true (Some "Ekonomi"%string)))
       ["http://a"; "ftp://a.com/x"; "https://"; " https://a.com";
        "a.com/https://b"; "HTTPS://a.com"]%string
     = [(true, []); (false, [Utils.BadUrlFormat]); (false, [Utils.BadUrlFormat]);
        (false, [Utils.BadUrlFormat]); (false, [Utils.BadUrlFormat]);
        (false, [Utils.BadUrlFormat])].
Proof.
  assert (Hblank : forall v : option jsstring,
            Utils.blank v = false <-> exists t, v = Some t /\ trim t <> []).
  { intros [t|]; cbn [Utils.blank].
    - split.
      + intros H. exists t. split; [reflexivity |].
        apply orb_false_iff in H as [_ H]. destruct (trim t); [discriminate H |].
        discriminate.
      + intros [t' [[= <-] H]]. destruct t as [|c t]; [elim H; reflexivity |].
        destruct (trim (c :: t)); [elim H; reflexivity | reflexivity].
    - split; [discriminate | intros [t [H _]]; discriminate H]. }
  assert (Hnil : forall u : jsstring, trim u = [] <-> Utils.blank (Some u) = true).
  { intros u. cbn [Utils.blank]. destruct u as [|c u]; [split; reflexivity |].
    cbn [truthy negb orb]. destruct (trim (c :: u)); split;
      (reflexivity || discriminate). }
  split; [| split; [| split; [| split; [| split;
    [| repeat split; vm_compute; reflexivity]]]]].
  - unfold Utils.validateNewsData. cbn [fst snd].
    rewrite Nat.eqb_eq. apply length_zero_iff_nil.
  - unfold Utils.validateNewsData. cbn [fst]. rewrite Nat.eqb_eq.
    rewrite length_zero_iff_nil. rewrite <- (Hblank (Utils.title d)).
    destruct d as [title url publishedAt source]. cbn [Utils.title Utils.url
      Utils.publishedAt Utils.source].
    destruct (Utils.blank title).
    { split; [| intros [H _]; discriminate H].
      intros H. exfalso. revert H.
      destruct (Utils.blank url), publishedAt, source as [[|? ?]|],
        url as [[|? ?]|]; cbn [app truthy andb];
        try discriminate;
        destruct (negb _); discriminate. }
    destruct url as [u|].
    2:{ split; [| intros [_ [[u [H _]] _]]; discriminate H].
        cbn [Utils.blank app]. destruct publishedAt, source as [[|? ?]|];
          discriminate. }
    pose proof (urlFormat_test u) as Hformat.
    pose proof (wellFormedUrl_filled u) as Hfilled.
    destruct (test (fun c : N => c) u Utils.urlFormat).
    + assert (Hw : wellFormedUrl u) by (apply Hformat; reflexivity).
      rewrite (Hfilled Hw). rewrite andb_false_r. cbn [app].
      destruct publishedAt as [p|], source as [[|c s]|]; cbn [app truthy];
        split; try discriminate;
        try (intros [_ [_ [H _]]]; elim H; reflexivity);
        try (intros [_ [_ [_ [s' [[= <-] H]]]]]; elim H; reflexivity);
        try (intros [_ [_ [_ [s' [H _]]]]]; discriminate H).
      { intros _. split; [reflexivity |]. split; [exists u; auto |].
        split; [discriminate |]. exists (c :: s).
        split; [reflexivity | discriminate]. }
      intros _. reflexivity.
    + assert (Hw : ~ wellFormedUrl u).
      { intros H. apply Hformat in H. discriminate H. }
      split.
      * intros H. exfalso. revert H.
        destruct u as [|c u].
        { cbn [Utils.blank truthy negb orb app].
          destruct publishedAt, source as [[|? ?]|]; discriminate. }
        cbn [truthy negb andb].
        destruct (Utils.blank (Some (c :: u))), publishedAt,
          source as [[|? ?]|]; discriminate.
      * intros [_ [[u' [[= <-] H]] _]]. elim (Hw H).
  - destruct d as [title url publishedAt source].
    unfold Utils.validateNewsData.
    cbn [Utils.title Utils.url Utils.publishedAt Utils.source snd].
    exists [Utils.blank title; Utils.blank url;
            match publishedAt with None => true | Some _ => false end;
            match source with Some s => negb (truthy s) | None => true end;
            match url with
            | Some u => truthy u && negb (test (fun c : N => c) u Utils.urlFormat)
            | None => false
            end].
    split; [reflexivity |].
    destruct (Utils.blank title), (Utils.blank url), publishedAt,
      source as [[|? ?]|], url as [u|]; cbn [truthy negb app];
      try reflexivity;
      destruct (truthy u && negb (test (fun c : N => c) u Utils.urlFormat));
      reflexivity.
  - destruct d as [title url publishedAt source].
    unfold Utils.validateNewsData.
    cbn [Utils.title Utils.url Utils.publishedAt Utils.source snd].
    assert (Hearlier : forall errors,
      errors = (let errors := [] in
       let errors := if Utils.blank title then errors ++ [Utils.EmptyTitle] else errors in
       let errors := if Utils.blank url then errors ++ [Utils.EmptyUrl] else errors in
       let errors := match publishedAt with
                     | None => errors ++ [Utils.NoPublishedAt]
                     | Some _ => errors
                     end in
       match source with
       | Some s => if truthy s then errors else errors ++ [Utils.NoSource]
       | None => errors ++ [Utils.NoSource]
       end) ->
      ~ In Utils.BadUrlFormat errors).
    { intros errors ->. cbv zeta.
      destruct (Utils.blank title), (Utils.blank url), publishedAt,
        source as [[|? ?]|]; cbn [app truthy In]; intros H;
        repeat (destruct H as [H | H]; [discriminate H |]); exact H. }
    cbv zeta in *. specialize (Hearlier _ eq_refl).
    destruct url as [u|].
    2:{ split; [intros H; elim (Hearlier H) | intros [u [H _]]; discriminate H]. }
    pose proof (urlFormat_test u) as Hformat.
    destruct u as [|c u].
    { cbn [truthy andb]. split; [intros H; elim (Hearlier H) |].
      intros [u [[= <-] [H _]]]. elim H. reflexivity. }
    cbn [truthy andb].
    destruct (test (fun c0 : N => c0) (c :: u) Utils.urlFormat); cbn [negb].
    + split; [intros H; elim (Hearlier H) |].
      intros [u' [[= <-] [_ H]]]. elim H. apply Hformat. reflexivity.
    + split.
      * intros _. exists (c :: u). split; [reflexivity |].
        split; [discriminate |]. intros H. apply Hformat in H. discriminate H.
      * intros _. apply in_or_app. right. left. reflexivity.
  - destruct d as [title url publishedAt source].
    unfold Utils.validateNewsData.
    cbn [Utils.title Utils.url Utils.publishedAt Utils.source snd].
    assert (Hurl : Utils.blank url = true
                   <-> url = None \/ exists u, url = Some u /\ trim u = []).
    { destruct url as [u|].
      - rewrite <- Hnil. split.
        + intros H. right. exists u. auto.
        + intros [H | [u' [[= <-] H]]]; [discriminate H | exact H].
      - split; [intros _; left; reflexivity | reflexivity]. }
    rewrite <- Hurl.
    destruct (Utils.blank url).
    + split; [reflexivity | intros _].
      destruct (Utils.blank title), publishedAt, source as [[|? ?]|],
        url as [u|]; cbn [app truthy];
        try (destruct (truthy u && negb (test (fun c : N => c) u Utils.urlFormat)));
        cbn [app In]; tauto.
    + split; [| discriminate].
      destruct (Utils.blank title), publishedAt, source as [[|? ?]|],
        url as [u|]; cbn [app truthy];
        try (destruct (truthy u && negb (test (fun c : N => c) u Utils.urlFormat)));
        cbn [app In]; intros H;
        repeat (destruct H as [H | H]; [discriminate H |]); elim H.
Qed.
